(** * Flashcard scheduler: SM-2 review calculator, due selection, streaks

  Shallow embedding of
    - [calculateSM2]      (flashcard-app/src/lib/sm2.ts),
    - [fetchDueCards]     (lib/study-session.ts of the implementation guide),
    - [updateUserStreak]  (same file) and [updateStreak] (design notes),
  together with the properties of the scheduler specification, and of
    - [isCardMature], [getSuggestedIntervals] (lib/sm2.ts), the
      calculator of the design notes, [submitCardReview],
    - the handlers of the study page (app/study/page.tsx),
    - [calculateStreak], [estimateVocabularyLevel],
      [getNextLevelProgress], [createCustomCloze], [queueReview] and
      [syncPendingReviews] (feature specifications),
    - [fetchExampleSentences] (lib/api/dictionary.ts),
  with further properties read off this code.

  JavaScript numbers are IEEE-754 binary64 values.  They are modelled by
  the [spec_float] type of the standard library, instantiated at
  precision 53 and maximal exponent 1024, so that every arithmetic
  operation of the source rounds exactly as the source does. *)

From Stdlib Require Import ZArith Bool List String Lia SpecFloat.
From Stdlib Require Import Sorting.Sorted Sorting.Permutation.
From Stdlib Require DecimalString DecimalZ.
Import ListNotations.

Local Open Scope Z_scope.

(** ** JavaScript numbers *)

Module JS.

Definition number := spec_float.

Definition prec : Z := 53.
Definition emax : Z := 1024.

Definition NaN : number := S754_nan.
Definition neg_infinity : number := S754_infinity true.

Definition add : number -> number -> number := SFadd prec emax.
Definition sub : number -> number -> number := SFsub prec emax.
Definition mul : number -> number -> number := SFmul prec emax.

(** [x < y], [x <= y], [x > y] and [x === y] on numbers; every
    comparison with NaN is false. *)
Definition lt : number -> number -> bool := SFltb.
Definition le : number -> number -> bool := SFleb.
Definition gt (x y : number) : bool := SFltb y x.
Definition strict_eq : number -> number -> bool := SFeqb.

(** The Number value of a mathematical integer. *)
Definition of_Z (n : Z) : number := binary_normalize prec emax n 0 false.

(** A number is a well-formed binary64 datum. *)
Definition is_double (x : number) : Prop := valid_binary prec emax x = true.

Definition is_nan (x : number) : bool :=
  match x with S754_nan => true | _ => false end.

Definition is_pos_zero (x : number) : bool :=
  match x with S754_zero false => true | _ => false end.

Definition is_neg_zero (x : number) : bool :=
  match x with S754_zero true => true | _ => false end.

(** Numeric literals of the source, as the nearest binary64 value. *)
Definition lit_0    : number := S754_zero false.
Definition lit_1    : number := S754_finite false 4503599627370496 (-52).
Definition lit_2    : number := S754_finite false 4503599627370496 (-51).
Definition lit_3    : number := S754_finite false 6755399441055744 (-51).
Definition lit_5    : number := S754_finite false 5629499534213120 (-50).
Definition lit_6    : number := S754_finite false 6755399441055744 (-50).
Definition lit_0_1  : number := S754_finite false 7205759403792794 (-56).
Definition lit_0_08 : number := S754_finite false 5764607523034235 (-56).
Definition lit_0_02 : number := S754_finite false 5764607523034235 (-58).
Definition lit_1_3  : number := S754_finite false 5854679515581645 (-52).

(** One step of the loop of [Math.max]: [highest] is the running
    maximum, [n] the next argument (neither is NaN). *)
Definition max_step (highest n : number) : number :=
  if is_pos_zero n && is_neg_zero highest then n
  else if gt n highest then n
  else highest.

(** [Math.max(a, b)]: NaN if either argument is NaN, otherwise the loop
    above started at -Infinity. *)
Definition Math_max (a b : number) : number :=
  if is_nan a || is_nan b then NaN
  else max_step (max_step neg_infinity a) b.

(** [Math.round(x)]: non-finite and integral numbers are returned
    unchanged; otherwise the closest integer, the one closer to
    +Infinity in case of a tie, that is floor(x + 1/2) computed exactly;
    a zero result keeps the sign of [x]. *)
Definition Math_round (x : number) : number :=
  match x with
  | S754_finite s m e =>
      if 0 <=? e then x
      else
        let k := - e in
        if Z.pos m mod 2 ^ k =? 0 then x
        else
          let n := (2 * cond_Zopp s (Z.pos m) + 2 ^ k) / 2 ^ (k + 1) in
          if n =? 0 then S754_zero s else of_Z n
  | _ => x
  end.

(** A number is integral when it is finite and has no fractional part. *)
Definition is_integral (x : number) : bool :=
  match x with
  | S754_zero _ => true
  | S754_finite _ m e => (0 <=? e) || (Z.pos m mod 2 ^ (- e) =? 0)
  | _ => false
  end.

End JS.

(** ** Outcome of a call that may throw *)

Inductive outcome (A : Type) : Type :=
| Return (a : A)
| Throw (message : string).

Arguments Return {A} a.
Arguments Throw {A} message.

(** ** Review calculator: lib/sm2.ts *)

Module SM2.
Import JS.

(** A [Date] obtained by [new Date()] at clock reading [created] and
    then moved by [setDate(getDate() + days)].  The calendar arithmetic
    of the host is not interpreted. *)
Record Date : Type := { created : Z; days_added : number }.

Record SM2Result : Type := {
  r_interval : number;
  r_repetitions : number;
  r_easeFactor : number;
  r_nextReviewDate : Date
}.

Record SM2Input : Type := {
  quality : number;
  repetitions : number;
  easeFactor : number;
  interval : number
}.

Definition invalid_quality : string := "Quality must be between 0 and 5".

(** [easeFactor + (0.1 - (5 - quality) * (0.08 + (5 - quality) * 0.02))] *)
Definition ease_update (quality easeFactor : number) : number :=
  add easeFactor
    (sub lit_0_1
       (mul (sub lit_5 quality)
          (add lit_0_08 (mul (sub lit_5 quality) lit_0_02)))).

Definition calculateSM2 (now : Z) (input : SM2Input) : outcome SM2Result :=
  let quality := quality input in
  let repetitions := repetitions input in
  let easeFactor := easeFactor input in
  let interval := interval input in
  if lt quality lit_0 || gt quality lit_5 then Throw invalid_quality
  else
    let newEaseFactor := ease_update quality easeFactor in
    let newEaseFactor := Math_max lit_1_3 newEaseFactor in
    let '(newRepetitions, newInterval) :=
      if lt quality lit_3 then (lit_0, lit_1)
      else
        let newRepetitions := add repetitions lit_1 in
        (newRepetitions,
         if strict_eq newRepetitions lit_1 then lit_1
         else if strict_eq newRepetitions lit_2 then lit_6
         else Math_round (mul interval newEaseFactor))
    in
    Return {| r_interval := newInterval;
              r_repetitions := newRepetitions;
              r_easeFactor := newEaseFactor;
              r_nextReviewDate :=
                {| created := now; days_added := newInterval |} |}.

Definition QUALITY_AGAIN : number := lit_0.
Definition QUALITY_HARD : number := lit_2.
Definition QUALITY_GOOD : number := lit_3.
Definition QUALITY_EASY : number := lit_5.

(** [isCardMature]: [interval >= 21] *)
Definition lit_21 : number := S754_finite false 5910974510923776 (-48).
Definition isCardMature (interval : number) : bool := le lit_21 interval.

End SM2.

(** ** Due selection: lib/study-session.ts, [fetchDueCards] *)

Module StudySession.

Definition uuid := string.

(** Instants ([TIMESTAMP WITH TIME ZONE] columns and [new Date()]) on a
    common integer time line. *)
Definition timestamp := Z.

(** Columns of [public.cards] read by the query. *)
Record Card : Type := {
  id : uuid;
  deck_id : uuid;
  word : string;
  definition : string;
  phonetic : option string;
  example_sentences : list string;
  image_url : option string;
  audio_url : option string;
  card_type : string
}.

(** Columns of [public.card_reviews] used by the query. *)
Record CardReview : Type := {
  card_id : uuid;
  user_id : uuid;
  ease_factor : JS.number;
  interval : JS.number;
  repetitions : JS.number;
  next_review_date : timestamp
}.

Record Database : Type := {
  cards : list Card;
  card_reviews : list CardReview
}.

Record Session : Type := { user : uuid }.

Record Review : Type := {
  rv_ease_factor : JS.number;
  rv_interval : JS.number;
  rv_repetitions : JS.number
}.

Record DueCard : Type := {
  dc_id : uuid;
  dc_word : string;
  dc_definition : string;
  dc_phonetic : option string;
  dc_example_sentences : list string;
  dc_image_url : option string;
  dc_audio_url : option string;
  dc_card_type : string;
  dc_review : Review
}.

(** [.eq('user_id', session.user.id)] and
    [.lte('next_review_date', new Date().toISOString())] *)
Definition is_due (uid : uuid) (now : timestamp) (r : CardReview) : bool :=
  String.eqb (user_id r) uid && (next_review_date r <=? now).

Definition earlier_or_same (a b : CardReview) : Prop :=
  next_review_date a <= next_review_date b.

(** [.order('next_review_date', { ascending: true })]: the server
    answers with the selected rows in some order that is ascending in
    [next_review_date]; the query names no other sort key. *)
Definition ordered_by_next_review_date (rows answer : list CardReview) : Prop :=
  Permutation rows answer /\ Sorted earlier_or_same answer.

(** One admissible server: insertion into an ascending list, scanning
    the table front to back. *)
Fixpoint insert_by_date (r : CardReview) (l : list CardReview) : list CardReview :=
  match l with
  | [] => [r]
  | x :: t =>
      if next_review_date r <=? next_review_date x then r :: l
      else x :: insert_by_date r t
  end.

Definition sort_by_date (rows : list CardReview) : list CardReview :=
  fold_right insert_by_date [] rows.

(** [if (deckId)]: an absent or empty string adds no filter. *)
Definition deck_filter (deckId : option uuid) : option uuid :=
  match deckId with
  | Some d => if String.eqb d EmptyString then None else Some d
  | None => None
  end.

(** The embedded [cards ( ... )] resource of a review row: the card
    referenced by [card_id]; [.eq('cards.deck_id', deckId)] constrains
    the embedded resource only, which is null when the card does not
    match. *)
Definition embedded_card (db : Database) (deckId : option uuid)
    (r : CardReview) : option Card :=
  match find (fun c => String.eqb (id c) (card_id r)) (cards db) with
  | Some c =>
      match deck_filter deckId with
      | Some d => if String.eqb (deck_id c) d then Some c else None
      | None => Some c
      end
  | None => None
  end.

Definition null_cards : string :=
  "TypeError: Cannot read properties of null (reading 'id')".

(** The callback of [data.map]. *)
Definition to_due_card (db : Database) (deckId : option uuid)
    (item : CardReview) : outcome DueCard :=
  match embedded_card db deckId item with
  | Some c =>
      Return {| dc_id := id c;
                dc_word := word c;
                dc_definition := definition c;
                dc_phonetic := phonetic c;
                dc_example_sentences := example_sentences c;
                dc_image_url := image_url c;
                dc_audio_url := audio_url c;
                dc_card_type := card_type c;
                dc_review :=
                  {| rv_ease_factor := ease_factor item;
                     rv_interval := interval item;
                     rv_repetitions := repetitions item |} |}
  | None => Throw null_cards
  end.

Fixpoint map_items (db : Database) (deckId : option uuid)
    (data : list CardReview) : outcome (list DueCard) :=
  match data with
  | [] => Return []
  | item :: rest =>
      match to_due_card db deckId item with
      | Throw e => Throw e
      | Return c =>
          match map_items db deckId rest with
          | Throw e => Throw e
          | Return cs => Return (c :: cs)
          end
      end
  end.

(** [fetchDueCards(deckId)] run with the given session, backend fault
    (if any), database contents and clock reading. *)
Inductive fetchDueCards (session : option Session) (fault : option string)
    (db : Database) (now : timestamp) (deckId : option uuid)
  : outcome (list DueCard) -> Prop :=
| fetch_not_authenticated :
    session = None ->
    fetchDueCards session fault db now deckId (Throw "Not authenticated")
| fetch_error : forall s e,
    session = Some s -> fault = Some e ->
    fetchDueCards session fault db now deckId (Throw e)
| fetch_data : forall s data,
    session = Some s -> fault = None ->
    ordered_by_next_review_date
      (filter (is_due (user s) now) (card_reviews db)) data ->
    fetchDueCards session fault db now deckId (map_items db deckId data).

(** The same call against the insertion-sort server. *)
Definition fetchDueCards_run (session : option Session) (fault : option string)
    (db : Database) (now : timestamp) (deckId : option uuid)
  : outcome (list DueCard) :=
  match session with
  | None => Throw "Not authenticated"
  | Some s =>
      match fault with
      | Some e => Throw e
      | None =>
          map_items db deckId
            (sort_by_date (filter (is_due (user s) now) (card_reviews db)))
      end
  end.

(** The review rows behind a returned sequence of cards, position by
    position. *)
Definition card_of_row (c : DueCard) (r : CardReview) : Prop :=
  dc_id c = card_id r /\
  rv_ease_factor (dc_review c) = ease_factor r /\
  rv_interval (dc_review c) = interval r /\
  rv_repetitions (dc_review c) = repetitions r.

End StudySession.

(** ** Streak tracking: [updateUserStreak] and [updateStreak] *)

Module Streak.

Definition uuid := string.

(** Calendar dates (the [DATE] column and the 'YYYY-MM-DD' prefix of an
    ISO string) as day numbers, and instants ([new Date()]) by their
    time value in milliseconds. *)
Definition date := Z.

Definition instant := Z.

Definition ms_per_day : Z := 86400000.

(** The time zone of the host: the offset of local time from UTC in
    effect at an instant, and the offset that applies to a local time
    value ([LocalTZA(t, true)] and [LocalTZA(t, false)] of
    ECMAScript). *)
Record Zone : Type := {
  offset_at : instant -> Z;
  offset_of_local : Z -> Z
}.

(** [d.toISOString().split('T')[0]]: the date of an instant in UTC. *)
Definition iso_date (t : instant) : date := t / ms_per_day.

(** [d.setDate(d.getDate() - 1)]: the local time of [d] is moved back
    by one calendar day, its time within the day kept, and read back as
    an instant. *)
Definition setDate_getDate_minus_1 (zone : Zone) (d : instant) : instant :=
  let local := d + offset_at zone d in
  let moved := local - ms_per_day in
  moved - offset_of_local zone moved.

(** Columns of [public.profiles] touched by the streak update.  The
    table has no column for a longest streak. *)
Record Profile : Type := {
  id : uuid;
  streak_count : Z;
  last_study_date : option date;
  total_cards_studied : option Z
}.

Definition same_date (a : option date) (b : date) : bool :=
  match a with
  | Some d => d =? b
  | None => false
  end.

(** [.update({...}).eq('id', userId)].  The profile read by
    [.select('last_study_date, streak_count')] has no
    [total_cards_studied] property, so [profile.total_cards_studied + 1]
    is not a number and is stored as null. *)
Definition write_streak (today : date) (newStreak : Z) (p : Profile) : Profile :=
  {| id := id p;
     streak_count := newStreak;
     last_study_date := Some today;
     total_cards_studied := None |}.

Definition update_profile (userId : uuid) (today : date) (newStreak : Z)
    (profiles : list Profile) : list Profile :=
  map (fun p => if String.eqb (id p) userId
                then write_streak today newStreak p else p) profiles.

(** The streak value computed by [updateUserStreak] for a profile that
    was not studied today, from the two date strings it compares with. *)
Definition next_streak (profile : Profile) (today yesterdayStr : date) : Z :=
  let lastStudy := last_study_date profile in
  let newStreak := streak_count profile in
  if same_date lastStudy yesterdayStr then newStreak + 1
  else if negb (same_date lastStudy today) then 1
  else newStreak.

(** [.from('profiles').select(...).eq('id', userId).single()]: the row
    when exactly one matches, no data otherwise. *)
Definition single (userId : uuid) (profiles : list Profile) : option Profile :=
  match filter (fun p => String.eqb (id p) userId) profiles with
  | [profile] => Some profile
  | _ => None
  end.

(** [updateUserStreak(userId)] on a host in [zone], with the readings
    of its two [new Date()]: the one of [today], then the one of
    [yesterday]. *)
Definition updateUserStreak (zone : Zone) (profiles : list Profile)
    (userId : uuid) (now now' : instant) : list Profile :=
  match single userId profiles with
  | None => profiles
  | Some profile =>
      let today := iso_date now in
      if negb (same_date (last_study_date profile) today)
      then
        let yesterdayStr := iso_date (setDate_getDate_minus_1 zone now') in
        update_profile userId today (next_streak profile today yesterdayStr)
          profiles
      else profiles
  end.

(** The effect of [updateUserStreak] on the profile of the user. *)
Definition study (zone : Zone) (profile : Profile) (now now' : instant)
  : Profile :=
  let today := iso_date now in
  if negb (same_date (last_study_date profile) today)
  then write_streak today
         (next_streak profile today
            (iso_date (setDate_getDate_minus_1 zone now')))
         profile
  else profile.

(** [differenceInDays] of date-fns, on a host whose offset from UTC
    does not change: the number of full days from [dateRight] to
    [dateLeft], towards zero. *)
Definition differenceInDays (dateLeft dateRight : instant) : Z :=
  Z.quot (dateLeft - dateRight) ms_per_day.

(** [updateStreak] of the design notes, with the reading of its
    [new Date()]. *)
Definition updateStreak (currentStreak : Z) (now lastStudyDate : instant) : Z :=
  let today := now in
  let daysDiff := differenceInDays today lastStudyDate in
  if daysDiff =? 1 then currentStreak + 1
  else if daysDiff =? 0 then currentStreak
  else 1.

(** A zone whose offset from UTC is [offset] all the time. *)
Definition steady (zone : Zone) (offset : Z) : Prop :=
  forall t, offset_at zone t = offset /\ offset_of_local zone t = offset.

End Streak.

(** ** Notions of the specification *)

Section SpecificationNotions.
Import JS.

(** A rating in the closed range [0, 5]. *)
Definition in_range (q : number) : bool := le lit_0 q && le q lit_5.

(** Rounding to the closest integer, ties away from zero: the sign of
    [x] applied to floor(|x| + 1/2). *)
Definition round_half_away_from_zero (x : number) : number :=
  match x with
  | S754_finite s m e =>
      if 0 <=? e then x
      else
        let k := - e in
        if Z.pos m mod 2 ^ k =? 0 then x
        else
          let a := (2 * Z.pos m + 2 ^ k) / 2 ^ (k + 1) in
          if a =? 0 then S754_zero s else of_Z (cond_Zopp s a)
  | _ => x
  end.

(** The larger of two numbers. *)
Definition larger (a b : number) : number := if lt a b then b else a.

(** [max(1.3, ease + (0.1 - (5 - quality) * (0.08 + (5 - quality) * 0.02)))] *)
Definition spec_ease (quality ease : number) : number :=
  larger lit_1_3
    (add ease
       (sub lit_0_1
          (mul (sub lit_5 quality)
             (add lit_0_08 (mul (sub lit_5 quality) lit_0_02))))).

(** [x] is a double nearest to the fraction [p / q]. *)
Definition nearest_double (p q : Z) (x : number) : Prop :=
  match x with
  | S754_finite false m e =>
      is_double x /\ e <= 0 /\
      2 * Z.abs (Z.pos m * q - p * 2 ^ (- e)) <= q
  | _ => False
  end.

(** ** Notions used in the proofs *)

(** Position of the leading binary digit of [m * 2 ^ e]. *)
Definition magnitude (m : positive) (e : Z) : Z := Z.pos (digits2_pos m) + e.

(** Zero, or finite and below [2 ^ B] in absolute value. *)
Definition finite_below (B : Z) (x : number) : Prop :=
  match x with
  | S754_zero _ => True
  | S754_finite _ m e => magnitude m e <= B
  | _ => False
  end.

(** Positive (possibly infinite), at least 1, with a mantissa of at most
    53 digits. *)
Definition at_least_one (x : number) : Prop :=
  match x with
  | S754_finite false m e => Z.pos (digits2_pos m) <= 53 /\ 1 <= magnitude m e
  | S754_infinity false => True
  | _ => False
  end.

Definition not_negative_finite (x : number) : Prop :=
  match x with
  | S754_finite true _ _ => False
  | _ => True
  end.

End SpecificationNotions.

(** ** Concrete inputs *)

Module Scenario.

Local Open Scope string_scope.
Local Open Scope Z_scope.

Section Reviews.
Import JS SM2.

Definition lit_minus_1 : number := S754_finite true 4503599627370496 (-52).
Definition lit_2_5 : number := S754_finite false 5629499534213120 (-51).
Definition lit_2_36 : number := S754_finite false 5314247560297185 (-51).
Definition lit_14 : number := S754_finite false 7881299347898368 (-49).
Definition lit_15 : number := S754_finite false 8444249301319680 (-49).

(** The usage example of the implementation guide: rating "Good" after
    two successful reviews. *)
Definition good_after_two : SM2Input :=
  {| quality := QUALITY_GOOD; repetitions := lit_2;
     easeFactor := lit_2_5; interval := lit_6 |}.

(** A rating half way between "Hard" and "Good". *)
Definition between_hard_and_good : SM2Input :=
  {| quality := lit_2_5; repetitions := lit_2;
     easeFactor := lit_2_5; interval := lit_6 |}.

Definition too_easy : SM2Input :=
  {| quality := lit_6; repetitions := lit_2;
     easeFactor := lit_2_5; interval := lit_6 |}.

End Reviews.

Section Due.
Import StudySession.

Definition a_card (i : string) : Card :=
  {| id := i; deck_id := "d"; word := i; definition := i;
     phonetic := None; example_sentences := []; image_url := None;
     audio_url := None; card_type := "basic" |}.

Definition a_review (i : string) (t : timestamp) : CardReview :=
  {| card_id := i; user_id := "u"; ease_factor := lit_2_5;
     interval := JS.lit_0; repetitions := JS.lit_0;
     next_review_date := t |}.

(** Two cards of one learner that fell due at the same instant. *)
Definition tie_db : Database :=
  {| cards := [a_card "a"; a_card "b"];
     card_reviews := [a_review "a" 0; a_review "b" 0] |}.

(** The same two cards, due one after the other. *)
Definition apart_db : Database :=
  {| cards := [a_card "a"; a_card "b"];
     card_reviews := [a_review "b" 3; a_review "a" 1] |}.

Definition learner : Session := {| user := "u" |}.

End Due.

Section Streaks.
Import Streak.

(** A learner on a four-day streak who last studied on day 9. *)
Definition some_learner : Profile :=
  {| id := "u"; streak_count := 4; last_study_date := Some 9;
     total_cards_studied := Some 30 |}.

(** A host on UTC, and noon of day 10 there. *)
Definition utc : Zone :=
  {| offset_at := fun _ => 0; offset_of_local := fun _ => 0 |}.


(** New York around the change to daylight time of 14 March 2021, at
    07:00 UTC: five hours behind UTC before it, four hours after. *)
Definition new_york : Zone :=
  {| offset_at := fun t =>
       if t <? 1615705200000 then -18000000 else -14400000;
     offset_of_local := fun t =>
       if t <? 1615690800000 then -18000000 else -14400000 |}.

(** 14 March 2021, 19:30 in New York, which is 23:30 UTC of that day,
    day 18700; and a learner there on a four-day streak who last
    studied on 13 March. *)
Definition evening_of_the_change : instant := 1615764600000.

Definition new_yorker : Profile :=
  {| id := "u"; streak_count := 4; last_study_date := Some 18699;
     total_cards_studied := Some 30 |}.

(** A study at 23:00 UTC of day 18699 and the next one two hours
    later, at 01:00 UTC of day 18700. *)
Definition late_at_night : instant := 1615676400000.

Definition early_next_day : instant := 1615683600000.

End Streaks.

End Scenario.

(** ** Interval suggestions: lib/sm2.ts, [getSuggestedIntervals] *)

Module Suggestions.
Import JS SM2.

Definition lit_1_2 : number := S754_finite false 5404319552844595 (-52).

Record SuggestedIntervals : Type := {
  again : string;
  hard : string;
  good : string;
  easy : string
}.

Section Display.

(** The conversion of a number to a string by a template literal. *)
Variable Number_toString : number -> string.

(** [`${x} days`] *)
Definition days (x : number) : string :=
  String.append (Number_toString x) " days".

Definition getSuggestedIntervals (currentInterval easeFactor : number)
  : SuggestedIntervals :=
  {| again := "< 1 day";
     hard := days (Math_round (mul currentInterval lit_1_2));
     good := days (Math_round (mul currentInterval easeFactor));
     easy := days (Math_round (mul (mul currentInterval easeFactor) lit_1_3)) |}.

End Display.

End Suggestions.

(** ** The review calculator of the design notes: [calculateSM2] with
    positional arguments, no validation and no date *)

Module DesignNotes.
Import JS.

Record SM2Result : Type := {
  interval : number;
  repetitions : number;
  easeFactor : number
}.

Definition calculateSM2 (quality repetitions easeFactor interval : number)
  : SM2Result :=
  let newEaseFactor := easeFactor in
  let newRepetitions := repetitions in
  let newInterval := interval in
  let newEaseFactor :=
    Math_max lit_1_3
      (add easeFactor
         (sub lit_0_1
            (mul (sub lit_5 quality)
               (add lit_0_08 (mul (sub lit_5 quality) lit_0_02))))) in
  let '(newRepetitions, newInterval) :=
    if lt quality lit_3 then (lit_0, lit_1)
    else
      let newRepetitions := add newRepetitions lit_1 in
      (newRepetitions,
       if strict_eq newRepetitions lit_1 then lit_1
       else if strict_eq newRepetitions lit_2 then lit_6
       else Math_round (mul interval newEaseFactor))
  in
  {| interval := newInterval;
     repetitions := newRepetitions;
     easeFactor := newEaseFactor |}.

End DesignNotes.

(** ** Submitting a review: lib/study-session.ts, [submitCardReview] *)

Module Submission.
Import JS.

Definition uuid := string.
Definition timestamp := Z.

(** An element of the [review_history] array. *)
Record HistoryEntry : Type := {
  date : timestamp;
  h_quality : number;
  h_interval : number
}.

(** The properties of [currentReview] that the function reads. *)
Record CurrentReview : Type := {
  repetitions : number;
  ease_factor : number;
  interval : number;
  review_history : list HistoryEntry
}.

(** The object passed to [.update( ... )]. *)
Record ReviewUpdate : Type := {
  u_ease_factor : number;
  u_interval : number;
  u_repetitions : number;
  u_next_review_date : SM2.Date;
  u_last_review_date : timestamp;
  u_quality : number;
  u_is_mature : bool;
  u_review_history : list HistoryEntry
}.

(** The update request: the payload and the two [.eq] filters. *)
Record UpdateRequest : Type := {
  payload : ReviewUpdate;
  for_card : uuid;
  for_user : uuid
}.

(** What a call has done when it settles: the error it rejected with,
    the update it issued, whether the store accepted it, and the
    profiles as the call leaves them. *)
Record Settled : Type := {
  thrown : option string;
  request : option UpdateRequest;
  stored : bool;
  profiles : list Streak.Profile
}.

Definition invalid_time : string := "RangeError: Invalid time value".

Section Host.

(** Whether a [Date] holds a valid time value; [toISOString] throws
    otherwise. *)
Variable valid_date : SM2.Date -> bool.

(** The time zone of the host. *)
Variable zone : Streak.Zone.

(** [submitCardReview(cardId, quality)], run with the session, the
    answer of the store to the [select('*') ... .single()] query (the
    row, or the error), the answer to the update (an error, if any), the
    clock readings of the three [new Date()] of the call, and the
    profiles and the two clock readings seen by [updateUserStreak]. *)
Definition submitCardReview
    (session : option StudySession.Session)
    (fetched : outcome CurrentReview) (updateError : option string)
    (t_calc t_last t_entry : timestamp)
    (stored_profiles : list Streak.Profile)
    (t_today t_yesterday : timestamp)
    (cardId : uuid) (quality : number) : Settled :=
  let untouched (e : string) :=
    {| thrown := Some e; request := None; stored := false;
       profiles := stored_profiles |} in
  match session with
  | None => untouched "Not authenticated"%string
  | Some s =>
      match fetched with
      | Throw fetchError => untouched fetchError
      | Return currentReview =>
          match SM2.calculateSM2 t_calc
                  {| SM2.quality := quality;
                     SM2.repetitions := repetitions currentReview;
                     SM2.easeFactor := ease_factor currentReview;
                     SM2.interval := interval currentReview |} with
          | Throw e => untouched e
          | Return sm2Result =>
              if valid_date (SM2.r_nextReviewDate sm2Result) then
                let req :=
                  {| payload :=
                       {| u_ease_factor := SM2.r_easeFactor sm2Result;
                          u_interval := SM2.r_interval sm2Result;
                          u_repetitions := SM2.r_repetitions sm2Result;
                          u_next_review_date := SM2.r_nextReviewDate sm2Result;
                          u_last_review_date := t_last;
                          u_quality := quality;
                          u_is_mature := le SM2.lit_21 (SM2.r_interval sm2Result);
                          u_review_history :=
                            review_history currentReview ++
                            [{| date := t_entry;
                                h_quality := quality;
                                h_interval := SM2.r_interval sm2Result |}] |};
                     for_card := cardId;
                     for_user := StudySession.user s |} in
                match updateError with
                | Some e =>
                    {| thrown := Some e; request := Some req; stored := false;
                       profiles := stored_profiles |}
                | None =>
                    {| thrown := None; request := Some req; stored := true;
                       profiles :=
                         Streak.updateUserStreak zone stored_profiles
                           (StudySession.user s) t_today t_yesterday |}
                end
              else untouched invalid_time
          end
      end
  end.

End Host.

End Submission.

(** ** Further built-ins of JavaScript *)

Module Builtins.
Import JS.

Definition div : number -> number -> number := SFdiv prec emax.

Definition pos_infinity : number := S754_infinity false.

(** One step of the loop of [Math.min]. *)
Definition min_step (lowest n : number) : number :=
  if is_neg_zero n && is_pos_zero lowest then n
  else if lt n lowest then n
  else lowest.

(** [Math.min(a, b)] *)
Definition Math_min (a b : number) : number :=
  if is_nan a || is_nan b then NaN
  else min_step (min_step pos_infinity a) b.

(** The mathematical value of an integral number; [None] for the
    others. *)
Definition integer_value (x : number) : option Z :=
  match x with
  | S754_zero _ => Some 0
  | S754_finite s m e =>
      if 0 <=? e then Some (cond_Zopp s (Z.pos m * 2 ^ e))
      else if Z.pos m mod 2 ^ (- e) =? 0
           then Some (cond_Zopp s (Z.pos m / 2 ^ (- e)))
           else None
  | _ => None
  end.

(** [a[i]] for an array [a] and a number [i]: the element when [i] is an
    integer index within the array, [undefined] otherwise. *)
Definition array_get {A : Type} (a : list A) (i : number) : option A :=
  match integer_value i with
  | Some n => if 0 <=? n then nth_error a (Z.to_nat n) else None
  | None => None
  end.

(** The position that [String.prototype.substring] makes of an
    argument: truncated to an integer (NaN counts as 0) and clamped to
    the range from 0 to the length of the string. *)
Definition to_index (x : number) (len : nat) : nat :=
  match x with
  | S754_finite false m e =>
      Z.to_nat
        (Z.min (if 0 <=? e then Z.pos m * 2 ^ e else Z.pos m / 2 ^ (- e))
               (Z.of_nat len))
  | S754_infinity false => len
  | _ => O
  end.

(** [s.substring(start, end)]: the part between the two positions, the
    smaller one first. *)
Definition substring (s : string) (start end_ : number) : string :=
  let a := to_index start (String.length s) in
  let b := to_index end_ (String.length s) in
  String.substring (Nat.min a b) (Nat.max a b - Nat.min a b) s.

(** [s.substring(start)] *)
Definition substring_from (s : string) (start : number) : string :=
  let a := to_index start (String.length s) in
  String.substring a (String.length s - a) s.

(** [s.includes(w)] *)
Fixpoint includes (s w : string) : bool :=
  String.prefix w s ||
  match s with
  | EmptyString => false
  | String _ rest => includes rest w
  end.

(** Whether [f] holds of every integer from 0 up to, excluding, [k]. *)
Fixpoint all_below (k : nat) (f : Z -> bool) : bool :=
  match k with
  | O => true
  | S k' => f (Z.of_nat k') && all_below k' f
  end.

End Builtins.

(** ** The study page: app/study/page.tsx *)

Module StudyPage.
Import JS SM2 Builtins.
Local Open Scope string_scope.

Record MockCard : Type := {
  id : string;
  word : string;
  definition : string;
  phonetic : string;
  partOfSpeech : string;
  example_sentences : list string
}.

Definition mockCards : list MockCard :=
  [ {| id := "1";
       word := "Serendipity";
       definition := "The occurrence and development of events by chance in a happy or beneficial way";
       phonetic := "/Àåser.…ônÀàd…™p.…ô.ti/";
       partOfSpeech := "noun";
       example_sentences :=
         [ "A fortunate stroke of serendipity brought the two friends together.";
           "The discovery was pure serendipity, not the result of a planned search." ] |};
    {| id := "2";
       word := "Ephemeral";
       definition := "Lasting for a very short time";
       phonetic := "/…™Ààfem.…ôr.…ôl/";
       partOfSpeech := "adjective";
       example_sentences :=
         [ "The beauty of cherry blossoms is ephemeral.";
           "Fame can be ephemeral, but true art lasts forever." ] |} ].

Record StudyStats : Type := {
  cardsStudied : number;
  correctAnswers : number;
  startTime : Z
}.

(** The state of the [StudySession] component. *)
Record State : Type := {
  currentCardIndex : number;
  isFlipped : bool;
  studyStats : StudyStats
}.

(** The state at the first render, at clock reading [t0]. *)
Definition initial (t0 : Z) : State :=
  {| currentCardIndex := lit_0;
     isFlipped := false;
     studyStats := {| cardsStudied := lit_0; correctAnswers := lit_0;
                      startTime := t0 |} |}.

(** [mockCards.length] *)
Definition mockCards_length : number := of_Z (Z.of_nat (List.length mockCards)).

(** [mockCards[currentCardIndex]] *)
Definition currentCard (s : State) : option MockCard :=
  array_get mockCards (currentCardIndex s).

(** The values of the state that the handlers made by one render have
    captured. *)
Record Captured : Type := {
  seen_currentCardIndex : number;
  seen_isFlipped : bool
}.

Definition render (s : State) : Captured :=
  {| seen_currentCardIndex := currentCardIndex s;
     seen_isFlipped := isFlipped s |}.

(** The handlers of a render, as they act on the state at the time they
    are called: a condition reads the captured value,
    [setCurrentCardIndex(prev => ...)] and [setStudyStats(prev => ...)]
    update the latest one. *)
Definition moveToNextCard (c : Captured) (s : State) : State :=
  if lt (seen_currentCardIndex c) (sub mockCards_length lit_1)
  then {| currentCardIndex := add (currentCardIndex s) lit_1;
          isFlipped := false;
          studyStats := studyStats s |}
  else s.

Definition moveToPreviousCard (c : Captured) (s : State) : State :=
  if gt (seen_currentCardIndex c) lit_0
  then {| currentCardIndex := sub (currentCardIndex s) lit_1;
          isFlipped := false;
          studyStats := studyStats s |}
  else s.

(** [setIsFlipped(!isFlipped)] *)
Definition handleFlip (c : Captured) (s : State) : State :=
  {| currentCardIndex := currentCardIndex s;
     isFlipped := negb (seen_isFlipped c);
     studyStats := studyStats s |}.

(** The input of the review calculator on this page: every card is
    rated as a new one. *)
Definition demo_input (quality : number) : SM2Input :=
  {| quality := quality; repetitions := lit_0;
     easeFactor := Scenario.lit_2_5; interval := lit_0 |}.

Definition handleRate (now : Z) (quality : number) (c : Captured) (s : State)
  : outcome State :=
  match calculateSM2 now (demo_input quality) with
  | Throw e => Throw e
  | Return sm2Result =>
      let prev := studyStats s in
      Return
        (moveToNextCard c
           {| currentCardIndex := currentCardIndex s;
              isFlipped := isFlipped s;
              studyStats :=
                {| cardsStudied := add (cardsStudied prev) lit_1;
                   correctAnswers :=
                     if le lit_3 quality
                     then add (correctAnswers prev) lit_1
                     else correctAnswers prev;
                   startTime := startTime prev |} |})
  end.

(** A key press: whether its target is an input or a text area, the
    key, and the clock reading. *)
Record KeyPress : Type := {
  on_input : bool;
  key : string;
  at_time : Z
}.

Definition handleKeyPress (e : KeyPress) (c : Captured) (s : State)
  : outcome State :=
  if on_input e then Return s
  else if String.eqb (key e) " " then Return (handleFlip c s)
  else if String.eqb (key e) "1" then handleRate (at_time e) QUALITY_AGAIN c s
  else if String.eqb (key e) "2" then handleRate (at_time e) QUALITY_HARD c s
  else if String.eqb (key e) "3" then handleRate (at_time e) QUALITY_GOOD c s
  else if String.eqb (key e) "4" then handleRate (at_time e) QUALITY_EASY c s
  else if String.eqb (key e) "ArrowLeft" then Return (moveToPreviousCard c s)
  else if String.eqb (key e) "ArrowRight" then Return (moveToNextCard c s)
  else Return s.

(** The page: its state and the handlers that listen for keys.  The
    effect that installs [handleKeyPress] runs after a render, with the
    values of that render. *)
Record Page : Type := {
  state : State;
  listening : Captured
}.

Definition mounted (t0 : Z) : Page :=
  {| state := initial t0; listening := render (initial t0) |}.

(** What happens to the page: it renders, and its effect installs the
    handlers of that render; or a key is pressed. *)
Inductive Event : Type :=
| Rendered
| Pressed (e : KeyPress).

Definition handle (ev : Event) (p : Page) : outcome Page :=
  match ev with
  | Rendered => Return {| state := state p; listening := render (state p) |}
  | Pressed e =>
      match handleKeyPress e (listening p) (state p) with
      | Throw x => Throw x
      | Return s' => Return {| state := s'; listening := listening p |}
      end
  end.

(** The events of a session, one after the other, up to the first
    error. *)
Fixpoint handle_all (evs : list Event) (p : Page) : outcome Page :=
  match evs with
  | [] => Return p
  | ev :: rest =>
      match handle ev p with
      | Throw x => Throw x
      | Return p' => handle_all rest p'
      end
  end.

(** Whether the page has rendered between any two key presses;
    [fresh] tells whether it has since the last one. *)
Fixpoint rendered_between_keys (fresh : bool) (evs : list Event) : bool :=
  match evs with
  | [] => true
  | Rendered :: rest => rendered_between_keys true rest
  | Pressed _ :: rest => fresh && rendered_between_keys false rest
  end.

(** The card index stands at one of the cards. *)
Definition on_a_card (s : State) : Prop :=
  currentCardIndex s = lit_0 \/ currentCardIndex s = lit_1.

(** The right arrow key. *)
Definition arrow_right : KeyPress :=
  {| on_input := false; key := "ArrowRight"; at_time := 0 |}.

End StudyPage.

(** ** Streaks from the study dates: lib/streak.ts, [calculateStreak] *)

Module StreakData.

(** A [Date] by its time value in milliseconds. *)
Definition Date := Z.

Definition ms_per_day : Z := 86400000.

Record StreakData : Type := {
  currentStreak : Z;
  longestStreak : Z;
  lastStudyDate : Date;
  studyDates : list Date
}.

(** [differenceInDays] of date-fns: the number of full days from
    [dateRight] to [dateLeft], towards zero. *)
Definition differenceInDays (dateLeft dateRight : Date) : Z :=
  Z.quot (dateLeft - dateRight) ms_per_day.

(** [.sort((a, b) => b.getTime() - a.getTime())]: latest first. *)
Fixpoint insert_latest_first (d : Date) (l : list Date) : list Date :=
  match l with
  | [] => [d]
  | x :: t => if x <=? d then d :: l else x :: insert_latest_first d t
  end.

Definition sort_latest_first (l : list Date) : list Date :=
  fold_right insert_latest_first [] l.

(** The first loop, from a value of [currentStreak] and [checkDate] over
    the dates still to visit.  The counters stay within the length of
    the array, where the arithmetic of numbers is that of the
    integers. *)
Fixpoint current_loop (currentStreak : Z) (checkDate : Date)
    (sorted : list Date) : Z :=
  match sorted with
  | [] => currentStreak
  | date :: rest =>
      let diff := differenceInDays checkDate date in
      if (diff =? 0) || (diff =? 1)
      then current_loop (currentStreak + 1) date rest
      else currentStreak
  end.

(** The second loop, from values of [longestStreak] and [tempStreak]
    over the elements from [sorted[i]] on; it gives their final
    values. *)
Fixpoint longest_loop (longestStreak tempStreak : Z) (sorted : list Date)
  : Z * Z :=
  match sorted with
  | a :: (b :: _) as rest =>
      let diff := differenceInDays a b in
      if diff =? 1
      then longest_loop (Z.max longestStreak (tempStreak + 1))
             (tempStreak + 1) rest
      else longest_loop longestStreak 1 rest
  | _ => (longestStreak, tempStreak)
  end.

Section Zone.

(** Local time is ahead of UTC by [offset] milliseconds, all year. *)
Variable offset : Z.

(** The number of the local calendar day of an instant, and the instant
    at which a day starts. *)
Definition day_of (d : Date) : Z := (d + offset) / ms_per_day.

Definition from_day (k : Z) : Date := ms_per_day * k - offset.

(** [startOfDay] of date-fns *)
Definition startOfDay (d : Date) : Date := from_day (day_of d).

(** [calculateStreak(studyDates)] at clock reading [now]. *)
Definition calculateStreak (now : Date) (studyDates : list Date) : StreakData :=
  match studyDates with
  | [] =>
      {| currentStreak := 0; longestStreak := 0;
         lastStudyDate := now; studyDates := [] |}
  | _ =>
      let sorted := sort_latest_first (map startOfDay studyDates) in
      let today := startOfDay now in
      let lastStudy := hd today sorted in
      let currentStreak := current_loop 0 today sorted in
      let '(longestStreak, tempStreak) := longest_loop 0 1 sorted in
      let longestStreak := Z.max longestStreak tempStreak in
      {| currentStreak := currentStreak;
         longestStreak := longestStreak;
         lastStudyDate := lastStudy;
         studyDates := sorted |}
  end.

(** The days on which a learner studied, and a run of [k] days from day
    [a] on all of which are among [days]. *)
Definition days_studied (studyDates : list Date) : list Z :=
  map day_of studyDates.

End Zone.

Definition run_of_days (days : list Z) (a k : Z) : Prop :=
  forall j, 0 <= j < k -> In (a + j) days.

End StreakData.

(** The profile of a learner after [updateUserStreak] ran once for
    each pair of clock readings, one call after the other. *)
Definition study_at (zone : Streak.Zone) (profile : Streak.Profile)
    (calls : list (Streak.instant * Streak.instant)) : Streak.Profile :=
  fold_left (fun p call => Streak.study zone p (fst call) (snd call))
    calls profile.

(** ** Vocabulary levels: lib/vocabulary-estimation.ts *)

Module Vocabulary.
Import JS Builtins.

(** The keys of [CEFR_THRESHOLDS]. *)
Inductive Level : Type := A1 | A2 | B1 | B2 | C1 | C2.

Record Threshold : Type := { minWords : number; maxFrequency : number }.

Definition lit_100 : number := S754_finite false 7036874417766400 (-46).
Definition lit_500 : number := S754_finite false 8796093022208000 (-44).
Definition lit_1000 : number := S754_finite false 8796093022208000 (-43).
Definition lit_2000 : number := S754_finite false 8796093022208000 (-42).
Definition lit_3000 : number := S754_finite false 6597069766656000 (-41).
Definition lit_4000 : number := S754_finite false 8796093022208000 (-41).
Definition lit_5000 : number := S754_finite false 5497558138880000 (-40).
Definition lit_8000 : number := S754_finite false 8796093022208000 (-40).

Definition CEFR_THRESHOLDS (level : Level) : Threshold :=
  match level with
  | A1 => {| minWords := lit_0; maxFrequency := lit_1000 |}
  | A2 => {| minWords := lit_500; maxFrequency := lit_2000 |}
  | B1 => {| minWords := lit_1000; maxFrequency := lit_3000 |}
  | B2 => {| minWords := lit_2000; maxFrequency := lit_5000 |}
  | C1 => {| minWords := lit_4000; maxFrequency := lit_8000 |}
  | C2 => {| minWords := lit_8000; maxFrequency := pos_infinity |}
  end.

Definition estimateVocabularyLevel (matureCardCount : number) : Level :=
  if lt matureCardCount lit_500 then A1
  else if lt matureCardCount lit_1000 then A2
  else if lt matureCardCount lit_2000 then B1
  else if lt matureCardCount lit_4000 then B2
  else if lt matureCardCount lit_8000 then C1
  else C2.

(** [Object.keys(CEFR_THRESHOLDS)] *)
Definition levels : list Level := [A1; A2; B1; B2; C1; C2].

Definition Level_eqb (a b : Level) : bool :=
  match a, b with
  | A1, A1 | A2, A2 | B1, B1 | B2, B2 | C1, C1 | C2, C2 => true
  | _, _ => false
  end.

(** [levels.indexOf(level)] *)
Fixpoint indexOf (l : list Level) (level : Level) : nat :=
  match l with
  | [] => O
  | x :: t => if Level_eqb x level then O else S (indexOf t level)
  end.

Record LevelProgress : Type := {
  currentLevel : Level;
  nextLevel : Level;
  progress : number
}.

Definition getNextLevelProgress (matureCardCount : number) : LevelProgress :=
  let currentLevel := estimateVocabularyLevel matureCardCount in
  let currentIndex := indexOf levels currentLevel in
  let nextLevel := nth (currentIndex + 1) levels C2 in
  let currentThreshold := minWords (CEFR_THRESHOLDS currentLevel) in
  let nextThreshold := minWords (CEFR_THRESHOLDS nextLevel) in
  let progress :=
    mul (div (sub matureCardCount currentThreshold)
             (sub nextThreshold currentThreshold))
        lit_100 in
  {| currentLevel := currentLevel;
     nextLevel := nextLevel;
     progress := Math_min lit_100 (Math_max lit_0 progress) |}.

(** Checks of one count against the table of thresholds and of its
    progress, for the counts that are checked one by one. *)
Definition level_agrees (k : Z) : bool :=
  forallb
    (fun level =>
       Bool.eqb (le (minWords (CEFR_THRESHOLDS level)) (of_Z k))
                (indexOf levels level <=?
                 indexOf levels (estimateVocabularyLevel (of_Z k)))%nat)
    levels.

Definition progress_agrees (k : Z) : bool :=
  let r := getNextLevelProgress (of_Z k) in
  if k <? 8000 then
    le lit_0 (progress r) && lt (progress r) lit_100 &&
    (indexOf levels (nextLevel r) =? S (indexOf levels (currentLevel r)))%nat
  else if k =? 8000 then is_nan (progress r)
  else strict_eq (progress r) lit_100.

End Vocabulary.

(** ** Cloze deletions: [createCustomCloze] *)

Module Cloze.
Import JS Builtins.
Local Open Scope string_scope.

Record Deletion : Type := {
  text : string;
  position : number
}.

Record ClozeCard : Type := {
  sentence : string;
  clozeDeletions : list Deletion;
  fullSentence : string
}.

Definition gap : string := "[...]".

Definition createCustomCloze (sentence : string) (startPos endPos : number)
  : ClozeCard :=
  let deletedText := substring sentence startPos endPos in
  let clozeSentence :=
    substring sentence lit_0 startPos ++ gap ++ substring_from sentence endPos in
  {| sentence := clozeSentence;
     clozeDeletions := [{| text := deletedText; position := startPos |}];
     fullSentence := sentence |}.

(** The sentence of a card with its first gap, at the recorded position,
    replaced by the deleted text. *)
Definition filled (c : ClozeCard) : option string :=
  match clozeDeletions c with
  | d :: _ =>
      let at_ := to_index (position d) (String.length (fullSentence c)) in
      Some (String.substring 0 at_ (sentence c) ++ text d ++
            String.substring (at_ + String.length gap)
              (String.length (sentence c) - (at_ + String.length gap))
              (sentence c))
  | [] => None
  end.

End Cloze.

(** ** Example sentences: lib/api/dictionary.ts, [fetchExampleSentences] *)

Module Dictionary.
Import JS Builtins.
Local Open Scope string_scope.

Record DatamuseWord : Type := {
  word : string;
  score : number;
  tags : option (list string)
}.

(** What [fetch] and [response.json()] come to: a rejection, or a
    response with its [ok] flag and its body when that is the JSON of an
    array of words. *)
Inductive Response : Type :=
| Rejected
| Answered (ok : bool) (body : option (list DatamuseWord)).

(** The definitions among the tags of an item that mention the word. *)
Definition definitions_with (w : string) (item : DatamuseWord) : list string :=
  match tags item with
  | Some ts =>
      flat_map
        (fun tag =>
           if String.prefix "def:" tag
           then
             let definition :=
               String.substring 4 (String.length tag - 4) tag in
             if includes definition w then [definition] else []
           else [])
        ts
  | None => []
  end.

Definition fetchExampleSentences (w : string) (response : Response) : list string :=
  match response with
  | Rejected => []
  | Answered false _ => []
  | Answered true None => []
  | Answered true (Some data) =>
      firstn 3 (flat_map (definitions_with w) data)
  end.

End Dictionary.

(** ** Reviews made offline: lib/offline-queue.ts *)

Module OfflineQueue.
Import JS.
Local Open Scope string_scope.

(** A value of the object store 'pending-reviews'. *)
Record PendingReview : Type := {
  cardId : string;
  quality : number;
  timestamp : Z
}.

(** [`${cardId}-${t}`] for a reading [t] of [Date.now()] *)
Definition key_of (cardId : string) (t : Z) : string :=
  cardId ++ "-" ++ DecimalString.NilZero.string_of_int (Z.to_int t).

(** The object store: its entries, in the order of their keys. *)
Definition Store : Type := list (string * PendingReview).

(** [db.delete('pending-reviews', key)] *)
Definition delete (key : string) (db : Store) : Store :=
  filter (fun entry => negb (String.eqb (fst entry) key)) db.

Fixpoint insert (entry : string * PendingReview) (db : Store) : Store :=
  match db with
  | [] => [entry]
  | x :: rest =>
      match String.compare (fst entry) (fst x) with
      | Gt => x :: insert entry rest
      | _ => entry :: db
      end
  end.

(** [db.put('pending-reviews', value, key)]: the value takes the place
    of the one stored under the key, if any. *)
Definition put (value : PendingReview) (key : string) (db : Store) : Store :=
  insert (key, value) (delete key db).

(** [db.getAll('pending-reviews')] *)
Definition getAll (db : Store) : list PendingReview := map snd db.

(** [queueReview(cardId, quality)], with the readings of its two
    [Date.now()]: the one of the value, then the one of the key. *)
Definition queueReview (cardId : string) (quality : number)
    (t_value t_key : Z) (db : Store) : Store :=
  put {| cardId := cardId; quality := quality; timestamp := t_value |}
      (key_of cardId t_key) db.

Section Sync.

(** What [submitCardReview] works on, and the function as it shows
    here: what it leaves behind, and whether it resolved. *)
Variable Backend : Type.
Variable submitCardReview : string -> number -> Backend -> Backend * bool.

(** The loop of [syncPendingReviews] over the reviews still to visit. *)
Fixpoint sync_loop (reviews : list PendingReview) (b : Backend) (db : Store)
  : Backend * Store :=
  match reviews with
  | [] => (b, db)
  | review :: rest =>
      match submitCardReview (cardId review) (quality review) b with
      | (b', true) =>
          sync_loop rest b'
            (delete (key_of (cardId review) (timestamp review)) db)
      | (b', false) => sync_loop rest b' db
      end
  end.

Definition syncPendingReviews (b : Backend) (db : Store) : Backend * Store :=
  sync_loop (getAll db) b db.

End Sync.

(** Every review is stored under the key made of its own [cardId] and
    [timestamp]. *)
Definition own_keys (db : Store) : Prop :=
  forall key review,
    In (key, review) db -> key = key_of (cardId review) (timestamp review).

(** An entry that no deletion of [syncPendingReviews] addresses. *)
Definition stuck (db : Store) (entry : string * PendingReview) : Prop :=
  In entry db /\
  forall key review,
    In (key, review) db ->
    key_of (cardId review) (timestamp review) <> fst entry.

End OfflineQueue.

(** ** Further concrete inputs *)

Module Examples.

Local Open Scope string_scope.
Local Open Scope Z_scope.

Definition lit_4 : JS.number := S754_finite false 4503599627370496 (-50).

(** Rating 4 after two successful reviews. *)
Definition rated_4_after_two : SM2.SM2Input :=
  {| SM2.quality := lit_4; SM2.repetitions := JS.lit_2;
     SM2.easeFactor := Scenario.lit_2_5; SM2.interval := JS.lit_6 |}.

(** The stored review of a card after two successful reviews. *)
Definition stored_review : Submission.CurrentReview :=
  {| Submission.repetitions := JS.lit_2;
     Submission.ease_factor := Scenario.lit_2_5;
     Submission.interval := JS.lit_6;
     Submission.review_history := [] |}.

(** A host on which the dates of this example are valid. *)
Definition every_date_valid (d : SM2.Date) : bool := true.

(** A rendering of numbers that tells them apart by their sign only. *)
Definition signed (x : JS.number) : string :=
  if JS.lt x JS.lit_0 then "-n" else "n".

(** Local time eight hours ahead of UTC. *)
Definition eight_hours : Z := 28800000.

(** Noon of local day 10, and study sessions on the days 10, 9 and 7. *)
Definition noon_of_day_10 : StreakData.Date := 878400000.

Definition three_days : list StreakData.Date :=
  [ 840000000; 750000000; 580000000 ].

(** Two study sessions on day 10. *)
Definition twice_today : list StreakData.Date := [ 840000000; 850000000 ].

(** A host eight hours ahead of UTC all the time. *)
Definition east_8 : Streak.Zone :=
  {| Streak.offset_at := fun _ => eight_hours;
     Streak.offset_of_local := fun _ => eight_hours |}.

(** Calls of [updateUserStreak] at noon UTC of the days 7, 9 and 10,
    each with its two clock readings a millisecond apart. *)
Definition three_noons : list (Streak.instant * Streak.instant) :=
  [ (648000000, 648000001); (820800000, 820800001);
    (907200000, 907200001) ].

(** Calls at 20:00 UTC of day 9, which is day 10 eight hours ahead of
    UTC, and at 02:00 UTC of day 11. *)
Definition across_midnight : list (Streak.instant * Streak.instant) :=
  [ (849600000, 849600000); (957600000, 957600000) ].

(** A learner who has not studied yet. *)
Definition new_learner : Streak.Profile :=
  {| Streak.id := "u"; Streak.streak_count := 0;
     Streak.last_study_date := None;
     Streak.total_cards_studied := Some 0 |}.

End Examples.

(** * Facts about binary64 numbers *)

Section NumberFacts.
Import JS.

(** ** Number of binary digits *)

Lemma digits2_pos_bounds (m : positive) :
  2 ^ (Z.pos (digits2_pos m) - 1) <= Z.pos m < 2 ^ Z.pos (digits2_pos m).
Proof.
  induction m as [p IH | p IH | ]; simpl digits2_pos.
  - rewrite Pos2Z.inj_succ. change (Z.pos p~1) with (2 * Z.pos p + 1).
    replace (Z.succ (Z.pos (digits2_pos p)) - 1)
      with (Z.succ (Z.pos (digits2_pos p) - 1)) by lia.
    rewrite !Z.pow_succ_r by lia.
    generalize dependent (2 ^ (Z.pos (digits2_pos p) - 1)).
    generalize (2 ^ Z.pos (digits2_pos p)). intros; lia.
  - rewrite Pos2Z.inj_succ. change (Z.pos p~0) with (2 * Z.pos p).
    replace (Z.succ (Z.pos (digits2_pos p)) - 1)
      with (Z.succ (Z.pos (digits2_pos p) - 1)) by lia.
    rewrite !Z.pow_succ_r by lia.
    generalize dependent (2 ^ (Z.pos (digits2_pos p) - 1)).
    generalize (2 ^ Z.pos (digits2_pos p)). intros; lia.
  - simpl. lia.
Qed.

Lemma Zdigits2_nonneg (n : Z) : 0 <= Zdigits2 n.
Proof. destruct n; simpl; lia. Qed.

Lemma Zdigits2_bounds (n : Z) :
  0 < n -> 2 ^ (Zdigits2 n - 1) <= n < 2 ^ Zdigits2 n.
Proof.
  destruct n as [ | p | p]; try lia. intros _. apply digits2_pos_bounds.
Qed.

Lemma Zdigits2_le_of_lt_pow (n k : Z) :
  0 <= n -> 0 <= k -> n < 2 ^ k -> Zdigits2 n <= k.
Proof.
  intros Hn Hk Hlt.
  destruct (Z.eq_dec n 0) as [-> | Hnz]; [simpl; lia | ].
  destruct (Z_le_gt_dec (Zdigits2 n) k) as [ | Hgt]; [assumption | exfalso].
  assert (Hb := Zdigits2_bounds n ltac:(lia)).
  assert (2 ^ k <= 2 ^ (Zdigits2 n - 1)) by (apply Z.pow_le_mono_r; lia).
  lia.
Qed.

Lemma Zdigits2_gt_of_pow_le (n k : Z) :
  0 <= k -> 2 ^ k <= n -> k < Zdigits2 n.
Proof.
  intros Hk Hle.
  assert (0 < 2 ^ k) by (apply Z.pow_pos_nonneg; lia).
  destruct (Z_lt_le_dec k (Zdigits2 n)) as [ | Hge]; [assumption | exfalso].
  assert (Hb := Zdigits2_bounds n ltac:(lia)).
  assert (2 ^ Zdigits2 n <= 2 ^ k).
  { apply Z.pow_le_mono_r; [lia | assumption]. }
  lia.
Qed.

Lemma Zdigits2_mono (a b : Z) : 0 <= a <= b -> Zdigits2 a <= Zdigits2 b.
Proof.
  intros [Ha Hab].
  destruct (Z.eq_dec b 0) as [-> | Hb].
  - replace a with 0 by lia. lia.
  - apply Zdigits2_le_of_lt_pow; [lia | apply Zdigits2_nonneg | ].
    pose proof (Zdigits2_bounds b ltac:(lia)). lia.
Qed.

Lemma Zdigits2_succ (a : Z) : 0 <= a -> Zdigits2 (a + 1) <= Zdigits2 a + 1.
Proof.
  intros Ha. destruct (Z.eq_dec a 0) as [-> | Hnz]; [simpl; lia | ].
  apply Zdigits2_le_of_lt_pow; [lia | pose proof (Zdigits2_nonneg a); lia | ].
  pose proof (Zdigits2_bounds a ltac:(lia)) as [_ Hub].
  rewrite Z.pow_add_r by (try apply Zdigits2_nonneg; lia).
  change (2 ^ 1) with 2. lia.
Qed.

Lemma Zdigits2_div_pow (m k : Z) :
  0 <= m -> 0 <= k -> Zdigits2 (m / 2 ^ k) = Z.max 0 (Zdigits2 m - k).
Proof.
  intros Hm Hk.
  assert (Hp : 0 < 2 ^ k) by (apply Z.pow_pos_nonneg; lia).
  destruct (Z.eq_dec m 0) as [-> | Hnz].
  { rewrite Z.div_0_l by lia. simpl. lia. }
  pose proof (Zdigits2_bounds m ltac:(lia)) as [Hlo Hhi].
  pose proof (Zdigits2_nonneg m) as Hd.
  destruct (Z_le_gt_dec (Zdigits2 m) k) as [Hsmall | Hbig].
  - assert (2 ^ Zdigits2 m <= 2 ^ k) by (apply Z.pow_le_mono_r; lia).
    rewrite Z.div_small by lia. simpl. lia.
  - rewrite Z.max_r by lia.
    assert (Hq : 2 ^ (Zdigits2 m - k - 1) <= m / 2 ^ k < 2 ^ (Zdigits2 m - k)).
    { split.
      - apply Z.div_le_lower_bound; [lia | ].
        rewrite <- Z.pow_add_r by lia.
        replace (k + (Zdigits2 m - k - 1)) with (Zdigits2 m - 1) by lia. lia.
      - apply Z.div_lt_upper_bound; [lia | ].
        rewrite <- Z.pow_add_r by lia.
        replace (k + (Zdigits2 m - k)) with (Zdigits2 m) by lia. lia. }
    apply Z.le_antisymm.
    + apply Zdigits2_le_of_lt_pow; try lia.
    + pose proof (Zdigits2_gt_of_pow_le (m / 2 ^ k) (Zdigits2 m - k - 1)
                    ltac:(lia) ltac:(lia)). lia.
Qed.

Lemma Zdigits2_mul_pow (m k : Z) :
  0 < m -> 0 <= k -> Zdigits2 (m * 2 ^ k) = Zdigits2 m + k.
Proof.
  intros Hm Hk.
  assert (Hp : 0 < 2 ^ k) by (apply Z.pow_pos_nonneg; lia).
  pose proof (Zdigits2_bounds m Hm) as [Hlo Hhi].
  pose proof (Zdigits2_nonneg m) as Hd.
  assert (1 <= Zdigits2 m).
  { pose proof (Zdigits2_gt_of_pow_le m 0 ltac:(lia) ltac:(simpl; lia)). lia. }
  apply Z.le_antisymm.
  - apply Zdigits2_le_of_lt_pow; try lia.
    rewrite Z.pow_add_r by lia. nia.
  - pose proof (Zdigits2_gt_of_pow_le (m * 2 ^ k) (Zdigits2 m - 1 + k)
                  ltac:(lia)) as H1.
    rewrite Z.pow_add_r in H1 by lia.
    assert (2 ^ (Zdigits2 m - 1) * 2 ^ k <= m * 2 ^ k) by nia.
    lia.
Qed.

Lemma Zdigits2_mul (a b : Z) :
  0 < a -> 0 < b ->
  Zdigits2 a + Zdigits2 b - 1 <= Zdigits2 (a * b) <= Zdigits2 a + Zdigits2 b.
Proof.
  intros Ha Hb.
  pose proof (Zdigits2_bounds a Ha) as [Hla Hha].
  pose proof (Zdigits2_bounds b Hb) as [Hlb Hhb].
  assert (1 <= Zdigits2 a).
  { pose proof (Zdigits2_gt_of_pow_le a 0 ltac:(lia) ltac:(simpl; lia)). lia. }
  assert (1 <= Zdigits2 b).
  { pose proof (Zdigits2_gt_of_pow_le b 0 ltac:(lia) ltac:(simpl; lia)). lia. }
  assert (0 < 2 ^ (Zdigits2 a - 1)) by (apply Z.pow_pos_nonneg; lia).
  assert (0 < 2 ^ (Zdigits2 b - 1)) by (apply Z.pow_pos_nonneg; lia).
  split.
  - pose proof (Zdigits2_gt_of_pow_le (a * b) (Zdigits2 a - 1 + (Zdigits2 b - 1))
                  ltac:(lia)) as H3.
    rewrite Z.pow_add_r in H3 by lia.
    assert (2 ^ (Zdigits2 a - 1) * 2 ^ (Zdigits2 b - 1) <= a * b) by nia.
    lia.
  - apply Zdigits2_le_of_lt_pow; try lia.
    rewrite Z.pow_add_r by lia. nia.
Qed.

Lemma pos_iter_xO (m d : positive) :
  Z.pos (Pos.iter xO m d) = Z.pos m * 2 ^ Z.pos d.
Proof.
  revert m. induction d as [ | d IH] using Pos.peano_ind; intros m.
  - simpl. lia.
  - rewrite Pos.iter_succ.
    change (Z.pos (Pos.iter xO m d)~0) with (2 * Z.pos (Pos.iter xO m d)).
    rewrite IH, Pos2Z.inj_succ, Z.pow_succ_r by lia. lia.
Qed.


(** ** Right shifts of the rounding procedure *)

Lemma shr_1_m (r : shr_record) :
  0 <= shr_m r -> shr_m (shr_1 r) = shr_m r / 2.
Proof.
  destruct r as [m b1 b2]. simpl. intros Hm.
  destruct m as [ | [p | p | ] | p]; cbn [shr_1 shr_m]; try lia.
  - reflexivity.
  - change (Z.pos p~1) with (2 * Z.pos p + 1).
    apply Z.div_unique with (r := 1); lia.
  - change (Z.pos p~0) with (2 * Z.pos p).
    apply Z.div_unique with (r := 0); lia.
  - reflexivity.
Qed.

Lemma iter_pos_shr_1 (p : positive) (r : shr_record) :
  0 <= shr_m r -> shr_m (iter_pos shr_1 p r) = shr_m r / 2 ^ Z.pos p.
Proof.
  revert r. induction p as [p IH | p IH | ]; intros r Hr; simpl iter_pos.
  - assert (Hp : 0 < 2 ^ Z.pos p) by (apply Z.pow_pos_nonneg; lia).
    assert (H1 : 0 <= shr_m (shr_1 r)).
    { rewrite shr_1_m by assumption. apply Z.div_pos; lia. }
    assert (H2 : 0 <= shr_m (iter_pos shr_1 p (shr_1 r))).
    { rewrite IH by assumption. apply Z.div_pos; lia. }
    rewrite IH, IH, shr_1_m by assumption.
    rewrite !Z.div_div by lia.
    f_equal. replace (Z.pos p~1) with (1 + (Z.pos p + Z.pos p)) by lia.
    rewrite !Z.pow_add_r by lia. change (2 ^ 1) with 2. lia.
  - assert (Hp : 0 < 2 ^ Z.pos p) by (apply Z.pow_pos_nonneg; lia).
    assert (H2 : 0 <= shr_m (iter_pos shr_1 p r)).
    { rewrite IH by assumption. apply Z.div_pos; lia. }
    rewrite IH, IH by assumption.
    rewrite !Z.div_div by lia.
    f_equal. replace (Z.pos p~0) with (Z.pos p + Z.pos p) by lia.
    rewrite !Z.pow_add_r by lia. reflexivity.
  - rewrite shr_1_m by assumption. reflexivity.
Qed.

Lemma shr_m_of_loc (m : Z) (l : location) :
  shr_m (shr_record_of_loc m l) = m.
Proof. destruct l as [ | [ | | ]]; reflexivity. Qed.

(** [shr_fexp] divides the mantissa by the power of two that brings the
    exponent up to the exponent of the format. *)
Lemma shr_fexp_stage (m e : Z) (l : location) :
  0 <= m ->
  exists r,
    shr_fexp prec emax m e l =
      (r, Z.max e (fexp prec emax (Zdigits2 m + e))) /\
    shr_m r = m / 2 ^ (Z.max e (fexp prec emax (Zdigits2 m + e)) - e).
Proof.
  intros Hm. unfold shr_fexp, shr.
  set (f := fexp prec emax (Zdigits2 m + e)).
  destruct (f - e) as [ | p | p] eqn:Hn.
  - exists (shr_record_of_loc m l). split.
    + f_equal. lia.
    + rewrite shr_m_of_loc. replace (Z.max e f - e) with 0 by lia.
      simpl. rewrite Z.div_1_r. reflexivity.
  - exists (iter_pos shr_1 p (shr_record_of_loc m l)). split.
    + f_equal. lia.
    + rewrite iter_pos_shr_1 by (rewrite shr_m_of_loc; assumption).
      rewrite shr_m_of_loc. f_equal. f_equal. lia.
  - exists (shr_record_of_loc m l). split.
    + f_equal. lia.
    + rewrite shr_m_of_loc. replace (Z.max e f - e) with 0 by lia.
      simpl. rewrite Z.div_1_r. reflexivity.
Qed.

Lemma round_nearest_even_bounds (m : Z) (l : location) :
  m <= round_nearest_even m l <= m + 1.
Proof.
  destruct l as [ | [ | | ]]; simpl; try lia.
  destruct (Z.even m); lia.
Qed.

Lemma fexp_eq (x : Z) : fexp prec emax x = Z.max (x - 53) (-1074).
Proof. reflexivity. Qed.

(** ** What [binary_round_aux] returns *)

Lemma binary_round_aux_spec (s : bool) (m : positive) (e : Z) (l : location) :
  match binary_round_aux prec emax s (Z.pos m) e l with
  | S754_zero s' => s' = s /\ magnitude m e <= -1074
  | S754_infinity s' => s' = s /\ (971 < e \/ 1024 <= magnitude m e)
  | S754_nan => False
  | S754_finite s' m2 e2 =>
      s' = s /\ Z.pos (digits2_pos m2) <= 53 /\
      magnitude m e <= magnitude m2 e2 <= Z.max (magnitude m e) (-1074) + 1 /\
      e2 <= 971 /\
      (e <= fexp prec emax (magnitude m e) ->
       fexp prec emax (magnitude m2 e2) = e2)
  end.
Proof.
  unfold binary_round_aux, magnitude.
  destruct (shr_fexp_stage (Z.pos m) e l ltac:(lia)) as [r1 [E1 M1]].
  rewrite E1.
  set (e1 := Z.max e (fexp prec emax (Zdigits2 (Z.pos m) + e))) in *.
  set (mr := round_nearest_even (shr_m r1) (loc_of_shr_record r1)).
  assert (P1 : 0 < 2 ^ (e1 - e)) by (apply Z.pow_pos_nonneg; unfold e1; lia).
  assert (Hm1 : 0 <= shr_m r1) by (rewrite M1; apply Z.div_pos; lia).
  assert (D1 : Zdigits2 (shr_m r1) = Z.max 0 (Zdigits2 (Z.pos m) - (e1 - e))).
  { rewrite M1. apply Zdigits2_div_pow; unfold e1; lia. }
  pose proof (round_nearest_even_bounds (shr_m r1) (loc_of_shr_record r1)) as Hr.
  fold mr in Hr.
  assert (Dr1 : Zdigits2 (shr_m r1) <= Zdigits2 mr) by (apply Zdigits2_mono; lia).
  assert (Dr2 : Zdigits2 mr <= Zdigits2 (shr_m r1) + 1).
  { transitivity (Zdigits2 (shr_m r1 + 1)).
    - apply Zdigits2_mono; lia.
    - apply Zdigits2_succ; lia. }
  destruct (shr_fexp_stage mr e1 loc_Exact ltac:(lia)) as [r2 [E2 M2]].
  rewrite E2.
  set (e2 := Z.max e1 (fexp prec emax (Zdigits2 mr + e1))) in *.
  assert (P2 : 0 < 2 ^ (e2 - e1)) by (apply Z.pow_pos_nonneg; unfold e2; lia).
  assert (Hm2 : 0 <= shr_m r2) by (rewrite M2; apply Z.div_pos; lia).
  assert (D2 : Zdigits2 (shr_m r2) = Z.max 0 (Zdigits2 mr - (e2 - e1))).
  { rewrite M2. apply Zdigits2_div_pow; unfold e2; lia. }
  change (Zdigits2 (Z.pos m)) with (Z.pos (digits2_pos m)) in *.
  assert (Hdm : 1 <= Z.pos (digits2_pos m)) by lia.
  destruct (shr_m r2) as [ | m2 | m2] eqn:Em2; [ | | lia].
  - (* the mantissa vanished *)
    split; [reflexivity | ].
    simpl Zdigits2 in D2.
    destruct (Z.eq_dec mr 0) as [Hz | Hnz].
    + assert (Hz1 : shr_m r1 = 0) by lia. rewrite Hz1 in D1. change (Zdigits2 0) with 0 in D1.
      unfold e1 in D1. rewrite fexp_eq in D1. lia.
    + assert (1 <= Zdigits2 mr).
      { pose proof (Zdigits2_gt_of_pow_le mr 0 ltac:(lia) ltac:(simpl; lia)). lia. }
      unfold e2, e1 in *. rewrite !fexp_eq in *. lia.
  - simpl Zdigits2 in D2.
    assert (Hd2 : 1 <= Z.pos (digits2_pos m2)) by lia.
    destruct (e2 <=? emax - prec) eqn:Hb.
    + apply Z.leb_le in Hb. unfold emax, prec in Hb.
      split; [reflexivity | ].
      unfold e2, e1 in *. rewrite !fexp_eq in *.
      repeat split; try lia.
    + apply Z.leb_gt in Hb. unfold emax, prec in Hb.
      split; [reflexivity | ].
      unfold e2, e1 in *. rewrite !fexp_eq in *. lia.
Qed.


(** ** Comparison *)

Lemma SFcompare_antisym (x y : number) :
  SFcompare y x = option_map CompOpp (SFcompare x y).
Proof.
  destruct x as [sx | sx | | sx mx ex], y as [sy | sy | | sy my ey];
    try reflexivity;
    try (destruct sx; reflexivity);
    try (destruct sy; reflexivity);
    try (destruct sx, sy; reflexivity).
  simpl. destruct sx, sy; try reflexivity; simpl; f_equal;
    rewrite (Z.compare_antisym ex ey);
    destruct (ex ?= ey); simpl; try reflexivity.
  - rewrite (ZC4 my mx). reflexivity.
  - rewrite (ZC4 my mx). reflexivity.
Qed.

Lemma le_not_gt (x y : number) : le x y = true -> gt x y = false.
Proof.
  unfold le, gt, SFleb, SFltb. rewrite (SFcompare_antisym x y).
  destruct (SFcompare x y) as [[ | | ] | ]; simpl; congruence.
Qed.

Lemma not_lt_le (x y : number) :
  is_nan x = false -> is_nan y = false -> lt x y = false -> le y x = true.
Proof.
  unfold le, lt, SFleb, SFltb. rewrite (SFcompare_antisym x y).
  intros Hx Hy.
  assert (SFcompare x y <> None).
  { destruct x as [sx | sx | | sx mx ex], y as [sy | sy | | sy my ey];
      simpl in *; try discriminate; destruct sx; try discriminate;
      destruct sy; discriminate. }
  destruct (SFcompare x y) as [[ | | ] | ]; simpl; congruence.
Qed.

Lemma le_not_nan (x y : number) :
  le x y = true -> is_nan x = false /\ is_nan y = false.
Proof.
  unfold le, SFleb.
  destruct x as [sx | sx | | sx mx ex], y as [sy | sy | | sy my ey];
    simpl; intros H; try discriminate; split; reflexivity.
Qed.

Lemma lt_le (x y : number) : lt x y = true -> le x y = true.
Proof.
  unfold lt, le, SFltb, SFleb.
  destruct (SFcompare x y) as [[ | | ] | ]; congruence.
Qed.

(** ** [Math.max] *)

Lemma Math_max_nan_r (a x : number) :
  is_nan a = false -> is_nan x = true -> Math_max a x = NaN.
Proof.
  intros Ha Hx. unfold Math_max. rewrite Ha, Hx. reflexivity.
Qed.

Lemma Math_max_1_3 (x : number) :
  is_nan x = false ->
  Math_max lit_1_3 x = if gt x lit_1_3 then x else lit_1_3.
Proof.
  intros Hx. unfold Math_max. rewrite Hx. simpl.
  unfold max_step at 2. simpl.
  unfold max_step. simpl. rewrite andb_false_r. reflexivity.
Qed.

Lemma Math_max_1_3_cases (x : number) :
  Math_max lit_1_3 x = NaN /\ is_nan x = true \/
  is_nan x = false /\
  (Math_max lit_1_3 x = x /\ lt lit_1_3 x = true \/
   Math_max lit_1_3 x = lit_1_3 /\ lt lit_1_3 x = false).
Proof.
  destruct (is_nan x) eqn:Hx.
  - left. split; [apply Math_max_nan_r; auto | reflexivity].
  - right. split; [reflexivity | ].
    rewrite Math_max_1_3 by assumption. unfold gt, lt.
    destruct (SFltb lit_1_3 x); auto.
Qed.

Lemma Math_max_1_3_not_below (x : number) :
  lt (Math_max lit_1_3 x) lit_1_3 = false.
Proof.
  destruct (Math_max_1_3_cases x) as [[-> _] | [_ [[-> H] | [-> _]]]].
  - reflexivity.
  - apply lt_le in H. apply le_not_gt in H. exact H.
  - reflexivity.
Qed.

Lemma Math_max_1_3_le (x : number) :
  is_nan x = false -> le lit_1_3 (Math_max lit_1_3 x) = true.
Proof.
  intros Hx.
  destruct (Math_max_1_3_cases x) as [[_ H] | [_ [[-> H] | [-> _]]]].
  - congruence.
  - apply lt_le. exact H.
  - reflexivity.
Qed.


(** ** Rounding after alignment *)

Lemma shl_align_spec (m : positive) (e e' : Z) :
  let '(mz, ez) := shl_align m e e' in
  ez = Z.min e e' /\ Z.pos mz = Z.pos m * 2 ^ (e - ez) /\
  magnitude mz ez = magnitude m e.
Proof.
  unfold shl_align, magnitude.
  destruct (e' - e) as [ | d | d] eqn:Hd.
  - rewrite Z.sub_diag. change (2 ^ 0) with 1. repeat split; lia.
  - rewrite Z.sub_diag. change (2 ^ 0) with 1. repeat split; lia.
  - assert (He : e - e' = Z.pos d) by lia.
    rewrite He.
    pose proof (pos_iter_xO m d) as Hi.
    repeat split; [lia | assumption | ].
    pose proof (Zdigits2_mul_pow (Z.pos m) (Z.pos d) ltac:(lia) ltac:(lia)) as Hm.
    rewrite <- Hi in Hm. simpl Zdigits2 in Hm. lia.
Qed.

Lemma binary_round_spec (s : bool) (m : positive) (e : Z) :
  match binary_round prec emax s m e with
  | S754_zero s' => s' = s /\ magnitude m e <= -1074
  | S754_infinity s' => s' = s /\ 1024 <= magnitude m e
  | S754_nan => False
  | S754_finite s' m2 e2 =>
      s' = s /\ Z.pos (digits2_pos m2) <= 53 /\
      magnitude m e <= magnitude m2 e2 <= Z.max (magnitude m e) (-1074) + 1 /\
      e2 <= 971 /\ fexp prec emax (magnitude m2 e2) = e2
  end.
Proof.
  unfold binary_round.
  pose proof (shl_align_spec m e (fexp prec emax (Z.pos (digits2_pos m) + e))) as Ha.
  destruct (shl_align m e (fexp prec emax (Z.pos (digits2_pos m) + e)))
    as [mz ez].
  destruct Ha as [Hez [_ Hmag]].
  pose proof (binary_round_aux_spec s mz ez loc_Exact) as Hs.
  rewrite Hmag in Hs. fold (magnitude m e) in Hez.
  destruct (binary_round_aux prec emax s (Z.pos mz) ez loc_Exact)
    as [s' | s' | | s' m2 e2]; try assumption.
  - destruct Hs as [-> Hs]. split; [reflexivity | ].
    rewrite fexp_eq in Hez. lia.
  - destruct Hs as [-> [Hd [Hm [He Hc]]]].
    repeat split; lia.
Qed.

Lemma binary_normalize_spec (n e : Z) (szero : bool) :
  match binary_normalize prec emax n e szero with
  | S754_zero _ => True
  | S754_infinity _ => 1024 <= Zdigits2 n + e
  | S754_nan => False
  | S754_finite s' m2 e2 =>
      s' = (n <? 0) /\ Z.pos (digits2_pos m2) <= 53 /\
      Zdigits2 n + e <= magnitude m2 e2 <= Z.max (Zdigits2 n + e) (-1074) + 1 /\
      e2 <= 971 /\ fexp prec emax (magnitude m2 e2) = e2
  end.
Proof.
  destruct n as [ | p | p]; simpl binary_normalize.
  - exact I.
  - pose proof (binary_round_spec false p e) as Hs. unfold magnitude in Hs at 1 2 3.
    simpl Zdigits2.
    destruct (binary_round prec emax false p e); tauto.
  - pose proof (binary_round_spec true p e) as Hs. unfold magnitude in Hs at 1 2 3.
    simpl Zdigits2.
    destruct (binary_round prec emax true p e); tauto.
Qed.

(** ** Validity *)

Lemma is_double_finite (s : bool) (m : positive) (e : Z) :
  is_double (S754_finite s m e) <->
  fexp prec emax (magnitude m e) = e /\ e <= 971.
Proof.
  unfold is_double, valid_binary, bounded, canonical_mantissa, magnitude.
  rewrite andb_true_iff, Z.eqb_eq, Z.leb_le. reflexivity.
Qed.

Lemma is_double_digits (s : bool) (m : positive) (e : Z) :
  is_double (S754_finite s m e) -> Z.pos (digits2_pos m) <= 53.
Proof.
  rewrite is_double_finite, fexp_eq. unfold magnitude. lia.
Qed.

Lemma binary_normalize_is_double (n e : Z) (szero : bool) :
  is_double (binary_normalize prec emax n e szero).
Proof.
  pose proof (binary_normalize_spec n e szero) as Hs.
  destruct (binary_normalize prec emax n e szero) as [ | | | s m2 e2];
    try reflexivity.
  apply is_double_finite. tauto.
Qed.

Lemma add_is_double (x y : number) :
  is_double x -> is_double y -> is_double (add x y).
Proof.
  intros Hx Hy. unfold add.
  destruct x as [sx | sx | | sx mx ex], y as [sy | sy | | sy my ey];
    try reflexivity; try assumption;
    try (destruct sx, sy; reflexivity).
  apply binary_normalize_is_double.
Qed.

(** ** Magnitudes through the arithmetic operations *)

Lemma aligned_sum_digits (mx my : positive) (ex ey : Z) (B : Z) (a b : Z) :
  magnitude mx ex <= B -> magnitude my ey <= B ->
  Z.abs a = Z.pos (fst (shl_align mx ex (Z.min ex ey))) ->
  Z.abs b = Z.pos (fst (shl_align my ey (Z.min ex ey))) ->
  Zdigits2 (a + b) + Z.min ex ey <= B + 1.
Proof.
  intros Hx Hy Ha Hb.
  pose proof (shl_align_spec mx ex (Z.min ex ey)) as Sx.
  pose proof (shl_align_spec my ey (Z.min ex ey)) as Sy.
  destruct (shl_align mx ex (Z.min ex ey)) as [ax ezx].
  destruct (shl_align my ey (Z.min ex ey)) as [ay ezy].
  simpl fst in *.
  destruct Sx as [Ex [_ Mx]], Sy as [Ey [_ My]].
  unfold magnitude in *.
  set (ez := Z.min ex ey) in *.
  assert (Hax : Z.pos ax < 2 ^ (B - ez)).
  { pose proof (digits2_pos_bounds ax) as [_ Hu].
    eapply Z.lt_le_trans; [exact Hu | ]. apply Z.pow_le_mono_r; lia. }
  assert (Hay : Z.pos ay < 2 ^ (B - ez)).
  { pose proof (digits2_pos_bounds ay) as [_ Hu].
    eapply Z.lt_le_trans; [exact Hu | ]. apply Z.pow_le_mono_r; lia. }
  assert (HB : 0 <= B - ez) by lia.
  assert (Hd : Zdigits2 (Z.abs (a + b)) <= B - ez + 1).
  { apply Zdigits2_le_of_lt_pow; try lia.
    rewrite Z.pow_add_r by lia. change (2 ^ 1) with 2. lia. }
  assert (Zdigits2 (a + b) = Zdigits2 (Z.abs (a + b))).
  { destruct (a + b); reflexivity. }
  lia.
Qed.

Lemma abs_cond_Zopp (s : bool) (p : positive) : Z.abs (cond_Zopp s (Z.pos p)) = Z.pos p.
Proof. destruct s; reflexivity. Qed.

Lemma add_finite_below (B : Z) (x y : number) :
  -1074 <= B -> B + 1 < 1024 ->
  finite_below B x -> finite_below B y -> finite_below (B + 2) (add x y).
Proof.
  intros HB1 HB2 Hx Hy. unfold add.
  destruct x as [sx | sx | | sx mx ex], y as [sy | sy | | sy my ey];
    simpl in Hx, Hy; try contradiction.
  - destruct sx, sy; exact I.
  - simpl. lia.
  - simpl. lia.
  - unfold SFadd.
    pose proof (binary_normalize_spec
      (cond_Zopp sx (Z.pos (fst (shl_align mx ex (Z.min ex ey)))) +
       cond_Zopp sy (Z.pos (fst (shl_align my ey (Z.min ex ey)))))
      (Z.min ex ey) false) as Hs.
    pose proof (aligned_sum_digits mx my ex ey B _ _ Hx Hy
      (abs_cond_Zopp sx _) (abs_cond_Zopp sy _)) as Hd.
    destruct (binary_normalize _ _ _ _ _) as [ | | | s2 m2 e2]; simpl; lia.
Qed.

Lemma sub_finite_below (B : Z) (x y : number) :
  -1074 <= B -> B + 1 < 1024 ->
  finite_below B x -> finite_below B y -> finite_below (B + 2) (sub x y).
Proof.
  intros HB1 HB2 Hx Hy. unfold sub.
  destruct x as [sx | sx | | sx mx ex], y as [sy | sy | | sy my ey];
    simpl in Hx, Hy; try contradiction.
  - destruct sx, sy; exact I.
  - simpl. unfold magnitude in *. lia.
  - simpl. lia.
  - unfold SFsub.
    assert (Hb : Z.abs (- cond_Zopp sy (Z.pos (fst (shl_align my ey (Z.min ex ey)))))
                 = Z.pos (fst (shl_align my ey (Z.min ex ey)))).
    { rewrite Z.abs_opp. apply abs_cond_Zopp. }
    pose proof (aligned_sum_digits mx my ex ey B _ _ Hx Hy
      (abs_cond_Zopp sx _) Hb) as Hd.
    rewrite Z.add_opp_r in Hd.
    pose proof (binary_normalize_spec
      (cond_Zopp sx (Z.pos (fst (shl_align mx ex (Z.min ex ey)))) -
       cond_Zopp sy (Z.pos (fst (shl_align my ey (Z.min ex ey)))))
      (Z.min ex ey) false) as Hs.
    destruct (binary_normalize _ _ _ _ _) as [ | | | s2 m2 e2]; simpl; lia.
Qed.

Lemma mul_finite_below (Bx By : Z) (x y : number) :
  -1074 <= Bx + By -> Bx + By <= 900 ->
  finite_below Bx x -> finite_below By y ->
  finite_below (Bx + By + 1) (mul x y).
Proof.
  intros HB1 HB2 Hx Hy. unfold mul.
  destruct x as [sx | sx | | sx mx ex], y as [sy | sy | | sy my ey];
    simpl in Hx, Hy; try contradiction; try exact I.
  unfold SFmul.
  pose proof (binary_round_aux_spec (xorb sx sy) (mx * my) (ex + ey) loc_Exact) as Hs.
  pose proof (Zdigits2_mul (Z.pos mx) (Z.pos my) ltac:(lia) ltac:(lia)) as Hd.
  change (Z.pos mx * Z.pos my) with (Z.pos (mx * my)) in Hd.
  simpl Zdigits2 in Hd. unfold magnitude in *.
  destruct (binary_round_aux _ _ _ _ _ _) as [ | | | s2 m2 e2]; simpl;
    unfold magnitude; lia.
Qed.


Lemma pow2_52 : 2 ^ 52 = 4503599627370496.
Proof. reflexivity. Qed.

Lemma SFleb_finite_pos (mc m : positive) (ec e : Z) :
  SFleb (S754_finite false mc ec) (S754_finite false m e) = true <->
  ec < e \/ ec = e /\ Z.pos mc <= Z.pos m.
Proof.
  unfold SFleb, SFcompare.
  change (Pos.compare_cont Eq mc m) with (mc ?= m)%positive.
  rewrite Pos2Z.inj_compare.
  destruct (Z.compare_spec ec e) as [He | He | He].
  - destruct (Z.compare_spec (Z.pos mc) (Z.pos m)) as [Hm | Hm | Hm];
      split; intros H; try reflexivity; try discriminate; lia.
  - split; intros H; [lia | reflexivity].
  - split; intros H; [discriminate | lia].
Qed.

(** A double that is at least a constant of exponent -52 is at least 1. *)
Lemma le_const_at_least_one (mc : positive) (x : number) :
  is_double x -> le (S754_finite false mc (-52)) x = true -> at_least_one x.
Proof.
  intros Hv Hle. unfold le in Hle.
  destruct x as [sx | sx | | sx m e]; try discriminate Hle.
  - destruct sx; [discriminate | exact I].
  - destruct sx; [discriminate | ].
    pose proof (is_double_digits _ _ _ Hv) as Hd.
    apply is_double_finite in Hv. destruct Hv as [Hc _].
    rewrite fexp_eq in Hc. apply SFleb_finite_pos in Hle.
    simpl. unfold magnitude in *. lia.
Qed.

Lemma at_least_one_le_1 (x : number) : at_least_one x -> le lit_1 x = true.
Proof.
  destruct x as [sx | [ | ] | | [ | ] m e]; simpl; try contradiction;
    try reflexivity.
  intros [Hd Hm]. unfold magnitude in Hm.
  unfold le, lit_1. apply SFleb_finite_pos.
  pose proof (digits2_pos_bounds m) as [Hlo _].
  destruct (Z_lt_le_dec (-52) e) as [ | He]; [left; assumption | right].
  split; [lia | ].
  assert (2 ^ 52 <= 2 ^ (Z.pos (digits2_pos m) - 1)).
  { apply Z.pow_le_mono_r; lia. }
  rewrite pow2_52 in *. lia.
Qed.

Lemma at_least_one_not_nan (x : number) : at_least_one x -> is_nan x = false.
Proof. destruct x as [ | | | [ | ] ]; simpl; tauto. Qed.

Lemma mul_at_least_one (x y : number) :
  at_least_one x -> at_least_one y -> at_least_one (mul x y).
Proof.
  intros Hx Hy. unfold mul.
  destruct x as [sx | [ | ] | | [ | ] mx ex]; simpl in Hx; try contradiction;
    destruct y as [sy | [ | ] | | [ | ] my ey]; simpl in Hy; try contradiction;
    try exact I.
  unfold SFmul. simpl xorb.
  pose proof (binary_round_aux_spec false (mx * my) (ex + ey) loc_Exact) as Hs.
  pose proof (Zdigits2_mul (Z.pos mx) (Z.pos my) ltac:(lia) ltac:(lia)) as Hd.
  change (Z.pos mx * Z.pos my) with (Z.pos (mx * my)) in Hd.
  simpl Zdigits2 in Hd. unfold magnitude in *.
  destruct (binary_round_aux _ _ _ _ _ _) as [s2 | s2 | | s2 m2 e2].
  - lia.
  - destruct Hs as [-> _]. exact I.
  - contradiction.
  - destruct Hs as [-> Hs]. simpl. unfold magnitude. lia.
Qed.

Lemma of_Z_at_least_one (n : Z) : 1 <= n -> at_least_one (of_Z n).
Proof.
  intros Hn. unfold of_Z.
  destruct n as [ | p | p]; try lia. simpl binary_normalize.
  pose proof (binary_round_spec false p 0) as Hs. unfold magnitude in Hs at 1 2 3 4.
  destruct (binary_round prec emax false p 0) as [s2 | s2 | | s2 m2 e2].
  - lia.
  - destruct Hs as [-> _]. exact I.
  - contradiction.
  - destruct Hs as [-> Hs]. simpl. unfold magnitude in *. lia.
Qed.

Lemma Math_round_at_least_one (x : number) :
  at_least_one x -> at_least_one (Math_round x).
Proof.
  intros Hx. destruct x as [sx | [ | ] | | [ | ] m e]; simpl in Hx;
    try contradiction; try exact I.
  unfold Math_round.
  destruct (0 <=? e) eqn:He; [exact Hx | ].
  apply Z.leb_gt in He.
  destruct (Z.pos m mod 2 ^ (- e) =? 0); [exact Hx | ].
  simpl cond_Zopp.
  destruct Hx as [Hd Hm]. unfold magnitude in Hm.
  set (k := - e) in *.
  assert (Hk : 0 < 2 ^ k) by (apply Z.pow_pos_nonneg; lia).
  assert (Hmk : 2 ^ k <= Z.pos m).
  { pose proof (digits2_pos_bounds m) as [Hlo _].
    eapply Z.le_trans; [ | exact Hlo]. apply Z.pow_le_mono_r; lia. }
  assert (Hn : 1 <= (2 * Z.pos m + 2 ^ k) / 2 ^ (k + 1)).
  { apply Z.div_le_lower_bound.
    - apply Z.pow_pos_nonneg; lia.
    - rewrite Z.pow_add_r by lia. change (2 ^ 1) with 2. lia. }
  destruct (Z.eqb_spec ((2 * Z.pos m + 2 ^ k) / 2 ^ (k + 1)) 0) as [E | _];
    [lia | ].
  apply of_Z_at_least_one. exact Hn.
Qed.

(** A non-negative integral double is zero or at least 1. *)
Lemma count_zero_or_at_least_one (x : number) :
  is_double x -> is_integral x = true -> le lit_0 x = true ->
  (exists s, x = S754_zero s) \/ at_least_one x.
Proof.
  intros Hv Hi Hle.
  destruct x as [sx | sx | | sx m e]; simpl in Hi; try discriminate.
  - left. exists sx. reflexivity.
  - right. destruct sx; [discriminate Hle | ].
    pose proof (is_double_digits _ _ _ Hv) as Hd.
    simpl. split; [assumption | ]. unfold magnitude.
    apply orb_true_iff in Hi. destruct Hi as [Hi | Hi].
    + apply Z.leb_le in Hi. lia.
    + apply Z.eqb_eq in Hi.
      destruct (Z_le_gt_dec 0 e) as [ | Hneg]; [lia | ].
      assert (Hk : 0 < 2 ^ (- e)) by (apply Z.pow_pos_nonneg; lia).
      assert (Hge : 2 ^ (- e) <= Z.pos m).
      { apply Z.mod_divide in Hi; [ | lia].
        destruct Hi as [c Hc].
        assert (0 < c) by nia. nia. }
      pose proof (Zdigits2_gt_of_pow_le (Z.pos m) (- e) ltac:(lia) Hge) as Hg.
      simpl Zdigits2 in Hg. lia.
Qed.


End NumberFacts.

(** * The review calculator *)

Section ReviewCalculator.
Import JS SM2 Scenario.

Ltac literal_magnitude := simpl; unfold magnitude; simpl; lia.

(** ** The literals *)

Lemma literals_are_nearest :
  nearest_double 1 10 lit_0_1 /\ nearest_double 8 100 lit_0_08 /\
  nearest_double 2 100 lit_0_02 /\ nearest_double 13 10 lit_1_3 /\
  nearest_double 25 10 lit_2_5 /\ nearest_double 236 100 lit_2_36.
Proof. repeat split; vm_compute; congruence. Qed.

Lemma integer_literals :
  of_Z 0 = lit_0 /\ of_Z 1 = lit_1 /\ of_Z 2 = lit_2 /\ of_Z 3 = lit_3 /\
  of_Z 5 = lit_5 /\ of_Z 6 = lit_6 /\ of_Z 21 = lit_21 /\
  of_Z (-1) = lit_minus_1 /\ of_Z 14 = lit_14 /\ of_Z 15 = lit_15.
Proof. repeat split; reflexivity. Qed.

Lemma of_Z_not_nan (n : Z) : is_nan (of_Z n) = false.
Proof.
  pose proof (binary_normalize_spec n 0 false) as H. unfold of_Z.
  destruct (binary_normalize prec emax n 0 false); try reflexivity.
  contradiction.
Qed.

Lemma of_Z_in_range (n : Z) : in_range (of_Z n) = true <-> 0 <= n <= 5.
Proof.
  destruct n as [ | p | p].
  - split; [lia | reflexivity].
  - assert (Hbig : 4 <= Z.pos (digits2_pos p) -> in_range (of_Z (Z.pos p)) = false).
    { intros Hd. unfold of_Z. simpl binary_normalize.
      pose proof (binary_round_spec false p 0) as Hs.
      unfold magnitude in Hs at 1 2 3 4.
      unfold in_range.
      destruct (binary_round prec emax false p 0) as [s | s | | s m e].
      - lia.
      - destruct Hs as [-> _]. reflexivity.
      - contradiction.
      - destruct Hs as [-> [Hd2 [Hm [He Hc]]]].
        rewrite fexp_eq in Hc. unfold magnitude in *.
        apply andb_false_iff. right. unfold le, lit_5.
        destruct (SFleb (S754_finite false m e)
                    (S754_finite false 5629499534213120 (-50))) eqn:E;
          [ | reflexivity].
        apply SFleb_finite_pos in E. lia. }
    destruct p as [[[q | q | ] | [q | q | ] | ] | [[q | q | ] | [q | q | ] | ] | ];
      try (split; [intros H; rewrite Hbig in H;
                   [discriminate H | simpl; lia] | lia]);
      try (split; [lia | reflexivity]);
      split; intros H; try discriminate H; lia.
  - split; [ | lia]. intros H. exfalso.
    unfold of_Z in H. simpl binary_normalize in H.
    pose proof (binary_round_spec true p 0) as Hs.
    unfold in_range in H.
    destruct (binary_round prec emax true p 0) as [s | s | | s m e].
    + unfold magnitude in Hs. lia.
    + destruct Hs as [-> _]. discriminate H.
    + contradiction.
    + destruct Hs as [-> _]. discriminate H.
Qed.

(** ** The validation of the rating *)

Lemma in_range_passes (q : number) :
  in_range q = true -> lt q lit_0 || gt q lit_5 = false.
Proof.
  unfold in_range. intros H. apply andb_true_iff in H. destruct H as [H0 H5].
  apply le_not_gt in H0. apply le_not_gt in H5.
  unfold gt in *. unfold lt. rewrite H0, H5. reflexivity.
Qed.

Lemma out_of_range_rejected (q : number) :
  is_nan q = false -> in_range q = false -> lt q lit_0 || gt q lit_5 = true.
Proof.
  intros Hn H. unfold in_range in H.
  destruct (lt q lit_0) eqn:H0; [reflexivity | ].
  destruct (gt q lit_5) eqn:H5; [reflexivity | exfalso].
  apply not_lt_le in H0; [ | assumption | reflexivity].
  unfold gt in H5. apply not_lt_le in H5; [ | reflexivity | assumption].
  rewrite H0, H5 in H. discriminate.
Qed.

(** ** Magnitude of the ease adjustment *)

Lemma in_range_finite_below (q : number) :
  is_double q -> in_range q = true -> finite_below 3 q.
Proof.
  intros Hv H. unfold in_range in H. apply andb_true_iff in H.
  destruct H as [H0 H5].
  destruct q as [s | s | | s m e]; try discriminate; try exact I.
  - destruct s; discriminate.
  - destruct s; [discriminate | ].
    pose proof (is_double_digits _ _ _ Hv) as Hd.
    unfold le, lit_5 in H5. apply SFleb_finite_pos in H5.
    simpl. unfold magnitude. lia.
Qed.

Lemma ease_delta_finite (q : number) :
  is_double q -> in_range q = true ->
  finite_below 9
    (mul (sub lit_5 q) (add lit_0_08 (mul (sub lit_5 q) lit_0_02))).
Proof.
  intros Hv Hr.
  pose proof (in_range_finite_below q Hv Hr) as Hq.
  assert (Ht : finite_below 5 (sub lit_5 q)).
  { apply (sub_finite_below 3); try lia; [ | assumption].
    literal_magnitude. }
  assert (Hu : finite_below 1 (mul (sub lit_5 q) lit_0_02)).
  { apply (mul_finite_below 5 (-5)); try lia; [assumption | ].
    literal_magnitude. }
  assert (Hw : finite_below 3 (add lit_0_08 (mul (sub lit_5 q) lit_0_02))).
  { apply (add_finite_below 1); try lia; [ | assumption].
    literal_magnitude. }
  apply (mul_finite_below 5 3); try lia; assumption.
Qed.

Lemma sub_finite_is_double (sc : bool) (mc : positive) (ec : Z) (w : number) (B : Z) :
  is_double (S754_finite sc mc ec) -> finite_below B w ->
  is_double (sub (S754_finite sc mc ec) w).
Proof.
  intros Hc Hw. unfold sub.
  destruct w as [sw | sw | | sw mw ew]; simpl in Hw; try contradiction.
  - exact Hc.
  - apply binary_normalize_is_double.
Qed.

Lemma add_not_nan (x y : number) (B : Z) :
  is_nan x = false -> finite_below B y -> is_nan (add x y) = false.
Proof.
  intros Hx Hy. unfold add.
  destruct x as [sx | sx | | sx mx ex]; try discriminate Hx;
    destruct y as [sy | sy | | sy my ey]; simpl in Hy; try contradiction;
    try reflexivity.
  - destruct sx, sy; reflexivity.
  - unfold SFadd.
    pose proof (binary_normalize_spec
      (cond_Zopp sx (Z.pos (fst (shl_align mx ex (Z.min ex ey)))) +
       cond_Zopp sy (Z.pos (fst (shl_align my ey (Z.min ex ey)))))
      (Z.min ex ey) false) as Hs.
    destruct (binary_normalize _ _ _ _ _); try reflexivity. contradiction.
Qed.

Lemma ease_update_not_nan (q ease : number) :
  is_double q -> in_range q = true -> is_nan ease = false ->
  is_nan (ease_update q ease) = false.
Proof.
  intros Hq Hr He.
  pose proof (ease_delta_finite q Hq Hr) as Hw.
  apply (add_not_nan _ _ 11); [assumption | ].
  apply (sub_finite_below 9); try lia; [ | assumption].
  literal_magnitude.
Qed.

(** ** The updated ease factor of an in-range rating *)

Lemma new_ease_at_least_one (q ease : number) :
  is_double q -> in_range q = true ->
  is_double ease -> le lit_1_3 ease = true ->
  at_least_one (Math_max lit_1_3 (ease_update q ease)).
Proof.
  intros Hq Hr He Hle.
  pose proof (ease_delta_finite q Hq Hr) as Hw.
  assert (Hd : finite_below 11
            (sub lit_0_1
               (mul (sub lit_5 q) (add lit_0_08 (mul (sub lit_5 q) lit_0_02))))).
  { apply (sub_finite_below 9); try lia; [ | assumption].
    literal_magnitude. }
  assert (Hdv : is_double
            (sub lit_0_1
               (mul (sub lit_5 q) (add lit_0_08 (mul (sub lit_5 q) lit_0_02))))).
  { apply (sub_finite_is_double _ _ _ _ 9); [reflexivity | assumption]. }
  assert (Ha : at_least_one ease).
  { apply (le_const_at_least_one _ _ He Hle). }
  assert (Hn : is_nan (ease_update q ease) = false).
  { apply ease_update_not_nan; try assumption.
    apply at_least_one_not_nan. assumption. }
  assert (Hv : is_double (ease_update q ease)).
  { apply add_is_double; assumption. }
  pose proof (Math_max_1_3_le _ Hn) as Hm.
  apply (le_const_at_least_one 5854679515581645); [ | exact Hm].
  destruct (Math_max_1_3_cases (ease_update q ease))
    as [[_ H] | [_ [[-> _] | [-> _]]]].
  - congruence.
  - exact Hv.
  - reflexivity.
Qed.

Lemma SFeqb_finite_eq (x : number) (s : bool) (m : positive) (e : Z) :
  strict_eq x (S754_finite s m e) = true -> x = S754_finite s m e.
Proof.
  unfold strict_eq, SFeqb, SFcompare.
  destruct x as [sx | sx | | sx mx ex].
  - destruct s; discriminate.
  - destruct sx; discriminate.
  - discriminate.
  - change (Pos.compare_cont Eq mx m) with (mx ?= m)%positive.
    destruct sx, s; try discriminate;
      destruct (Z.compare_spec ex e) as [He | He | He]; try discriminate;
      destruct (Pos.compare_spec mx m) as [Hm | Hm | Hm]; try discriminate;
      intros _; subst; reflexivity.
Qed.

Lemma mul_not_negative (i e : number) :
  le lit_0 i = true -> lt e lit_1_3 = false ->
  not_negative_finite (mul i e).
Proof.
  intros Hi He. unfold mul.
  destruct i as [si | si | | si mi ei]; try discriminate Hi;
    destruct e as [se | se | | se me ee]; try discriminate He;
    try exact I;
    try (destruct si; try discriminate Hi);
    try (destruct se; try discriminate He);
    try exact I.
  unfold SFmul. simpl xorb.
  pose proof (binary_round_aux_spec false (mi * me) (ei + ee) loc_Exact) as Hs.
  destruct (binary_round_aux _ _ _ _ _ _) as [ | | | s2 m2 e2]; try exact I.
  destruct Hs as [-> _]. exact I.
Qed.

Lemma Math_round_half_away (x : number) :
  not_negative_finite x -> Math_round x = round_half_away_from_zero x.
Proof.
  destruct x as [s | s | | [ | ] m e]; simpl; try reflexivity. contradiction.
Qed.

(** ** The shape of a successful call *)
Lemma calculateSM2_in_range (now : Z) (input : SM2Input) :
  in_range (quality input) = true ->
  calculateSM2 now input =
    let ease' := Math_max lit_1_3 (ease_update (quality input) (easeFactor input)) in
    let ri :=
      if lt (quality input) lit_3 then (lit_0, lit_1)
      else (add (repetitions input) lit_1,
            if strict_eq (add (repetitions input) lit_1) lit_1 then lit_1
            else if strict_eq (add (repetitions input) lit_1) lit_2 then lit_6
            else Math_round (mul (interval input) ease')) in
    Return {| r_interval := snd ri; r_repetitions := fst ri;
              r_easeFactor := ease';
              r_nextReviewDate := {| created := now; days_added := snd ri |} |}.
Proof.
  intros Hr. unfold calculateSM2. rewrite (in_range_passes _ Hr).
  destruct (lt (quality input) lit_3); reflexivity.
Qed.


Lemma calculateSM2_throws (now : Z) (input : SM2Input) (msg : string) :
  calculateSM2 now input = Throw msg <->
  (lt (quality input) lit_0 || gt (quality input) lit_5 = true) /\
  msg = invalid_quality.
Proof.
  unfold calculateSM2.
  destruct (lt (quality input) lit_0 || gt (quality input) lit_5).
  - split.
    + intros H. inversion H. split; reflexivity.
    + intros [_ ->]. reflexivity.
  - destruct (lt (quality input) lit_3); split; intros H;
      try discriminate H; destruct H as [H _]; discriminate H.
Qed.


Lemma at_least_one_nonzero (x : number) :
  at_least_one x -> strict_eq x lit_0 = false.
Proof.
  destruct x as [s | [ | ] | | [ | ] m e]; simpl; try contradiction; reflexivity.
Qed.


(** ** The claims about [calculateSM2] *)

(** C1: for every rating in [0, 5] and every input state,
    [calculateSM2] returns; a rating below 3 gives repetitions 0 and
    interval 1; a rating of at least 3 gives repetitions + 1, and the
    interval is 1 when the new repetitions equal 1, 6 when they equal 2,
    and, when they are at least 3, the previous interval (a non-negative
    number of days) times the updated ease factor, rounded half away
    from zero. *)
Theorem C1_repetitions_and_interval :
  forall now input,
    in_range (quality input) = true ->
    exists r,
      calculateSM2 now input = Return r /\
      (lt (quality input) lit_3 = true ->
       r_repetitions r = lit_0 /\ r_interval r = lit_1) /\
      (le lit_3 (quality input) = true ->
       r_repetitions r = add (repetitions input) lit_1 /\
       (strict_eq (r_repetitions r) lit_1 = true -> r_interval r = lit_1) /\
       (strict_eq (r_repetitions r) lit_2 = true -> r_interval r = lit_6) /\
       (le lit_3 (r_repetitions r) = true ->
        le lit_0 (interval input) = true ->
        r_interval r =
        round_half_away_from_zero (mul (interval input) (r_easeFactor r)))).
Proof.
  intros now input Hr.
  rewrite (calculateSM2_in_range now input Hr). cbv zeta.
  eexists. split; [reflexivity | ].
  cbn [r_repetitions r_interval r_easeFactor].
  split.
  - intros Hq. rewrite Hq. split; reflexivity.
  - intros Hq. apply le_not_gt in Hq. unfold gt in Hq.
    fold (lt (quality input) lit_3) in Hq.
    rewrite Hq. cbn [fst snd].
    split; [reflexivity | ].
    set (reps' := add (repetitions input) lit_1).
    split; [ | split].
    + intros H1. rewrite H1. reflexivity.
    + intros H2. apply SFeqb_finite_eq in H2. rewrite H2. reflexivity.
    + intros H3 Hi.
      destruct (strict_eq reps' lit_1) eqn:E1.
      { apply SFeqb_finite_eq in E1. rewrite E1 in H3. discriminate H3. }
      destruct (strict_eq reps' lit_2) eqn:E2.
      { apply SFeqb_finite_eq in E2. rewrite E2 in H3. discriminate H3. }
      apply Math_round_half_away. apply mul_not_negative; [assumption | ].
      apply Math_max_1_3_not_below.
Qed.

Lemma C1_at_good_after_two :
  in_range (quality good_after_two) = true /\
  exists r,
    calculateSM2 0 good_after_two = Return r /\
    (lt (quality good_after_two) lit_3 = true ->
     r_repetitions r = lit_0 /\ r_interval r = lit_1) /\
    (le lit_3 (quality good_after_two) = true ->
     r_repetitions r = add (repetitions good_after_two) lit_1 /\
     (strict_eq (r_repetitions r) lit_1 = true -> r_interval r = lit_1) /\
     (strict_eq (r_repetitions r) lit_2 = true -> r_interval r = lit_6) /\
     (le lit_3 (r_repetitions r) = true ->
      le lit_0 (interval good_after_two) = true ->
      r_interval r =
      round_half_away_from_zero
        (mul (interval good_after_two) (r_easeFactor r)))).
Proof.
  split; [reflexivity | ].
  apply (C1_repetitions_and_interval 0 good_after_two). reflexivity.
Defined.

(** C2: for every rating in [0, 5] and every input ease factor, the
    ease factor returned by [calculateSM2] is
    [Math.max(1.3, easeFactor + (0.1 - (5 - q) * (0.08 + (5 - q) * 0.02)))]
    and is never less than 1.3; when the input ease factor is a number,
    this is the larger of 1.3 and the updated value, and it is at
    least 1.3. *)
Theorem C2_ease_factor :
  forall now input,
    in_range (quality input) = true ->
    exists r,
      calculateSM2 now input = Return r /\
      r_easeFactor r =
        Math_max lit_1_3 (ease_update (quality input) (easeFactor input)) /\
      lt (r_easeFactor r) lit_1_3 = false /\
      (is_double (quality input) -> is_nan (easeFactor input) = false ->
       r_easeFactor r = spec_ease (quality input) (easeFactor input) /\
       le lit_1_3 (r_easeFactor r) = true).
Proof.
  intros now input Hr.
  rewrite (calculateSM2_in_range now input Hr). cbv zeta.
  eexists. split; [reflexivity | ]. cbn [r_easeFactor].
  split; [reflexivity | ].
  split; [apply Math_max_1_3_not_below | ].
  intros Hq He.
  pose proof (ease_update_not_nan _ _ Hq Hr He) as Hn.
  split.
  - rewrite Math_max_1_3 by assumption. reflexivity.
  - apply Math_max_1_3_le. assumption.
Qed.

Lemma C2_at_good_after_two :
  in_range (quality good_after_two) = true /\
  exists r,
    calculateSM2 0 good_after_two = Return r /\
    r_easeFactor r =
      Math_max lit_1_3
        (ease_update (quality good_after_two) (easeFactor good_after_two)) /\
    lt (r_easeFactor r) lit_1_3 = false /\
    (is_double (quality good_after_two) ->
     is_nan (easeFactor good_after_two) = false ->
     r_easeFactor r =
       spec_ease (quality good_after_two) (easeFactor good_after_two) /\
     le lit_1_3 (r_easeFactor r) = true).
Proof.
  split; [reflexivity | ].
  apply (C2_ease_factor 0 good_after_two). reflexivity.
Defined.

(** C3, as stated, does not hold: rating "Good" on
    {easeFactor 2.5, interval 6, repetitions 2} does not return
    easeFactor 2.5 with interval 15 and repetitions 3. *)
Lemma C3_good_does_not_keep_ease :
  ~ (forall now, exists r,
        calculateSM2 now good_after_two = Return r /\
        r_easeFactor r = lit_2_5 /\ r_interval r = lit_15 /\
        r_repetitions r = lit_3).
Proof.
  intros H. destruct (H 0) as [r [Hr [He _]]].
  vm_compute in Hr. inversion Hr; subst r. simpl in He. discriminate He.
Qed.

(** C3, amended: rating "Good" on {easeFactor 2.5, interval 6,
    repetitions 2} returns easeFactor 2.36, interval 14 and
    repetitions 3. *)
Theorem C3_good_after_two_successes :
  forall now,
    calculateSM2 now good_after_two =
    Return {| r_interval := lit_14;
              r_repetitions := lit_3;
              r_easeFactor := lit_2_36;
              r_nextReviewDate := {| created := now; days_added := lit_14 |} |}.
Proof. intros now. vm_compute. reflexivity. Qed.

(** C4: [calculateSM2] throws exactly when the rating is outside
    [0, 5] -- for every integer rating, and for every rating that is a
    number --, the range error is the only error it throws, ratings 6
    and -1 are rejected, and every rating in [0, 5] yields a result
    whatever the state. *)
Theorem C4_invalid_quality :
  forall now input,
    (forall n : Z,
       quality input = of_Z n ->
       (calculateSM2 now input = Throw invalid_quality <-> n < 0 \/ 5 < n)) /\
    (is_nan (quality input) = false ->
     (calculateSM2 now input = Throw invalid_quality <->
      in_range (quality input) = false)) /\
    (forall msg, calculateSM2 now input = Throw msg -> msg = invalid_quality) /\
    (quality input = lit_6 -> calculateSM2 now input = Throw invalid_quality) /\
    (quality input = lit_minus_1 ->
     calculateSM2 now input = Throw invalid_quality) /\
    (in_range (quality input) = true ->
     exists r, calculateSM2 now input = Return r).
Proof.
  intros now input.
  assert (Hnum : is_nan (quality input) = false ->
                 (calculateSM2 now input = Throw invalid_quality <->
                  in_range (quality input) = false)).
  { intros Hn. split.
    - intros H. apply calculateSM2_throws in H. destruct H as [H _].
      destruct (in_range (quality input)) eqn:Hr; [ | reflexivity].
      rewrite (in_range_passes _ Hr) in H. discriminate H.
    - intros Hr. apply calculateSM2_throws. split; [ | reflexivity].
      apply out_of_range_rejected; assumption. }
  split; [ | split; [ | split; [ | split; [ | split]]]].
  - intros n Hq. rewrite Hnum by (rewrite Hq; apply of_Z_not_nan).
    rewrite Hq. pose proof (of_Z_in_range n) as Hn.
    destruct (in_range (of_Z n)); split; intros H; try discriminate H;
      try reflexivity; lia.
  - exact Hnum.
  - intros msg H. apply calculateSM2_throws in H. tauto.
  - intros Hq. apply calculateSM2_throws. rewrite Hq. split; reflexivity.
  - intros Hq. apply calculateSM2_throws. rewrite Hq. split; reflexivity.
  - intros Hr. rewrite (calculateSM2_in_range now input Hr). cbv zeta.
    eexists. reflexivity.
Qed.

Lemma C4_at_quality_six :
  quality too_easy = of_Z 6 /\ (6 < 0 \/ 5 < 6) /\
  calculateSM2 0 too_easy = Throw invalid_quality.
Proof.
  split; [reflexivity | ]. split; [right; lia | ].
  apply (proj1 (C4_invalid_quality 0 too_easy) 6 eq_refl). right. lia.
Defined.

(** C9: for every rating in [0, 5] and every review state (doubles, with
    a non-negative integral repetition count) whose ease factor is at
    least 1.3 and whose interval is at least 1 once repetitions are at
    least 1, [calculateSM2] returns a state whose interval is at least 1
    whenever its repetitions are at least 1; the returned interval is
    never 0. *)
Theorem C9_interval_invariant :
  forall now input,
    is_double (quality input) -> is_double (easeFactor input) ->
    is_double (interval input) -> is_double (repetitions input) ->
    is_integral (repetitions input) = true ->
    le lit_0 (repetitions input) = true ->
    in_range (quality input) = true ->
    le lit_1_3 (easeFactor input) = true ->
    (le lit_1 (repetitions input) = true -> le lit_1 (interval input) = true) ->
    exists r,
      calculateSM2 now input = Return r /\
      (le lit_1 (r_repetitions r) = true -> le lit_1 (r_interval r) = true) /\
      strict_eq (r_interval r) lit_0 = false.
Proof.
  intros now input Vq Ve Vi Vr Ir Nr Hr He Hinv.
  rewrite (calculateSM2_in_range now input Hr). cbv zeta.
  eexists. split; [reflexivity | ]. cbn [r_repetitions r_interval].
  match goal with
  | |- (_ -> le lit_1 ?i = true) /\ _ =>
      assert (Hone : at_least_one i); [ | split;
        [intros _; apply at_least_one_le_1; exact Hone
        | apply at_least_one_nonzero; exact Hone]]
  end.
  destruct (lt (quality input) lit_3); cbn [snd].
  { literal_magnitude. }
  destruct (strict_eq (add (repetitions input) lit_1) lit_1) eqn:E1.
  { literal_magnitude. }
  destruct (strict_eq (add (repetitions input) lit_1) lit_2) eqn:E2.
  { literal_magnitude. }
  apply Math_round_at_least_one. apply mul_at_least_one.
  - apply (le_const_at_least_one 4503599627370496); [assumption | ].
    apply Hinv.
    destruct (count_zero_or_at_least_one _ Vr Ir Nr) as [[s Hz] | Hone].
    + rewrite Hz in E1. discriminate E1.
    + apply at_least_one_le_1. exact Hone.
  - apply new_ease_at_least_one; assumption.
Qed.

Lemma C9_at_good_after_two :
  in_range (quality good_after_two) = true /\
  is_integral (repetitions good_after_two) = true /\
  le lit_0 (repetitions good_after_two) = true /\
  le lit_1_3 (easeFactor good_after_two) = true /\
  le lit_1 (interval good_after_two) = true /\
  exists r,
    calculateSM2 0 good_after_two = Return r /\
    (le lit_1 (r_repetitions r) = true -> le lit_1 (r_interval r) = true) /\
    strict_eq (r_interval r) lit_0 = false.
Proof.
  repeat (split; [reflexivity | ]).
  apply (C9_interval_invariant 0 good_after_two); reflexivity.
Defined.

(** C10: the rating need not be an integer: every non-integral rating in
    [0, 5], such as 2.5, yields a result computed by the same ease-factor
    and interval formulas, and a rating is rejected only when it is
    below 0 or above 5. *)
Theorem C10_fractional_quality :
  (forall now input,
     in_range (quality input) = true ->
     is_integral (quality input) = false ->
     exists r,
       calculateSM2 now input = Return r /\
       r_easeFactor r =
         Math_max lit_1_3 (ease_update (quality input) (easeFactor input)) /\
       (lt (quality input) lit_3 = true ->
        r_repetitions r = lit_0 /\ r_interval r = lit_1) /\
       (lt (quality input) lit_3 = false ->
        r_repetitions r = add (repetitions input) lit_1 /\
        r_interval r =
          if strict_eq (r_repetitions r) lit_1 then lit_1
          else if strict_eq (r_repetitions r) lit_2 then lit_6
          else Math_round (mul (interval input) (r_easeFactor r)))) /\
  (is_integral lit_2_5 = false /\ in_range lit_2_5 = true) /\
  (forall now input msg,
     calculateSM2 now input = Throw msg ->
     lt (quality input) lit_0 = true \/ gt (quality input) lit_5 = true).
Proof.
  split; [ | split].
  - intros now input Hr _.
    rewrite (calculateSM2_in_range now input Hr). cbv zeta.
    eexists. split; [reflexivity | ].
    cbn [r_easeFactor r_repetitions r_interval].
    split; [reflexivity | ].
    destruct (lt (quality input) lit_3); cbn [fst snd]; split;
      try (intros H; discriminate H); intros _; split; reflexivity.
  - split; reflexivity.
  - intros now input msg H. apply calculateSM2_throws in H.
    destruct H as [H _]. apply orb_true_iff in H. exact H.
Qed.

Lemma C10_at_quality_2_5 :
  in_range (quality between_hard_and_good) = true /\
  is_integral (quality between_hard_and_good) = false /\
  exists r,
    calculateSM2 0 between_hard_and_good = Return r /\
    r_easeFactor r =
      Math_max lit_1_3
        (ease_update (quality between_hard_and_good)
           (easeFactor between_hard_and_good)) /\
    (lt (quality between_hard_and_good) lit_3 = true ->
     r_repetitions r = lit_0 /\ r_interval r = lit_1) /\
    (lt (quality between_hard_and_good) lit_3 = false ->
     r_repetitions r = add (repetitions between_hard_and_good) lit_1 /\
     r_interval r =
       if strict_eq (r_repetitions r) lit_1 then lit_1
       else if strict_eq (r_repetitions r) lit_2 then lit_6
       else Math_round (mul (interval between_hard_and_good) (r_easeFactor r))).
Proof.
  split; [reflexivity | ]. split; [reflexivity | ].
  apply (proj1 C10_fractional_quality 0 between_hard_and_good); reflexivity.
Defined.

(** A rating that is not a number passes the validation: both
    comparisons of the guard are false for NaN. *)
Remark nan_quality_is_not_rejected :
  forall now reps ease ivl,
    exists r,
      calculateSM2 now {| quality := NaN; repetitions := reps;
                          easeFactor := ease; interval := ivl |} = Return r /\
      r_easeFactor r = NaN.
Proof.
  intros now reps ease ivl. unfold calculateSM2. simpl.
  eexists. split; [reflexivity | ]. simpl.
  unfold ease_update, Math_max. simpl.
  replace (add ease S754_nan) with S754_nan; [reflexivity | ].
  destruct ease; reflexivity.
Qed.

(** The repetition count has to be a whole number for the invariant of
    the interval: from 0.5 repetitions and interval 0 a rating of 5
    leads to 1.5 repetitions with interval 0. *)
Remark fractional_repetitions_reach_interval_zero :
  forall now, exists r,
    calculateSM2 now {| quality := lit_5;
                        repetitions := S754_finite false 4503599627370496 (-53);
                        easeFactor := lit_2_5; interval := lit_0 |} = Return r /\
    le lit_1 (r_repetitions r) = true /\ r_interval r = lit_0.
Proof. intros now. eexists. split; [reflexivity | ]. split; reflexivity. Qed.

(** [Math.round] breaks ties towards +Infinity, so it differs from
    rounding half away from zero on negative ties. *)
Remark Math_round_negative_tie :
  Math_round (S754_finite true 5629499534213120 (-51)) = of_Z (-2) /\
  round_half_away_from_zero (S754_finite true 5629499534213120 (-51)) =
  of_Z (-3).
Proof. split; reflexivity. Qed.

End ReviewCalculator.

(** * Due selection *)

Section DueSelection.
Import StudySession Scenario.
Local Open Scope string_scope.
Local Open Scope Z_scope.

Lemma earlier_or_same_trans : Relations_1.Transitive earlier_or_same.
Proof. intros a b c. unfold earlier_or_same. lia. Qed.

Lemma insert_by_date_perm (r : CardReview) (l : list CardReview) :
  Permutation (r :: l) (insert_by_date r l).
Proof.
  induction l as [ | x t IH]; simpl.
  - apply Permutation_refl.
  - destruct (next_review_date r <=? next_review_date x).
    + apply Permutation_refl.
    + eapply perm_trans; [apply perm_swap | ]. apply perm_skip. exact IH.
Qed.

Lemma insert_by_date_hd (r a : CardReview) (l : list CardReview) :
  earlier_or_same a r -> HdRel earlier_or_same a l ->
  HdRel earlier_or_same a (insert_by_date r l).
Proof.
  intros Har Hl. destruct l as [ | x t]; simpl.
  - constructor. exact Har.
  - destruct (next_review_date r <=? next_review_date x).
    + constructor. exact Har.
    + constructor. inversion Hl. assumption.
Qed.

Lemma insert_by_date_sorted (r : CardReview) (l : list CardReview) :
  Sorted earlier_or_same l -> Sorted earlier_or_same (insert_by_date r l).
Proof.
  induction l as [ | x t IH]; intros Hs; simpl.
  - repeat constructor.
  - destruct (next_review_date r <=? next_review_date x) eqn:E.
    + constructor; [exact Hs | ]. constructor.
      unfold earlier_or_same. apply Z.leb_le. exact E.
    + inversion Hs as [ | ? ? Ht Hh]; subst.
      constructor; [apply IH; exact Ht | ].
      apply insert_by_date_hd; [ | exact Hh].
      unfold earlier_or_same. apply Z.leb_gt in E. lia.
Qed.

Lemma sort_by_date_ordered (rows : list CardReview) :
  ordered_by_next_review_date rows (sort_by_date rows).
Proof.
  unfold ordered_by_next_review_date, sort_by_date.
  induction rows as [ | r t [IHp IHs]]; simpl.
  - split; constructor.
  - split.
    + eapply perm_trans; [apply perm_skip; exact IHp | ].
      apply insert_by_date_perm.
    + apply insert_by_date_sorted. exact IHs.
Qed.

Lemma fetchDueCards_run_admissible session fault db now deckId :
  fetchDueCards session fault db now deckId
    (fetchDueCards_run session fault db now deckId).
Proof.
  unfold fetchDueCards_run.
  destruct session as [s | ].
  - destruct fault as [e | ].
    + eapply fetch_error; reflexivity.
    + eapply fetch_data; try reflexivity. apply sort_by_date_ordered.
  - apply fetch_not_authenticated. reflexivity.
Qed.

Lemma embedded_card_id db deckId r c :
  embedded_card db deckId r = Some c -> id c = card_id r /\ In c (cards db).
Proof.
  unfold embedded_card.
  destruct (find _ (cards db)) as [c0 | ] eqn:Ef; [ | discriminate].
  apply find_some in Ef. destruct Ef as [Hin Heq].
  apply String.eqb_eq in Heq.
  destruct (deck_filter deckId) as [d | ].
  - destruct (String.eqb (deck_id c0) d); [ | discriminate].
    intros H. inversion H; subst. split; assumption.
  - intros H. inversion H; subst. split; assumption.
Qed.

Lemma map_items_rows db deckId data cs :
  map_items db deckId data = Return cs -> Forall2 card_of_row cs data.
Proof.
  revert cs. induction data as [ | item rest IH]; intros cs; simpl.
  - intros H. inversion H. constructor.
  - unfold to_due_card.
    destruct (embedded_card db deckId item) as [c | ] eqn:Ec; [ | discriminate].
    destruct (map_items db deckId rest) as [cs' | e]; [ | discriminate].
    intros H. inversion H; subst. constructor.
    + apply embedded_card_id in Ec. destruct Ec as [Hid _].
      unfold card_of_row. simpl. auto.
    + apply IH. reflexivity.
Qed.

Lemma map_items_total db deckId data :
  deck_filter deckId = None ->
  (forall r, In r data -> exists c, In c (cards db) /\ id c = card_id r) ->
  exists cs, map_items db deckId data = Return cs.
Proof.
  intros Hd. induction data as [ | item rest IH]; intros Hfk; simpl.
  - eexists. reflexivity.
  - unfold to_due_card, embedded_card. rewrite Hd.
    destruct (find (fun c => String.eqb (id c) (card_id item)) (cards db))
      as [c | ] eqn:Ef.
    + destruct IH as [cs Hcs].
      { intros r Hr. apply Hfk. right. exact Hr. }
      rewrite Hcs. eexists. reflexivity.
    + exfalso. destruct (Hfk item (or_introl eq_refl)) as [c [Hin Hid]].
      apply (find_none _ _ Ef) in Hin. rewrite Hid, String.eqb_refl in Hin.
      discriminate.
Qed.

Lemma ordered_rows_are_due uid now table data :
  ordered_by_next_review_date (filter (is_due uid now) table) data ->
  Forall (fun r => In r table /\ user_id r = uid /\ next_review_date r <= now)
    data.
Proof.
  intros [Hp _]. apply Forall_forall. intros r Hr.
  apply Permutation_sym in Hp.
  apply (Permutation_in _ Hp) in Hr. apply filter_In in Hr.
  destruct Hr as [Hin Hd]. unfold is_due in Hd.
  apply andb_true_iff in Hd. destruct Hd as [Hu Ht].
  apply String.eqb_eq in Hu. apply Z.leb_le in Ht. auto.
Qed.

(** Two ascending arrangements of the same rows coincide when no two
    rows share a review date. *)
Lemma ascending_arrangement_unique (l1 l2 : list CardReview) :
  Permutation l1 l2 ->
  Sorted earlier_or_same l1 -> Sorted earlier_or_same l2 ->
  NoDup (map next_review_date l1) -> l1 = l2.
Proof.
  revert l2. induction l1 as [ | a t IH]; intros l2 Hp H1 H2 Hn.
  - apply Permutation_nil in Hp. subst. reflexivity.
  - destruct l2 as [ | b t2].
    { apply Permutation_sym, Permutation_nil in Hp. discriminate. }
    apply Sorted_StronglySorted in H1; [ | exact earlier_or_same_trans].
    apply Sorted_StronglySorted in H2; [ | exact earlier_or_same_trans].
    inversion H1 as [ | ? ? S1 F1]; subst.
    inversion H2 as [ | ? ? S2 F2]; subst.
    simpl in Hn. inversion Hn as [ | ? ? Hnotin Hn']; subst.
    assert (Hab : a = b).
    { assert (Hb : In b (a :: t)).
      { apply (Permutation_in _ (Permutation_sym Hp)). left. reflexivity. }
      destruct Hb as [Hb | Hb]; [exact Hb | exfalso].
      assert (Ha : In a (b :: t2)).
      { apply (Permutation_in _ Hp). left. reflexivity. }
      destruct Ha as [Ha | Ha]; [subst b; apply Hnotin; apply in_map; exact Hb | ].
      rewrite Forall_forall in F1, F2.
      pose proof (F1 b Hb) as L1. pose proof (F2 a Ha) as L2.
      unfold earlier_or_same in L1, L2.
      apply Hnotin. replace (next_review_date a) with (next_review_date b) by lia.
      apply in_map. exact Hb. }
    subst b. f_equal. apply IH.
    + apply Permutation_cons_inv in Hp. exact Hp.
    + apply StronglySorted_Sorted. exact S1.
    + apply StronglySorted_Sorted. exact S2.
    + exact Hn'.
Qed.

(** ** The claims about [fetchDueCards] *)

(** C5: whatever the stored reviews and the clock reading, every card
    returned by [fetchDueCards] stands for a review row of the learner
    whose [next_review_date] is not after the clock reading, the
    returned sequence follows these rows in non-decreasing
    [next_review_date], and when no card is due the call returns the
    empty sequence and no error; without a deck filter and with every
    review pointing to a stored card, the call returns. *)
Theorem C5_due_cards_are_due_and_ordered :
  forall session fault db now deckId,
    (forall cs,
       fetchDueCards session fault db now deckId (Return cs) ->
       exists s rows,
         session = Some s /\
         Forall2 card_of_row cs rows /\
         Forall (fun r => In r (card_reviews db) /\ user_id r = user s /\
                          next_review_date r <= now) rows /\
         Sorted earlier_or_same rows) /\
    (forall s,
       session = Some s -> fault = None ->
       (forall r, In r (card_reviews db) -> is_due (user s) now r = false) ->
       fetchDueCards session fault db now deckId (Return []) /\
       forall out, fetchDueCards session fault db now deckId out ->
                   out = Return []) /\
    (forall s,
       session = Some s -> fault = None -> deck_filter deckId = None ->
       (forall r, In r (card_reviews db) ->
                  exists c, In c (cards db) /\ id c = card_id r) ->
       exists cs, fetchDueCards session fault db now deckId (Return cs)).
Proof.
  intros session fault db now deckId. split; [ | split].
  - intros cs H. inversion H as [ | | s data Hs Hf Ho Hm]; subst.
    exists s, data. split; [reflexivity | ].
    split; [exact (map_items_rows _ _ _ _ Hm) | ].
    split; [exact (ordered_rows_are_due _ _ _ _ Ho) | exact (proj2 Ho)].
  - intros s Hs Hf Hnone.
    assert (Hempty : filter (is_due (user s) now) (card_reviews db) = []).
    { induction (card_reviews db) as [ | r t IH]; [reflexivity | ].
      simpl. rewrite (Hnone r (or_introl eq_refl)). apply IH.
      intros r' Hr'. apply Hnone. right. exact Hr'. }
    split.
    + change (Return (@nil DueCard)) with (map_items db deckId []).
      apply (fetch_data _ _ _ _ _ s); try assumption.
      rewrite Hempty. split; constructor.
    + intros out H. inversion H as [Hn | s' e Hs' Hf' | s' data Hs' Hf' Ho].
      * congruence.
      * congruence.
      * assert (s' = s) by congruence. subst s'.
        rewrite Hempty in Ho. destruct Ho as [Hp _].
        apply Permutation_nil in Hp. subst data. reflexivity.
  - intros s Hs Hf Hd Hfk.
    destruct (map_items_total db deckId
                (sort_by_date (filter (is_due (user s) now) (card_reviews db)))
                Hd) as [cs Hcs].
    { intros r Hr. apply Hfk.
      pose proof (sort_by_date_ordered
                    (filter (is_due (user s) now) (card_reviews db))) as [Hp _].
      apply (Permutation_in _ (Permutation_sym Hp)) in Hr.
      apply filter_In in Hr. tauto. }
    exists cs. rewrite <- Hcs.
    apply (fetch_data _ _ _ _ _ s); try assumption.
    apply sort_by_date_ordered.
Qed.

Lemma C5_at_apart_db :
  exists cs,
    fetchDueCards (Some learner) None apart_db 5 None (Return cs) /\
    exists s rows,
      Some learner = Some s /\
      Forall2 card_of_row cs rows /\
      Forall (fun r => In r (card_reviews apart_db) /\ user_id r = user s /\
                       next_review_date r <= 5) rows /\
      Sorted earlier_or_same rows.
Proof.
  destruct (proj2 (proj2 (C5_due_cards_are_due_and_ordered
                            (Some learner) None apart_db 5 None))
              learner eq_refl eq_refl eq_refl) as [cs Hcs].
  { intros r [<- | [<- | []]]; [exists (a_card "b") | exists (a_card "a")];
      split; simpl; auto. }
  exists cs. split; [exact Hcs | ].
  exact (proj1 (C5_due_cards_are_due_and_ordered
                  (Some learner) None apart_db 5 None) cs Hcs).
Defined.

(** C6, as stated, does not hold: two runs on the same stored reviews
    and the same clock reading may return the cards in different
    orders, since reviews with equal [next_review_date] are ordered by
    no further key. *)
Lemma C6_ties_are_not_broken :
  ~ (forall session fault db now deckId cs1 cs2,
       fetchDueCards session fault db now deckId (Return cs1) ->
       fetchDueCards session fault db now deckId (Return cs2) ->
       map dc_id cs1 = map dc_id cs2).
Proof.
  intros H.
  assert (H1 : fetchDueCards (Some learner) None tie_db 5 None
                 (map_items tie_db None [a_review "a" 0; a_review "b" 0])).
  { apply (fetch_data _ _ _ _ _ learner); try reflexivity.
    split; [apply Permutation_refl | ].
    repeat constructor; unfold earlier_or_same; simpl; lia. }
  assert (H2 : fetchDueCards (Some learner) None tie_db 5 None
                 (map_items tie_db None [a_review "b" 0; a_review "a" 0])).
  { apply (fetch_data _ _ _ _ _ learner); try reflexivity.
    split; [apply perm_swap | ].
    repeat constructor; unfold earlier_or_same; simpl; lia. }
  specialize (H _ _ _ _ _ _ _ H1 H2). discriminate H.
Qed.

(** C6, amended: two runs of [fetchDueCards] on the same stored reviews
    and the same clock reading return the same outcome, hence the same
    sequence of card ids, whenever no two due reviews of the learner
    share a [next_review_date]. *)
Theorem C6_reproducible_without_ties :
  forall session fault db now deckId out1 out2,
    (forall s, session = Some s ->
       NoDup (map next_review_date
                (filter (is_due (user s) now) (card_reviews db)))) ->
    fetchDueCards session fault db now deckId out1 ->
    fetchDueCards session fault db now deckId out2 ->
    out1 = out2.
Proof.
  intros session fault db now deckId out1 out2 Hn H1 H2.
  inversion H1 as [Hs1 | s1 e1 Hs1 Hf1 | s1 d1 Hs1 Hf1 Ho1];
    inversion H2 as [Hs2 | s2 e2 Hs2 Hf2 | s2 d2 Hs2 Hf2 Ho2];
    subst; try congruence.
  assert (s2 = s1) by congruence. subst s2.
  f_equal. destruct Ho1 as [P1 S1], Ho2 as [P2 S2].
  apply ascending_arrangement_unique; try assumption.
  - eapply perm_trans; [apply Permutation_sym; exact P1 | exact P2].
  - eapply Permutation_NoDup; [ | apply (Hn s1 eq_refl)].
    apply Permutation_map. exact P1.
Qed.

Lemma C6_at_apart_db :
  NoDup (map next_review_date
           (filter (is_due "u" 5) (card_reviews apart_db))) /\
  fetchDueCards_run (Some learner) None apart_db 5 None =
  map_items apart_db None [a_review "a" 1; a_review "b" 3].
Proof.
  assert (Hn : NoDup (map next_review_date
                        (filter (is_due "u" 5) (card_reviews apart_db)))).
  { simpl. repeat constructor; simpl; intuition discriminate. }
  split; [exact Hn | ].
  apply (C6_reproducible_without_ties (Some learner) None apart_db 5 None).
  - intros s Hs. inversion Hs; subst. exact Hn.
  - apply fetchDueCards_run_admissible.
  - apply (fetch_data _ _ _ _ _ learner); try reflexivity.
    split; [apply perm_swap | ].
    repeat constructor; unfold earlier_or_same; simpl; lia.
Defined.

End DueSelection.

(** * Streaks *)

Section Streaks.
Import Streak Scenario.
Local Open Scope string_scope.
Local Open Scope Z_scope.

Lemma same_date_iff (a : option date) (b : date) :
  same_date a b = true <-> a = Some b.
Proof.
  destruct a as [d | ]; simpl.
  - rewrite Z.eqb_eq. split; intros H; [subst; reflexivity | congruence].
  - split; discriminate.
Qed.

Lemma same_date_false (a : option date) (b : date) :
  same_date a b = false <-> a <> Some b.
Proof.
  rewrite <- same_date_iff. destruct (same_date a b); split; congruence.
Qed.

Lemma filter_update_profile (userId : uuid) (today : date) (n : Z)
    (profiles : list Profile) :
  filter (fun p => String.eqb (id p) userId)
         (update_profile userId today n profiles) =
  map (write_streak today n)
      (filter (fun p => String.eqb (id p) userId) profiles).
Proof.
  unfold update_profile.
  induction profiles as [ | p t IH]; simpl; [reflexivity | ].
  destruct (String.eqb (id p) userId) eqn:E; simpl; rewrite E.
  - simpl. f_equal. exact IH.
  - exact IH.
Qed.

Lemma single_update_profile (userId : uuid) (today : date) (n : Z)
    (profiles : list Profile) :
  single userId (update_profile userId today n profiles) =
  option_map (write_streak today n) (single userId profiles).
Proof.
  unfold single. rewrite filter_update_profile.
  destruct (filter (fun p => String.eqb (id p) userId) profiles)
    as [ | p [ | q t]]; reflexivity.
Qed.

(** [updateUserStreak] changes the stored profile of the user as
    [study] does. *)
Lemma updateUserStreak_study (zone : Zone) (profiles : list Profile)
    (userId : uuid) (now now' : instant) :
  single userId (updateUserStreak zone profiles userId now now') =
  option_map (fun p => study zone p now now') (single userId profiles).
Proof.
  unfold updateUserStreak, study. cbv zeta.
  destruct (single userId profiles) as [p | ] eqn:Ef.
  - destruct (negb (same_date (last_study_date p) (iso_date now))) eqn:E.
    + rewrite single_update_profile, Ef. simpl. rewrite E. reflexivity.
    + rewrite Ef. simpl. rewrite E. reflexivity.
  - rewrite Ef. reflexivity.
Qed.

(** The profiles of the other users are left as they are. *)
Lemma updateUserStreak_others (zone : Zone) (profiles : list Profile)
    (userId : uuid) (now now' : instant) (p : Profile) :
  In p profiles -> id p <> userId ->
  In p (updateUserStreak zone profiles userId now now').
Proof.
  intros Hin Hid. unfold updateUserStreak.
  destruct (single userId profiles) as [q | ]; [ | exact Hin].
  cbv zeta. destruct (negb _); [ | exact Hin].
  unfold update_profile. apply in_map_iff. exists p. split; [ | exact Hin].
  destruct (String.eqb_spec (id p) userId); [contradiction | reflexivity].
Qed.

Lemma study_same_day (zone : Zone) (profile : Profile) (now now' : instant) :
  last_study_date profile = Some (iso_date now) ->
  study zone profile now now' = profile.
Proof.
  intros H. unfold study. cbv zeta. apply same_date_iff in H. rewrite H.
  reflexivity.
Qed.

(** The branch that the code marks as the consecutive day. *)
Lemma study_consecutive (zone : Zone) (profile : Profile) (now now' : instant) :
  last_study_date profile <> Some (iso_date now) ->
  last_study_date profile =
    Some (iso_date (setDate_getDate_minus_1 zone now')) ->
  study zone profile now now' =
    write_streak (iso_date now) (streak_count profile + 1) profile.
Proof.
  intros H1 H. unfold study, next_streak. cbv zeta.
  apply same_date_false in H1. apply same_date_iff in H.
  rewrite H1, H. reflexivity.
Qed.

Lemma study_after_gap (zone : Zone) (profile : Profile) (now now' : instant) :
  last_study_date profile <> Some (iso_date now) ->
  last_study_date profile <>
    Some (iso_date (setDate_getDate_minus_1 zone now')) ->
  study zone profile now now' = write_streak (iso_date now) 1 profile.
Proof.
  intros H1 H2. unfold study, next_streak. cbv zeta.
  apply same_date_false in H1. apply same_date_false in H2.
  rewrite H1, H2. reflexivity.
Qed.

(** On a host whose offset from UTC does not change, and with both
    clock readings on one UTC day, [yesterdayStr] is the day before
    [today]. *)
Lemma steady_yesterday (zone : Zone) (offset : Z) (now now' : instant) :
  steady zone offset -> iso_date now' = iso_date now ->
  iso_date (setDate_getDate_minus_1 zone now') = iso_date now - 1.
Proof.
  intros Hz Hd. unfold setDate_getDate_minus_1. cbv zeta.
  rewrite (proj1 (Hz now')), (proj2 (Hz (now' + offset - ms_per_day))).
  rewrite <- Hd. unfold iso_date, ms_per_day.
  replace (now' + offset - 86400000 - offset) with (now' + (-1) * 86400000)
    by lia.
  rewrite Z.div_add by lia. lia.
Qed.

(** There the update is the one of the streak tracker: a study on the
    day after the last one adds 1 to the streak, a study after a longer
    gap, or the first one, sets it to 1. *)
Lemma steady_zone_streak_update (zone : Zone) (offset : Z)
    (profile : Profile) (now now' : instant) :
  steady zone offset -> iso_date now' = iso_date now ->
  (last_study_date profile = Some (iso_date now - 1) ->
   study zone profile now now' =
     write_streak (iso_date now) (streak_count profile + 1) profile) /\
  (last_study_date profile <> Some (iso_date now) ->
   last_study_date profile <> Some (iso_date now - 1) ->
   study zone profile now now' = write_streak (iso_date now) 1 profile).
Proof.
  intros Hz Hd. pose proof (steady_yesterday zone offset now now' Hz Hd) as Hy.
  split.
  - intros H. apply study_consecutive.
    + rewrite H. intros E. inversion E. lia.
    + rewrite Hy. exact H.
  - intros H1 H2. apply study_after_gap; [exact H1 | ].
    rewrite Hy. exact H2.
Qed.

(** ** The claims about the streak *)

(** C7 does not hold of the code.  [updateUserStreak] takes [today]
    from the UTC date of the clock, and [yesterdayStr] from the local
    time moved back by one calendar day and read in UTC again: in New
    York at 19:30 of the day of the change to daylight time, the local
    day before starts 23 hours earlier, the date found is the one of
    today, and a learner on a four-day streak who studied the day before
    is reset to a streak of 1, where the claim has 5.  [updateStreak]
    counts full periods of 24 hours between two instants: a study at
    23:00 and the next one at 01:00 of the following day leave the
    streak at 4, where the claim has 5. *)
Theorem C7_day_after_is_not_counted :
  (iso_date evening_of_the_change = 18700 /\
   last_study_date new_yorker = Some (18700 - 1) /\
   streak_count new_yorker = 4 /\
   single "u"
     (updateUserStreak new_york [new_yorker] "u"
        evening_of_the_change evening_of_the_change) =
   Some {| id := "u"; streak_count := 1; last_study_date := Some 18700;
           total_cards_studied := None |}) /\
  (iso_date late_at_night = 18700 - 1 /\
   iso_date early_next_day = 18700 /\
   updateStreak 4 early_next_day late_at_night = 4).
Proof. repeat split; vm_compute; reflexivity. Qed.




End Streaks.

(** * Further properties of the review calculator *)

Section MoreOnTheCalculator.
Import JS SM2 Scenario Builtins Examples.

Lemma all_below_spec (k : nat) (f : Z -> bool) :
  all_below k f = true -> forall n, 0 <= n < Z.of_nat k -> f n = true.
Proof.
  induction k as [ | k IH]; simpl; intros H n Hn; [lia | ].
  apply andb_true_iff in H. destruct H as [Hk Hrest].
  destruct (Z.eq_dec n (Z.of_nat k)) as [-> | Hne]; [exact Hk | ].
  apply IH; [exact Hrest | lia].
Qed.

(** The number of an integer from [2 ^ k] on is positive, canonical and
    of magnitude above [k]. *)
Lemma of_Z_large (k n : Z) :
  0 <= k -> 2 ^ k <= n ->
  of_Z n = S754_infinity false \/
  exists m e, of_Z n = S754_finite false m e /\
              Z.pos (digits2_pos m) = 53 /\ k - 52 <= e.
Proof.
  intros Hk Hn.
  assert (Hpos : 0 < 2 ^ k) by (apply Z.pow_pos_nonneg; lia).
  destruct n as [ | p | p]; try lia.
  unfold of_Z. simpl binary_normalize.
  pose proof (binary_round_spec false p 0) as Hs.
  pose proof (Zdigits2_gt_of_pow_le (Z.pos p) k Hk Hn) as Hd.
  simpl Zdigits2 in Hd. unfold magnitude in Hs.
  destruct (binary_round prec emax false p 0) as [s | s | | s m e].
  - lia.
  - destruct Hs as [-> _]. left. reflexivity.
  - contradiction.
  - destruct Hs as [-> [Hd2 [Hm [He Hc]]]]. right. exists m, e.
    rewrite fexp_eq in Hc. split; [reflexivity | lia].
Qed.

Lemma of_Z_large_above (k n : Z) (mc : positive) (ec : Z) :
  0 <= k -> 2 ^ k <= n -> ec < k - 52 ->
  lt (of_Z n) (S754_finite false mc ec) = false /\
  le (S754_finite false mc ec) (of_Z n) = true.
Proof.
  intros Hk Hn Hec.
  destruct (of_Z_large k n Hk Hn) as [-> | [m [e [-> [Hd He]]]]].
  - split; reflexivity.
  - assert (Hle : le (S754_finite false mc ec) (S754_finite false m e) = true).
    { apply SFleb_finite_pos. left. lia. }
    split; [ | exact Hle]. apply le_not_gt in Hle. exact Hle.
Qed.

Lemma of_Z_negative (n : Z) :
  n < 0 ->
  of_Z n = S754_infinity true \/ exists m e, of_Z n = S754_finite true m e.
Proof.
  intros Hn. destruct n as [ | p | p]; try lia.
  unfold of_Z. simpl binary_normalize.
  pose proof (binary_round_spec true p 0) as Hs. unfold magnitude in Hs.
  destruct (binary_round prec emax true p 0) as [s | s | | s m e].
  - lia.
  - destruct Hs as [-> _]. left. reflexivity.
  - contradiction.
  - destruct Hs as [-> _]. right. eauto.
Qed.

(** X1: [isCardMature] holds of a whole number of days exactly from 21
    on. *)
Theorem isCardMature_on_integers :
  forall n : Z, isCardMature (of_Z n) = true <-> 21 <= n.
Proof.
  intros n. unfold isCardMature.
  destruct (Z_lt_le_dec n 0) as [Hneg | Hnn].
  - split; [ | lia]. intros H. exfalso.
    destruct (of_Z_negative n Hneg) as [E | [m [e E]]]; rewrite E in H;
      discriminate H.
  - destruct (Z_lt_le_dec n 32) as [Hsmall | Hbig].
    + assert (Hall : all_below 32
                (fun k => Bool.eqb (le lit_21 (of_Z k)) (21 <=? k)) = true)
        by (vm_compute; reflexivity).
      pose proof (all_below_spec _ _ Hall n ltac:(simpl; lia)) as Hk.
      simpl in Hk. apply eqb_prop in Hk. rewrite Hk. apply Z.leb_le.
    + split; [lia | intros _].
      apply (of_Z_large_above 5 n); simpl; lia.
Qed.


(** X3: a card without a success in a row is due again one day after
    the clock reading of the call, whatever the rating, and is not
    mature. *)
Theorem new_card_is_due_next_day :
  forall now input,
    in_range (quality input) = true ->
    (exists s, repetitions input = S754_zero s) ->
    exists r,
      calculateSM2 now input = Return r /\
      r_interval r = lit_1 /\
      r_nextReviewDate r = {| created := now; days_added := lit_1 |} /\
      (r_repetitions r = lit_0 \/ r_repetitions r = lit_1) /\
      isCardMature (r_interval r) = false.
Proof.
  intros now input Hr [s Hs].
  rewrite (calculateSM2_in_range now input Hr). cbv zeta.
  eexists. split; [reflexivity | ].
  cbn [r_interval r_repetitions r_nextReviewDate].
  rewrite Hs.
  destruct (lt (quality input) lit_3); cbn [fst snd].
  - repeat split; auto.
  - replace (add (S754_zero s) lit_1) with lit_1 by (destruct s; reflexivity).
    repeat split; auto.
Qed.

(** X4: the calculator of the design notes agrees with the one of the
    library on every rating that the library accepts. *)
Theorem design_notes_agree :
  forall now input,
    in_range (quality input) = true ->
    let r' := DesignNotes.calculateSM2 (quality input) (repetitions input)
                (easeFactor input) (interval input) in
    exists r,
      calculateSM2 now input = Return r /\
      r_interval r = DesignNotes.interval r' /\
      r_repetitions r = DesignNotes.repetitions r' /\
      r_easeFactor r = DesignNotes.easeFactor r'.
Proof.
  intros now input Hr r'.
  rewrite (calculateSM2_in_range now input Hr). cbv zeta.
  eexists. split; [reflexivity | ].
  subst r'. unfold DesignNotes.calculateSM2, ease_update.
  cbn [r_interval r_repetitions r_easeFactor].
  destruct (lt (quality input) lit_3); repeat split; reflexivity.
Qed.

(** With rating 4 the ease factor stays as it is. *)
Lemma ease_unchanged_at_4 (ease : number) :
  le lit_1_3 ease = true ->
  Math_max lit_1_3 (ease_update lit_4 ease) = ease.
Proof.
  intros Hle.
  assert (Hu : ease_update lit_4 ease = ease).
  { unfold ease_update.
    replace (sub lit_0_1
               (mul (sub lit_5 lit_4)
                  (add lit_0_08 (mul (sub lit_5 lit_4) lit_0_02))))
      with (S754_zero false) by (vm_compute; reflexivity).
    unfold le in Hle.
    destruct ease as [s | s | | s m e]; try discriminate Hle; reflexivity. }
  rewrite Hu.
  pose proof (le_not_nan _ _ Hle) as [_ Hn].
  rewrite Math_max_1_3 by exact Hn.
  unfold gt. destruct (SFltb lit_1_3 ease) eqn:Hlt; [reflexivity | ].
  symmetry. apply SFeqb_finite_eq.
  change (SFeqb ease lit_1_3 = true).
  unfold SFeqb. unfold le, SFleb in Hle. unfold SFltb in Hlt.
  rewrite (SFcompare_antisym lit_1_3 ease).
  destruct (SFcompare lit_1_3 ease) as [[ | | ] | ]; simpl;
    try reflexivity; discriminate.
Qed.

(** X5: the suggestion labelled good is the interval that rating 4,
    which keeps the ease factor, gives from the third success on. *)
Theorem good_suggestion_is_rating_4 :
  forall (Number_toString : number -> string) now input,
    quality input = lit_4 ->
    le lit_1_3 (easeFactor input) = true ->
    strict_eq (add (repetitions input) lit_1) lit_1 = false ->
    strict_eq (add (repetitions input) lit_1) lit_2 = false ->
    exists r,
      calculateSM2 now input = Return r /\
      r_easeFactor r = easeFactor input /\
      Suggestions.good
        (Suggestions.getSuggestedIntervals Number_toString
           (interval input) (easeFactor input)) =
      Suggestions.days Number_toString (r_interval r).
Proof.
  intros ts now input Hq He E1 E2.
  assert (Hr : in_range (quality input) = true) by (rewrite Hq; reflexivity).
  rewrite (calculateSM2_in_range now input Hr). cbv zeta.
  eexists. split; [reflexivity | ].
  cbn [r_interval r_easeFactor]. rewrite Hq.
  rewrite (ease_unchanged_at_4 _ He).
  split; [reflexivity | ].
  replace (lt lit_4 lit_3) with false by reflexivity. cbn [snd].
  rewrite E1, E2. reflexivity.
Qed.

End MoreOnTheCalculator.


Lemma next_day_at_first_good_rating :
  in_range (SM2.quality (StudyPage.demo_input SM2.QUALITY_GOOD)) = true /\
  (exists s, SM2.repetitions (StudyPage.demo_input SM2.QUALITY_GOOD) =
             S754_zero s) /\
  exists r,
    SM2.calculateSM2 0 (StudyPage.demo_input SM2.QUALITY_GOOD) = Return r /\
    SM2.r_interval r = JS.lit_1 /\
    SM2.r_nextReviewDate r =
      {| SM2.created := 0; SM2.days_added := JS.lit_1 |} /\
    (SM2.r_repetitions r = JS.lit_0 \/ SM2.r_repetitions r = JS.lit_1) /\
    SM2.isCardMature (SM2.r_interval r) = false.
Proof.
  split; [reflexivity | ]. split; [exists false; reflexivity | ].
  apply (new_card_is_due_next_day 0 (StudyPage.demo_input SM2.QUALITY_GOOD)).
  - reflexivity.
  - exists false. reflexivity.
Defined.

Lemma design_notes_at_good_after_two :
  in_range (SM2.quality Scenario.good_after_two) = true /\
  exists r,
    SM2.calculateSM2 0 Scenario.good_after_two = Return r /\
    SM2.r_interval r = Scenario.lit_14 /\
    DesignNotes.interval
      (DesignNotes.calculateSM2 SM2.QUALITY_GOOD JS.lit_2 Scenario.lit_2_5
         JS.lit_6) = Scenario.lit_14.
Proof.
  split; [reflexivity | ].
  destruct (design_notes_agree 0 Scenario.good_after_two eq_refl)
    as [r [Hr [Hi _]]].
  exists r. split; [exact Hr | ].
  assert (E : SM2.r_interval r = Scenario.lit_14).
  { vm_compute in Hr. inversion Hr. reflexivity. }
  split; [exact E | ]. rewrite <- E. symmetry. exact Hi.
Defined.

Lemma good_suggestion_at_rated_4_after_two :
  SM2.quality Examples.rated_4_after_two = Examples.lit_4 /\
  JS.le JS.lit_1_3 (SM2.easeFactor Examples.rated_4_after_two) = true /\
  exists r,
    SM2.calculateSM2 0 Examples.rated_4_after_two = Return r /\
    SM2.r_easeFactor r = SM2.easeFactor Examples.rated_4_after_two /\
    Suggestions.good
      (Suggestions.getSuggestedIntervals Examples.signed
         (SM2.interval Examples.rated_4_after_two)
         (SM2.easeFactor Examples.rated_4_after_two)) =
    Suggestions.days Examples.signed (SM2.r_interval r).
Proof.
  split; [reflexivity | ]. split; [reflexivity | ].
  apply (good_suggestion_is_rating_4 Examples.signed 0
           Examples.rated_4_after_two); reflexivity.
Defined.


(** * Submitting reviews and the study page *)

Lemma calculateSM2_passes (now : Z) (input : SM2.SM2Input) :
  JS.lt (SM2.quality input) JS.lit_0 || JS.gt (SM2.quality input) JS.lit_5 = false ->
  SM2.calculateSM2 now input =
    let ease' := JS.Math_max JS.lit_1_3
                   (SM2.ease_update (SM2.quality input) (SM2.easeFactor input)) in
    let ri :=
      if JS.lt (SM2.quality input) JS.lit_3 then (JS.lit_0, JS.lit_1)
      else (JS.add (SM2.repetitions input) JS.lit_1,
            if JS.strict_eq (JS.add (SM2.repetitions input) JS.lit_1) JS.lit_1
            then JS.lit_1
            else if JS.strict_eq (JS.add (SM2.repetitions input) JS.lit_1) JS.lit_2
                 then JS.lit_6
                 else JS.Math_round (JS.mul (SM2.interval input) ease')) in
    Return {| SM2.r_interval := snd ri; SM2.r_repetitions := fst ri;
              SM2.r_easeFactor := ease';
              SM2.r_nextReviewDate :=
                {| SM2.created := now; SM2.days_added := snd ri |} |}.
Proof.
  intros Hg. unfold SM2.calculateSM2. rewrite Hg.
  destruct (JS.lt (SM2.quality input) JS.lit_3); reflexivity.
Qed.

Section Submitting.
Import JS SM2 Submission.

Variable valid_date : SM2.Date -> bool.
Variable zone : Streak.Zone.

(** X6: a call either stores the review and then updates the streak, or
    rejects and leaves the profiles as they were; it issues no update
    without a session, after an error of the fetch, or for a rating
    that fails the range check. *)
Theorem submit_all_or_nothing :
  forall session fetched updateError t1 t2 t3 profs t4 t5 cardId q,
    let r := submitCardReview valid_date zone session fetched updateError
               t1 t2 t3 profs t4 t5 cardId q in
    (thrown r = None <-> stored r = true) /\
    (stored r = false -> profiles r = profs) /\
    (stored r = true ->
     exists s, session = Some s /\
               profiles r = Streak.updateUserStreak zone profs
                              (StudySession.user s) t4 t5) /\
    (request r = None -> stored r = false) /\
    (session = None ->
     request r = None /\ thrown r = Some "Not authenticated"%string) /\
    (forall fetchError,
       fetched = Throw fetchError ->
       request r = None /\
       forall s, session = Some s -> thrown r = Some fetchError) /\
    (lt q lit_0 || gt q lit_5 = true ->
     request r = None /\
     forall s cr, session = Some s -> fetched = Return cr ->
                  thrown r = Some invalid_quality).
Proof.
  intros session fetched updateError t1 t2 t3 profs t4 t5 cardId q r.
  subst r. unfold submitCardReview.
  destruct session as [s | ];
    [ | simpl; repeat split; intros; try discriminate; eauto].
  destruct fetched as [cr | e];
    [ | simpl; repeat split; intros; try discriminate; try congruence; eauto].
  destruct (calculateSM2 t1 _) as [res | e] eqn:Ec.
  - assert (Hg : lt q lit_0 || gt q lit_5 = false).
    { destruct (lt q lit_0 || gt q lit_5) eqn:Hg; [ | reflexivity].
      unfold calculateSM2 in Ec. cbn [quality] in Ec. rewrite Hg in Ec.
      discriminate Ec. }
    rewrite Hg.
    destruct (valid_date (r_nextReviewDate res));
      [destruct updateError as [e | ] | ]; simpl;
      repeat split; intros; try discriminate; eauto.
  - apply calculateSM2_throws in Ec. destruct Ec as [Hg ->].
    cbn [quality] in Hg. simpl.
    repeat split; intros; try discriminate; eauto.
Qed.

(** X7: the update that a call issues extends the history by one entry for
    this review, keeps the ease factor from falling below 1.3, and marks
    the card mature only from the third success in a row on. *)
Theorem submitted_update :
  forall session fetched updateError t1 t2 t3 profs t4 t5 cardId q req,
    request (submitCardReview valid_date zone session fetched updateError
               t1 t2 t3 profs t4 t5 cardId q) = Some req ->
    exists s cr,
      session = Some s /\ fetched = Return cr /\
      for_card req = cardId /\ for_user req = StudySession.user s /\
      lt q lit_0 = false /\ gt q lit_5 = false /\
      u_quality (payload req) = q /\
      u_review_history (payload req) =
        review_history cr ++
        [{| date := t3; h_quality := q;
            h_interval := u_interval (payload req) |}] /\
      lt (u_ease_factor (payload req)) lit_1_3 = false /\
      (lt q lit_3 = true ->
       u_repetitions (payload req) = lit_0 /\
       u_interval (payload req) = lit_1 /\
       u_is_mature (payload req) = false) /\
      (u_is_mature (payload req) = true ->
       strict_eq (u_repetitions (payload req)) lit_1 = false /\
       strict_eq (u_repetitions (payload req)) lit_2 = false).
Proof.
  intros session fetched updateError t1 t2 t3 profs t4 t5 cardId q req.
  unfold submitCardReview.
  destruct session as [s | ]; [ | discriminate].
  destruct fetched as [cr | e]; [ | discriminate].
  destruct (lt q lit_0 || gt q lit_5) eqn:Hg.
  { unfold calculateSM2. cbn [quality]. rewrite Hg. discriminate. }
  rewrite calculateSM2_passes by exact Hg. cbv zeta.
  cbn [quality SM2.repetitions easeFactor SM2.interval
       r_interval r_repetitions r_easeFactor r_nextReviewDate].
  apply orb_false_iff in Hg. destruct Hg as [Hg0 Hg5].
  set (ease' := Math_max lit_1_3 (ease_update q (ease_factor cr))).
  assert (He : lt ease' lit_1_3 = false) by apply Math_max_1_3_not_below.
  set (reps' := add (Submission.repetitions cr) lit_1).
  destruct (valid_date _); [ | discriminate].
  destruct (lt q lit_3) eqn:Hq; cbn [fst snd];
    [ | destruct (strict_eq reps' lit_1) eqn:E1;
        [ | destruct (strict_eq reps' lit_2) eqn:E2]];
    destruct updateError as [e | ]; cbn [request]; intros H; inversion H;
    subst req; exists s, cr; cbn [payload for_card for_user u_quality
      u_review_history u_interval u_ease_factor u_repetitions u_is_mature];
    repeat split; auto; try congruence;
    try (exfalso; match goal with
                  | Hm : le lit_21 _ = true |- _ => discriminate Hm
                  end).
Qed.

End Submitting.

Lemma update_at_stored_review :
  exists req,
    Submission.request
      (Submission.submitCardReview Examples.every_date_valid Scenario.utc
         (Some Scenario.learner) (Return Examples.stored_review) None
         0 0 0 [Scenario.some_learner] 0 0 "a"%string Examples.lit_4) =
    Some req /\
    Submission.u_review_history (Submission.payload req) =
      [{| Submission.date := 0; Submission.h_quality := Examples.lit_4;
          Submission.h_interval := Scenario.lit_15 |}] /\
    Submission.u_is_mature (Submission.payload req) = false.
Proof.
  eexists. split; [reflexivity | ].
  destruct (submitted_update Examples.every_date_valid Scenario.utc
              (Some Scenario.learner) (Return Examples.stored_review) None
              0 0 0 [Scenario.some_learner] 0 0 "a"%string Examples.lit_4 _
              eq_refl)
    as [s [cr [_ [Hcr [_ [_ [_ [_ [_ [Hh _]]]]]]]]]].
  split; [ | reflexivity].
  inversion Hcr. subst cr. exact Hh.
Defined.

Section OnTheStudyPage.
Import JS SM2 Builtins StudyPage.

Lemma moveToNextCard_on_a_card (s : State) :
  on_a_card s -> on_a_card (moveToNextCard (render s) s).
Proof.
  unfold on_a_card, moveToNextCard, render. cbn [seen_currentCardIndex].
  intros [H | H]; rewrite H.
  - right. reflexivity.
  - right. exact H.
Qed.

Lemma moveToPreviousCard_on_a_card (s : State) :
  on_a_card s -> on_a_card (moveToPreviousCard (render s) s).
Proof.
  unfold on_a_card, moveToPreviousCard, render. cbn [seen_currentCardIndex].
  intros [H | H]; rewrite H.
  - left. exact H.
  - left. reflexivity.
Qed.

Lemma handleRate_returns (now : Z) (q : number) (c : Captured) (s : State) :
  in_range q = true -> exists s', handleRate now q c s = Return s'.
Proof.
  intros Hq. unfold handleRate.
  rewrite (calculateSM2_in_range now (demo_input q) Hq). cbv zeta. eauto.
Qed.

Lemma handleRate_rating (now : Z) (q : number) (s : State) :
  in_range q = true -> on_a_card s ->
  exists s', handleRate now q (render s) s = Return s' /\ on_a_card s'.
Proof.
  intros Hq Hs. unfold handleRate.
  rewrite (calculateSM2_in_range now (demo_input q) Hq). cbv zeta.
  eexists. split; [reflexivity | ].
  apply (moveToNextCard_on_a_card
           {| currentCardIndex := currentCardIndex s;
              isFlipped := isFlipped s;
              studyStats := _ |}).
  exact Hs.
Qed.

Lemma handleKeyPress_returns (e : KeyPress) (c : Captured) (s : State) :
  exists s', handleKeyPress e c s = Return s'.
Proof.
  unfold handleKeyPress.
  destruct (on_input e); [eauto | ].
  destruct (String.eqb (key e) " "); [eauto | ].
  destruct (String.eqb (key e) "1"); [apply handleRate_returns; auto | ].
  destruct (String.eqb (key e) "2"); [apply handleRate_returns; auto | ].
  destruct (String.eqb (key e) "3"); [apply handleRate_returns; auto | ].
  destruct (String.eqb (key e) "4"); [apply handleRate_returns; auto | ].
  destruct (String.eqb (key e) "ArrowLeft"); [eauto | ].
  destruct (String.eqb (key e) "ArrowRight"); eauto.
Qed.

Lemma handleKeyPress_on_a_card (e : KeyPress) (s : State) :
  on_a_card s ->
  exists s', handleKeyPress e (render s) s = Return s' /\ on_a_card s'.
Proof.
  intros Hs. unfold handleKeyPress.
  destruct (on_input e); [eauto | ].
  destruct (String.eqb (key e) " "); [eexists; split; [reflexivity | exact Hs] | ].
  destruct (String.eqb (key e) "1"); [apply handleRate_rating; auto | ].
  destruct (String.eqb (key e) "2"); [apply handleRate_rating; auto | ].
  destruct (String.eqb (key e) "3"); [apply handleRate_rating; auto | ].
  destruct (String.eqb (key e) "4"); [apply handleRate_rating; auto | ].
  destruct (String.eqb (key e) "ArrowLeft").
  { eexists. split; [reflexivity | ].
    apply moveToPreviousCard_on_a_card. exact Hs. }
  destruct (String.eqb (key e) "ArrowRight").
  { eexists. split; [reflexivity | ].
    apply moveToNextCard_on_a_card. exact Hs. }
  eauto.
Qed.

Lemma handle_all_returns (evs : list Event) :
  forall p, exists p', handle_all evs p = Return p'.
Proof.
  induction evs as [ | ev rest IH]; intros p; simpl; [eauto | ].
  destruct ev as [ | e]; simpl; [apply IH | ].
  destruct (handleKeyPress_returns e (listening p) (state p)) as [s' ->].
  apply IH.
Qed.

Lemma handle_all_on_a_card (evs : list Event) :
  forall p fresh,
    on_a_card (state p) ->
    (fresh = true -> listening p = render (state p)) ->
    rendered_between_keys fresh evs = true ->
    exists p', handle_all evs p = Return p' /\ on_a_card (state p').
Proof.
  induction evs as [ | ev rest IH]; intros p fresh Hs Hc Hr; simpl.
  - eauto.
  - destruct ev as [ | e]; simpl in *.
    + apply (IH _ true); [exact Hs | reflexivity | exact Hr].
    + apply andb_true_iff in Hr. destruct Hr as [Hf Hr].
      rewrite (Hc Hf).
      destruct (handleKeyPress_on_a_card e (state p) Hs) as [s' [-> Hs']].
      apply (IH _ false); [exact Hs' | discriminate | exact Hr].
Qed.

(** X8: whatever keys are pressed, no handler throws; when the page
    renders between any two key presses it always shows one of its
    cards; two presses of the right arrow key that the handlers of one
    render receive take it past its last card. *)
Theorem study_page_stays_on_a_card :
  (forall (evs : list Event) (t0 : Z),
     exists p,
       handle_all evs (mounted t0) = Return p /\
       (rendered_between_keys true evs = true ->
        exists card,
          currentCard (state p) = Some card /\ In card mockCards)) /\
  (forall t0 : Z,
     exists p,
       handle_all [Pressed arrow_right; Pressed arrow_right] (mounted t0) =
       Return p /\
       currentCard (state p) = None).
Proof.
  split.
  - intros evs t0.
    destruct (handle_all_returns evs (mounted t0)) as [p Hp].
    exists p. split; [exact Hp | ]. intros Hr.
    destruct (handle_all_on_a_card evs (mounted t0) true) as [p' [Hp' Hs]];
      [left; reflexivity | reflexivity | exact Hr | ].
    assert (p' = p) by congruence. subst p'.
    unfold currentCard.
    destruct Hs as [Hi | Hi]; rewrite Hi; eexists;
      (split; [reflexivity | simpl; auto]).
  - intros t0. eexists. split; reflexivity.
Qed.

End OnTheStudyPage.

(** * Strings, cloze cards, example sentences, due cards of a deck *)

Section OnStrings.
Local Open Scope string_scope.

Lemma string_length_app (s t : string) :
  String.length (s ++ t) = (String.length s + String.length t)%nat.
Proof. induction s as [ | a s IH]; simpl; [reflexivity | rewrite IH; reflexivity]. Qed.

Lemma substring_all (s : string) : String.substring 0 (String.length s) s = s.
Proof. induction s as [ | a s IH]; simpl; [reflexivity | rewrite IH; reflexivity]. Qed.

Lemma substring_length (s : string) :
  forall n m, (n + m <= String.length s)%nat ->
              String.length (String.substring n m s) = m.
Proof.
  induction s as [ | a s IH]; intros n m H; simpl in H.
  - assert (n = O) by lia. assert (m = O) by lia. subst. reflexivity.
  - destruct n as [ | n].
    + destruct m as [ | m]; [reflexivity | ].
      simpl. rewrite (IH O m) by lia. reflexivity.
    + simpl. apply IH. lia.
Qed.

Lemma substring_app (s : string) :
  forall n m k, (n + m + k <= String.length s)%nat ->
    String.substring n (m + k) s =
    String.substring n m s ++ String.substring (n + m) k s.
Proof.
  induction s as [ | a s IH]; intros n m k H; simpl in H.
  - assert (n = O) by lia. assert (m = O) by lia. assert (k = O) by lia.
    subst. reflexivity.
  - destruct n as [ | n].
    + destruct m as [ | m].
      * reflexivity.
      * simpl. rewrite (IH O m k) by lia. reflexivity.
    + simpl. apply IH. lia.
Qed.

Lemma three_parts (s : string) (a b : nat) :
  (a <= b)%nat -> (b <= String.length s)%nat ->
  String.substring 0 a s ++ String.substring a (b - a) s ++
  String.substring b (String.length s - b) s = s.
Proof.
  intros Hab Hb.
  assert (H : String.substring 0 (a + ((b - a) + (String.length s - b))) s = s).
  { replace (a + (b - a + (String.length s - b)))%nat with (String.length s)
      by lia.
    apply substring_all. }
  rewrite (substring_app s 0 a) in H by lia.
  rewrite (substring_app s (0 + a) (b - a)) in H by lia.
  replace (0 + a + (b - a))%nat with b in H by lia. exact H.
Qed.

Lemma prefix_app (w s : string) :
  String.prefix w s = true <-> exists q, s = w ++ q.
Proof.
  revert s. induction w as [ | a w IH]; intros s.
  - split; [intros _; exists s; reflexivity | intros _; destruct s; reflexivity].
  - destruct s as [ | b s]; simpl.
    + split; [discriminate | intros [q H]; discriminate H].
    + destruct (Ascii.ascii_dec a b) as [-> | Hne].
      * rewrite IH. split; intros [q H]; exists q; congruence.
      * split; [discriminate | intros [q H]; congruence].
Qed.

Lemma includes_spec (s w : string) :
  Builtins.includes s w = true <-> exists p q, s = p ++ w ++ q.
Proof.
  induction s as [ | a s IH]; cbn [Builtins.includes].
  - rewrite orb_false_r, prefix_app. split.
    + intros [q H]. exists "", q. exact H.
    + intros [p [q H]]. destruct p; [exists q; exact H | discriminate H].
  - rewrite orb_true_iff, IH, prefix_app. split.
    + intros [[q H] | [p [q H]]].
      * exists "", q. exact H.
      * exists (String a p), q. simpl. rewrite H. reflexivity.
    + intros [p [q H]]. destruct p as [ | b p].
      * left. exists q. exact H.
      * right. exists p, q. simpl in H. congruence.
Qed.

Lemma to_index_le (x : JS.number) (len : nat) :
  (Builtins.to_index x len <= len)%nat.
Proof.
  unfold Builtins.to_index.
  destruct x as [s | [ | ] | | [ | ] m e]; lia.
Qed.

End OnStrings.

Section ClozeCards.
Import JS Builtins Cloze.
Local Open Scope string_scope.

(** X20: the deleted text put back in the place of the gap gives the
    sentence exactly when the start position, as [substring] reads it,
    is not after the end position. *)
Theorem createCustomCloze_round_trip :
  forall (s : string) (startPos endPos : number),
    let c := createCustomCloze s startPos endPos in
    let a := to_index startPos (String.length s) in
    let b := to_index endPos (String.length s) in
    exists before after deleted,
      sentence c = before ++ "[...]" ++ after /\
      clozeDeletions c = [{| text := deleted; position := startPos |}] /\
      fullSentence c = s /\
      String.length before = a /\
      (before ++ deleted ++ after = s <-> (a <= b)%nat).
Proof.
  intros s startPos endPos. cbv zeta.
  pose proof (to_index_le startPos (String.length s)) as Ha.
  pose proof (to_index_le endPos (String.length s)) as Hb.
  unfold createCustomCloze, substring, substring_from.
  cbn [sentence clozeDeletions fullSentence].
  set (a := to_index startPos (String.length s)) in *.
  set (b := to_index endPos (String.length s)) in *.
  replace (to_index lit_0 (String.length s)) with O by reflexivity.
  rewrite Nat.min_0_l, Nat.max_0_l, Nat.sub_0_r.
  eexists _, _, _. split; [reflexivity | ]. split; [reflexivity | ].
  split; [reflexivity | ]. split; [apply substring_length; lia | ].
  split.
  - intros H. apply (f_equal String.length) in H.
    rewrite !string_length_app in H.
    rewrite (substring_length s 0 a) in H by lia.
    rewrite (substring_length s (Nat.min a b)) in H by lia.
    rewrite (substring_length s b) in H by lia. lia.
  - intros Hab. rewrite Nat.min_l, Nat.max_r by lia.
    apply three_parts; lia.
Qed.

End ClozeCards.

Section ExampleSentences.
Import JS Builtins Dictionary.
Local Open Scope string_scope.

Lemma In_firstn (A : Type) (n : nat) (l : list A) (x : A) :
  In x (firstn n l) -> In x l.
Proof.
  revert l. induction n as [ | n IH]; intros l H; [destruct H | ].
  destruct l as [ | y t]; [destruct H | ].
  destruct H as [-> | H]; [left; reflexivity | right; apply IH; exact H].
Qed.

Lemma definitions_with_spec (w : string) (item : DatamuseWord) (d : string) :
  In d (definitions_with w item) ->
  includes d w = true /\
  exists ts, tags item = Some ts /\ In ("def:" ++ d) ts.
Proof.
  unfold definitions_with. destruct (tags item) as [ts | ]; [ | intros []].
  intros H. apply in_flat_map in H. destruct H as [tag [Htag H]].
  destruct (String.prefix "def:" tag) eqn:Hp; [ | destruct H].
  destruct (includes _ w) eqn:Hi; [ | destruct H].
  destruct H as [<- | []]. split; [exact Hi | ].
  exists ts. split; [reflexivity | ].
  apply prefix_app in Hp. destruct Hp as [q ->].
  cbn [String.append String.length Nat.sub String.substring].
  rewrite Nat.sub_0_r, substring_all. exact Htag.
Qed.

(** X21: at most three sentences are returned; each one contains the
    word and is the text of a 'def:' tag of an item of the answer. *)
Theorem example_sentences_are_definitions :
  forall (w : string) (response : Response),
    (List.length (fetchExampleSentences w response) <= 3)%nat /\
    forall sentence,
      In sentence (fetchExampleSentences w response) ->
      (exists p q, sentence = p ++ w ++ q) /\
      exists data item ts,
        response = Answered true (Some data) /\ In item data /\
        tags item = Some ts /\ In ("def:" ++ sentence) ts.
Proof.
  intros w response. split.
  - destruct response as [ | [ | ] [data | ]]; cbn [fetchExampleSentences];
      try (simpl; lia).
    apply firstn_le_length.
  - intros sentence H.
    destruct response as [ | [ | ] [data | ]]; cbn [fetchExampleSentences] in H;
      try contradiction.
    apply In_firstn in H. apply in_flat_map in H.
    destruct H as [item [Hitem H]].
    apply definitions_with_spec in H. destruct H as [Hi [ts [Ht Hin]]].
    split; [apply includes_spec; exact Hi | ].
    exists data, item, ts. auto.
Qed.

End ExampleSentences.

Section MoreOnDueCards.
Import StudySession.
Local Open Scope string_scope.

Lemma find_card (cs : list Card) (c : Card) :
  NoDup (map id cs) -> In c cs ->
  find (fun c' => String.eqb (id c') (id c)) cs = Some c.
Proof.
  induction cs as [ | x t IH]; intros Hn Hin; [destruct Hin | ].
  simpl in Hn. inversion Hn as [ | ? ? Hx Hn']; subst. simpl.
  destruct (String.eqb_spec (id x) (id c)) as [E | E].
  - destruct Hin as [-> | Hin]; [reflexivity | ].
    exfalso. apply Hx. rewrite E. apply in_map. exact Hin.
  - destruct Hin as [-> | Hin]; [contradiction | ]. apply IH; assumption.
Qed.

Lemma map_items_returns (db : Database) (deckId : option uuid)
    (data : list CardReview) :
  (exists cs, map_items db deckId data = Return cs) <->
  forall r, In r data -> embedded_card db deckId r <> None.
Proof.
  induction data as [ | item rest IH]; simpl.
  - split; [intros _ r [] | intros _; eauto].
  - unfold to_due_card. split.
    + intros [cs H] r [<- | Hr].
      * destruct (embedded_card db deckId item); [discriminate | discriminate H].
      * destruct (embedded_card db deckId item); [ | discriminate H].
        destruct (map_items db deckId rest) as [cs' | e]; [ | discriminate H].
        apply (proj1 IH); eauto.
    + intros H.
      destruct (embedded_card db deckId item) eqn:E;
        [ | exfalso; apply (H item); auto].
      destruct (proj2 IH) as [cs' ->]; [intros r Hr; apply H; auto | ].
      eauto.
Qed.

Lemma map_items_throws (db : Database) (deckId : option uuid)
    (data : list CardReview) (e : string) :
  map_items db deckId data = Throw e -> e = null_cards.
Proof.
  induction data as [ | item rest IH]; simpl; [discriminate | ].
  unfold to_due_card. destruct (embedded_card db deckId item).
  - destruct (map_items db deckId rest); [discriminate | ].
    intros H. apply IH. congruence.
  - congruence.
Qed.

(** X9: every review of the learner that is due is among the returned
    cards, which are as many as the due reviews. *)
Theorem fetchDueCards_returns_every_due_card :
  forall session fault db now deckId cs,
    fetchDueCards session fault db now deckId (Return cs) ->
    exists s,
      session = Some s /\
      List.length cs =
      List.length (filter (is_due (user s) now) (card_reviews db)) /\
      forall r,
        In r (card_reviews db) -> user_id r = user s ->
        next_review_date r <= now ->
        exists c, In c cs /\ card_of_row c r.
Proof.
  intros session fault db now deckId cs H.
  inversion H as [ | | s data Hs Hf [Hp Hsorted] Hm]; subst.
  exists s. split; [reflexivity | ].
  pose proof (map_items_rows _ _ _ _ Hm) as Hrows.
  split.
  - rewrite (Permutation_length Hp). eapply Forall2_length. exact Hrows.
  - intros r Hr Hu Hd.
    assert (Hin : In r data).
    { eapply Permutation_in; [exact Hp | ]. apply filter_In. split; [exact Hr | ].
      unfold is_due. rewrite Hu, String.eqb_refl. apply Z.leb_le. exact Hd. }
    clear - Hrows Hin. induction Hrows as [ | c r' cs' data' Hc _ IH].
    + destruct Hin.
    + destruct Hin as [-> | Hin].
      * exists c. split; [left; reflexivity | exact Hc].
      * destruct (IH Hin) as [c' [Hc' Hrow]]. exists c'. split; [right | ]; assumption.
Qed.

(** X10: with a deck filter the call returns exactly when every due card
    of the learner is in that deck; one due card of another deck makes
    it throw a [TypeError]. *)
Theorem fetchDueCards_of_a_deck :
  forall s db now d,
    d <> "" ->
    NoDup (map id (cards db)) ->
    (forall r, In r (card_reviews db) ->
               exists c, In c (cards db) /\ id c = card_id r) ->
    let due := filter (is_due (user s) now) (card_reviews db) in
    let in_deck (r : CardReview) :=
      forall c, In c (cards db) -> id c = card_id r -> deck_id c = d in
    ((exists cs, fetchDueCards (Some s) None db now (Some d) (Return cs)) <->
     forall r, In r due -> in_deck r) /\
    ((exists r, In r due /\ ~ in_deck r) ->
     forall out, fetchDueCards (Some s) None db now (Some d) out ->
                 out = Throw null_cards).
Proof.
  intros s db now d Hd Hn Hfk. cbv zeta.
  assert (Hfilter : deck_filter (Some d) = Some d).
  { unfold deck_filter. destruct (String.eqb_spec d ""); [contradiction | reflexivity]. }
  assert (Hemb : forall r, In r (card_reviews db) ->
            (embedded_card db (Some d) r <> None <->
             forall c, In c (cards db) -> id c = card_id r -> deck_id c = d)).
  { intros r Hr. destruct (Hfk r Hr) as [c [Hc Hid]].
    unfold embedded_card. rewrite <- Hid, (find_card _ c Hn Hc), Hfilter.
    destruct (String.eqb_spec (deck_id c) d) as [E | E].
    - split; [ | discriminate]. intros _ c' Hc' Hid'.
      assert (c' = c); [ | congruence].
      pose proof (find_card _ c' Hn Hc') as Hf. rewrite Hid' in Hf.
      rewrite (find_card _ c Hn Hc) in Hf. congruence.
    - split; [intros H; contradiction | ]. intros H. exfalso. apply E.
      apply H; [exact Hc | reflexivity]. }
  split; [split | ].
  - intros [cs H] r Hr.
    inversion H as [ | | s' data Hs Hf [Hp Hsorted] Hm]; subst.
    assert (s' = s) by congruence. subst s'.
    apply Hemb; [apply filter_In in Hr; tauto | ].
    apply (proj1 (map_items_returns db (Some d) data)); [eauto | ].
    eapply Permutation_in; [exact Hp | exact Hr].
  - intros H.
    pose proof (fetchDueCards_run_admissible (Some s) None db now (Some d)) as Hrun.
    unfold fetchDueCards_run in Hrun.
    destruct (proj2 (map_items_returns db (Some d)
               (sort_by_date (filter (is_due (user s) now) (card_reviews db)))))
      as [cs Hcs].
    + intros r Hr.
      assert (Hr' : In r (filter (is_due (user s) now) (card_reviews db))).
      { destruct (sort_by_date_ordered
                    (filter (is_due (user s) now) (card_reviews db))) as [Hp _].
        eapply Permutation_in; [apply Permutation_sym; exact Hp | exact Hr]. }
      apply Hemb; [apply filter_In in Hr'; tauto | apply H; exact Hr'].
    + rewrite Hcs in Hrun. eauto.
  - intros [r [Hr Hnot]] out H.
    inversion H as [ | s' e Hs Hf | s' data Hs Hf [Hp Hsorted] Hm]; subst;
      try discriminate.
    assert (s' = s) by congruence. subst s'.
    destruct (map_items db (Some d) data) as [cs | e] eqn:E.
    + exfalso. apply Hnot. apply Hemb; [apply filter_In in Hr; tauto | ].
      apply (proj1 (map_items_returns db (Some d) data)); [eauto | ].
      eapply Permutation_in; [exact Hp | exact Hr].
    + f_equal. apply (map_items_throws _ _ _ _ E).
Qed.

End MoreOnDueCards.

Lemma every_due_card_at_apart_db :
  exists cs,
    StudySession.fetchDueCards (Some Scenario.learner) None Scenario.apart_db
      5 None (Return cs) /\
    List.length cs = 2%nat /\
    forall r,
      In r (StudySession.card_reviews Scenario.apart_db) ->
      exists c, In c cs /\ StudySession.card_of_row c r.
Proof.
  pose proof (StudySession.fetch_data (Some Scenario.learner) None
                Scenario.apart_db 5 None Scenario.learner
                _ eq_refl eq_refl
                (sort_by_date_ordered _)) as H.
  eexists. split; [exact H | ].
  destruct (fetchDueCards_returns_every_due_card _ _ _ _ _ _ H)
    as [s [Hs [Hlen Hall]]].
  inversion Hs. subst s. split; [exact Hlen | ].
  intros r Hr. apply (Hall r Hr).
  - destruct Hr as [<- | [<- | []]]; reflexivity.
  - destruct Hr as [<- | [<- | []]]; simpl; lia.
Defined.

Lemma deck_d_at_apart_db :
  "d"%string <> ""%string /\
  NoDup (map StudySession.id (StudySession.cards Scenario.apart_db)) /\
  exists cs,
    StudySession.fetchDueCards (Some Scenario.learner) None Scenario.apart_db
      5 (Some "d"%string) (Return cs).
Proof.
  assert (H1 : "d"%string <> ""%string) by discriminate.
  assert (H2 : NoDup (map StudySession.id
                        (StudySession.cards Scenario.apart_db))).
  { simpl. repeat constructor; simpl; intuition discriminate. }
  split; [exact H1 | ]. split; [exact H2 | ].
  apply (proj1 (fetchDueCards_of_a_deck Scenario.learner Scenario.apart_db 5
                  "d"%string H1 H2
                  ltac:(intros r [<- | [<- | []]];
                        [exists (Scenario.a_card "b")
                        | exists (Scenario.a_card "a")];
                        split; simpl; auto))).
  intros r _ c [<- | [<- | []]] _; reflexivity.
Defined.


Section MoreOnStreaks.
Import Streak.

(** X11: the streak update touches the profile of the learner only, and
    where it writes it leaves no count of studied cards. *)
Theorem updateUserStreak_keeps_the_rest :
  forall zone profiles userId now now',
    List.length (updateUserStreak zone profiles userId now now') =
      List.length profiles /\
    (forall i p,
       nth_error profiles i = Some p -> id p <> userId ->
       nth_error (updateUserStreak zone profiles userId now now') i = Some p) /\
    (forall p',
       In p' (updateUserStreak zone profiles userId now now') ->
       In p' profiles \/
       id p' = userId /\ last_study_date p' = Some (iso_date now) /\
       total_cards_studied p' = None).
Proof.
  intros zone profiles userId now now'. unfold updateUserStreak.
  destruct (single userId profiles) as [profile | ]; [ | auto].
  cbv zeta. destruct (negb _); [ | auto].
  unfold update_profile. split; [apply length_map | ]. split.
  - intros i p Hi Hp. rewrite nth_error_map, Hi. simpl.
    destruct (String.eqb_spec (id p) userId); [contradiction | reflexivity].
  - intros p' H. apply in_map_iff in H. destruct H as [p [<- Hp]].
    destruct (String.eqb_spec (id p) userId) as [E | E].
    + right. simpl. auto.
    + left. exact Hp.
Qed.

End MoreOnStreaks.

(** * Streaks computed from the study dates *)

Section StreaksFromDates.
Import StreakData.

Variable offset : Z.

Lemma differenceInDays_from_day (a b : Z) :
  differenceInDays (from_day offset a) (from_day offset b) = a - b.
Proof.
  unfold differenceInDays, from_day, ms_per_day.
  replace (86400000 * a - offset - (86400000 * b - offset))
    with ((a - b) * 86400000) by lia.
  apply Z.quot_mul. lia.
Qed.

Lemma from_day_le (a b : Z) :
  (from_day offset a <=? from_day offset b) = (a <=? b).
Proof.
  unfold from_day, ms_per_day.
  destruct (Z.leb_spec a b); [apply Z.leb_le | apply Z.leb_gt]; lia.
Qed.

Lemma insert_from_day (d : Z) (l : list Z) :
  insert_latest_first (from_day offset d) (map (from_day offset) l) =
  map (from_day offset) (insert_latest_first d l).
Proof.
  induction l as [ | x t IH]; [reflexivity | ].
  simpl. rewrite from_day_le. destruct (x <=? d); [reflexivity | ].
  simpl. rewrite IH. reflexivity.
Qed.

Lemma sort_from_day (l : list Z) :
  sort_latest_first (map (from_day offset) l) =
  map (from_day offset) (sort_latest_first l).
Proof.
  induction l as [ | x t IH]; [reflexivity | ].
  simpl. rewrite IH. apply insert_from_day.
Qed.

Lemma sorted_days (studyDates : list Date) :
  sort_latest_first (map (startOfDay offset) studyDates) =
  map (from_day offset) (sort_latest_first (days_studied offset studyDates)).
Proof.
  unfold days_studied. rewrite <- sort_from_day. f_equal.
  rewrite map_map. reflexivity.
Qed.

Lemma insert_latest_first_perm (d : Z) (l : list Z) :
  Permutation (d :: l) (insert_latest_first d l).
Proof.
  induction l as [ | x t IH]; [apply Permutation_refl | ].
  simpl. destruct (x <=? d); [apply Permutation_refl | ].
  eapply perm_trans; [apply perm_swap | ]. apply perm_skip. exact IH.
Qed.

Lemma sort_latest_first_perm (l : list Z) :
  Permutation l (sort_latest_first l).
Proof.
  induction l as [ | x t IH]; [constructor | ].
  simpl. eapply perm_trans; [ | apply insert_latest_first_perm].
  apply perm_skip. exact IH.
Qed.

Lemma insert_latest_first_sorted (d : Z) (l : list Z) :
  StronglySorted Z.ge l -> StronglySorted Z.ge (insert_latest_first d l).
Proof.
  induction l as [ | x t IH]; intros Hs.
  - constructor; constructor.
  - simpl. inversion Hs as [ | ? ? Ht Hx]; subst.
    destruct (Z.leb_spec x d) as [Hle | Hgt].
    + constructor; [exact Hs | ]. constructor; [lia | ].
      eapply Forall_impl; [ | exact Hx]. simpl. intros; lia.
    + constructor; [apply IH; exact Ht | ].
      eapply Permutation_Forall; [apply insert_latest_first_perm | ].
      constructor; [lia | exact Hx].
Qed.

Lemma sort_latest_first_sorted (l : list Z) :
  StronglySorted Z.ge (sort_latest_first l).
Proof.
  induction l as [ | x t IH]; [constructor | ].
  simpl. apply insert_latest_first_sorted. exact IH.
Qed.

Lemma sorted_nodup_strict (l : list Z) :
  StronglySorted Z.ge l -> NoDup l -> StronglySorted Z.gt l.
Proof.
  induction 1 as [ | x t Ht IH Hx]; intros Hn; [constructor | ].
  inversion Hn as [ | ? ? Hnotin Hn']; subst.
  constructor; [apply IH; exact Hn' | ].
  rewrite Forall_forall in *. intros y Hy.
  specialize (Hx y Hy). assert (y <> x) by (intros ->; contradiction). lia.
Qed.

Lemma sort_latest_first_strict (l : list Z) :
  NoDup l -> StronglySorted Z.gt (sort_latest_first l).
Proof.
  intros Hn. apply sorted_nodup_strict; [apply sort_latest_first_sorted | ].
  eapply Permutation_NoDup; [apply sort_latest_first_perm | exact Hn].
Qed.

(** Two descending arrangements of the same dates are equal. *)
Lemma descending_unique (l l' : list Z) :
  StronglySorted Z.ge l -> StronglySorted Z.ge l' -> Permutation l l' ->
  l = l'.
Proof.
  intros Hl. revert l'.
  induction Hl as [ | x t Ht IH Hx]; intros l' Hl' Hp.
  - apply Permutation_nil in Hp. subst. reflexivity.
  - destruct Hl' as [ | y t' Ht' Hy].
    + apply Permutation_sym, Permutation_nil in Hp. discriminate Hp.
    + assert (Hxy : x = y).
      { rewrite Forall_forall in Hx, Hy.
        assert (Hin1 : In x (y :: t'))
          by (eapply Permutation_in; [exact Hp | left; reflexivity]).
        assert (Hin2 : In y (x :: t))
          by (eapply Permutation_in;
              [apply Permutation_sym; exact Hp | left; reflexivity]).
        destruct Hin1 as [-> | Hin1]; [reflexivity | ].
        destruct Hin2 as [-> | Hin2]; [reflexivity | ].
        specialize (Hx y Hin2). specialize (Hy x Hin1). lia. }
      subst y. f_equal. apply IH; [exact Ht' | ].
      eapply Permutation_cons_inv. exact Hp.
Qed.

(** The first loop on the starts of days. *)
Lemma current_loop_bounds (c : Z) (check : Date) (sorted : list Date) :
  c <= current_loop c check sorted <= c + Z.of_nat (List.length sorted).
Proof.
  revert c check. induction sorted as [ | d rest IH]; intros c check.
  - simpl. lia.
  - cbn [current_loop List.length]. cbv zeta.
    destruct (_ || _).
    + specialize (IH (c + 1) d). lia.
    + lia.
Qed.

Lemma current_loop_days (ds : list Z) :
  StronglySorted Z.gt ds ->
  forall c t,
    let r := current_loop c (from_day offset t) (map (from_day offset) ds) - c in
    match ds with
    | [] => r = 0
    | m :: _ =>
        if (t - m =? 0) || (t - m =? 1)
        then 1 <= r /\ run_of_days ds (m - r + 1) r /\ ~ In (m - r) ds
        else r = 0
    end.
Proof.
  induction 1 as [ | m rest Hrest IH Hm]; intros c t; cbv zeta.
  - simpl. lia.
  - cbn [current_loop map]. cbv zeta. rewrite differenceInDays_from_day.
    destruct ((t - m =? 0) || (t - m =? 1)); [ | lia].
    specialize (IH (c + 1) m). cbv zeta in IH.
    set (r' := current_loop (c + 1) (from_day offset m)
                 (map (from_day offset) rest) - (c + 1)) in *.
    replace (current_loop (c + 1) (from_day offset m)
               (map (from_day offset) rest) - c) with (r' + 1) by (unfold r'; lia).
    rewrite Forall_forall in Hm.
    destruct rest as [ | y rest'].
    + subst r'. simpl. split; [lia | ]. split.
      * intros j Hj. left. simpl in Hj. lia.
      * simpl. intros [H | []]. lia.
    + assert (Hy : m > y) by (apply Hm; left; reflexivity).
      destruct ((m - y =? 0) || (m - y =? 1)) eqn:E.
      * assert (y = m - 1).
        { apply orb_true_iff in E. destruct E as [E | E];
            [apply Z.eqb_eq in E | apply Z.eqb_eq in E]; lia. }
        destruct IH as [H1 [Hrun Hnot]].
        split; [lia | ]. split.
        -- intros j Hj.
           destruct (Z.eq_dec j r') as [-> | Hne].
           ++ left. lia.
           ++ right. replace (m - (r' + 1) + 1 + j) with (y - r' + 1 + j) by lia.
              apply Hrun. lia.
        -- intros [H' | H']; [lia | ].
           apply Hnot. replace (y - r') with (m - (r' + 1)) by lia. exact H'.
      * rewrite IH. split; [lia | ]. split.
        -- intros j Hj. left. lia.
        -- intros [H' | H']; [lia | ].
           apply orb_false_iff in E. destruct E as [E0 E1].
           apply Z.eqb_neq in E0, E1.
           destruct H' as [H' | H']; [lia | ].
           inversion Hrest as [ | ? ? _ Hy']; subst.
           rewrite Forall_forall in Hy'. specialize (Hy' _ H'). lia.
Qed.

(** The second loop. *)
Lemma longest_loop_grows (sorted : list Date) :
  forall l t, 1 <= t ->
    l <= fst (longest_loop l t sorted) /\ 1 <= snd (longest_loop l t sorted).
Proof.
  induction sorted as [ | a rest IH]; intros l t Ht; [simpl; lia | ].
  destruct rest as [ | b rest']; [simpl; lia | ].
  change (longest_loop l t (a :: b :: rest')) with
    (if differenceInDays a b =? 1
     then longest_loop (Z.max l (t + 1)) (t + 1) (b :: rest')
     else longest_loop l 1 (b :: rest')).
  destruct (differenceInDays a b =? 1).
  - specialize (IH (Z.max l (t + 1)) (t + 1)). lia.
  - specialize (IH l 1). lia.
Qed.

Lemma longest_loop_step (l t : Z) (a b : Z) (rest : list Z) :
  longest_loop l t (map (from_day offset) (a :: b :: rest)) =
  if a - b =? 1
  then longest_loop (Z.max l (t + 1)) (t + 1) (map (from_day offset) (b :: rest))
  else longest_loop l 1 (map (from_day offset) (b :: rest)).
Proof.
  cbn [map]. rewrite <- differenceInDays_from_day. reflexivity.
Qed.

Lemma longest_loop_sound (days : list Z) (rest : list Z) :
  forall x l t,
    incl (x :: rest) days -> 1 <= t ->
    run_of_days days x t ->
    (l = 0 \/ exists a, run_of_days days a l) ->
    let r := longest_loop l t (map (from_day offset) (x :: rest)) in
    exists a, run_of_days days a (Z.max (fst r) (snd r)).
Proof.
  induction rest as [ | y rest' IH]; intros x l t Hincl Ht Hrun Hl; cbv zeta.
  - simpl. destruct (Z.max_spec l t) as [[_ ->] | [_ ->]].
    + exists x. exact Hrun.
    + destruct Hl as [-> | Hl]; [ | exact Hl].
      exists x. intros j Hj. lia.
  - rewrite longest_loop_step.
    assert (Hincl' : incl (y :: rest') days).
    { intros z Hz. apply Hincl. right. exact Hz. }
    assert (Hy : In y days).
    { apply Hincl. right. left. reflexivity. }
    destruct (Z.eqb_spec (x - y) 1) as [E | E].
    + assert (Hrun' : run_of_days days y (t + 1)).
      { intros j Hj. destruct (Z.eq_dec j 0) as [-> | Hne].
        - rewrite Z.add_0_r. exact Hy.
        - replace (y + j) with (x + (j - 1)) by lia. apply Hrun. lia. }
      apply IH; [exact Hincl' | lia | exact Hrun' | ].
      right. destruct (Z.max_spec l (t + 1)) as [[_ ->] | [Hlt ->]].
      * exists y. exact Hrun'.
      * destruct Hl as [-> | Hl]; [lia | exact Hl].
    + apply IH; [exact Hincl' | lia | | exact Hl].
      intros j Hj. replace (y + j) with y by lia. exact Hy.
Qed.

Lemma longest_loop_maximal (rest : list Z) :
  forall x l t,
    StronglySorted Z.gt (x :: rest) -> 1 <= t -> t <= Z.max l 1 ->
    forall a k,
      (forall j, 0 <= j < k -> In (a + j) rest \/ x <= a + j < x + t) ->
      let r := longest_loop l t (map (from_day offset) (x :: rest)) in
      k <= Z.max (fst r) (snd r).
Proof.
  induction rest as [ | y rest' IH]; intros x l t Hs Ht Hinv a k Hrun; cbv zeta.
  - simpl.
    destruct (Z_le_gt_dec k 0) as [Hk | Hk]; [lia | ].
    destruct (Hrun 0 ltac:(lia)) as [[] | H0].
    destruct (Hrun (k - 1) ltac:(lia)) as [[] | H1]. lia.
  - rewrite longest_loop_step.
    inversion Hs as [ | ? ? Hs' Hx]; subst.
    rewrite Forall_forall in Hx.
    assert (Hy : x > y) by (apply Hx; left; reflexivity).
    inversion Hs' as [ | ? ? _ Hyr]; subst. rewrite Forall_forall in Hyr.
    destruct (Z.eqb_spec (x - y) 1) as [E | E].
    + apply IH with (a := a); [exact Hs' | lia | lia | ].
      intros j Hj. destruct (Hrun j Hj) as [[H | H] | H].
      * right. lia.
      * left. exact H.
      * right. lia.
    + pose proof (longest_loop_grows (map (from_day offset) (y :: rest')) l 1
                    ltac:(lia)) as [Hg1 Hg2].
      destruct (Z_le_gt_dec k 0) as [Hk | Hk]; [lia | ].
      assert (Hyx : y < x - 1) by lia.
      destruct (Z_lt_le_dec a x) as [Ha | Ha].
      * (* the run lies below [x - 1], which was not a day of study *)
        assert (Hbelow : forall n : nat, Z.of_nat n < k -> a + Z.of_nat n < x - 1).
        { induction n as [ | n IHn]; intros Hn.
          - destruct (Hrun 0 ltac:(lia)) as [[H | H] | H].
            + simpl. lia.
            + specialize (Hyr _ H). simpl. lia.
            + lia.
          - specialize (IHn ltac:(lia)).
            destruct (Hrun (Z.of_nat (S n)) ltac:(lia)) as [[H | H] | H].
            + lia.
            + specialize (Hyr _ H). lia.
            + lia. }
        apply IH with (a := a); [exact Hs' | lia | lia | ].
        intros j Hj. specialize (Hbelow (Z.to_nat j) ltac:(lia)).
        rewrite Z2Nat.id in Hbelow by lia.
        destruct (Hrun j Hj) as [[H | H] | H].
        -- right. lia.
        -- left. exact H.
        -- lia.
      * assert (k <= t); [ | lia].
        destruct (Hrun 0 ltac:(lia)) as [H0 | H0].
        { assert (a + 0 <= y); [ | lia].
          destruct H0 as [H0 | H0]; [lia | ]. specialize (Hyr _ H0). lia. }
        destruct (Hrun (k - 1) ltac:(lia)) as [H1 | H1]; [ | lia].
        assert (a + (k - 1) <= y); [ | lia].
        destruct H1 as [H1 | H1]; [lia | ]. specialize (Hyr _ H1). lia.
Qed.


Lemma longest_loop_bounds (sorted : list Date) :
  forall l t, 1 <= t ->
    let r := longest_loop l t sorted in
    Z.max (fst r) (snd r) <= Z.max l (t + Z.of_nat (List.length sorted) - 1) \/
    sorted = [].
Proof.
  induction sorted as [ | a rest IH]; intros l t Ht; cbv zeta; [right; reflexivity | ].
  left. destruct rest as [ | b rest']; [simpl; lia | ].
  change (longest_loop l t (a :: b :: rest')) with
    (if differenceInDays a b =? 1
     then longest_loop (Z.max l (t + 1)) (t + 1) (b :: rest')
     else longest_loop l 1 (b :: rest')).
  cbn [List.length].
  destruct (differenceInDays a b =? 1).
  - destruct (IH (Z.max l (t + 1)) (t + 1) ltac:(lia)) as [H | H];
      [ | discriminate H].
    cbv zeta in H. cbn [List.length] in H. lia.
  - destruct (IH l 1 ltac:(lia)) as [H | H]; [ | discriminate H].
    cbv zeta in H. cbn [List.length] in H. lia.
Qed.

Lemma day_of_from_day (k : Z) : day_of offset (from_day offset k) = k.
Proof.
  unfold day_of, from_day, ms_per_day.
  replace (86400000 * k - offset + offset) with (k * 86400000) by lia.
  apply Z.div_mul. lia.
Qed.

Lemma calculateStreak_nonempty (now : Date) (studyDates : list Date) :
  studyDates <> [] ->
  let sorted :=
    map (from_day offset) (sort_latest_first (days_studied offset studyDates)) in
  calculateStreak offset now studyDates =
  {| currentStreak :=
       current_loop 0 (from_day offset (day_of offset now)) sorted;
     longestStreak :=
       Z.max (fst (longest_loop 0 1 sorted)) (snd (longest_loop 0 1 sorted));
     lastStudyDate := hd (startOfDay offset now) sorted;
     studyDates := sorted |}.
Proof.
  intros Hne. cbv zeta. rewrite <- sorted_days.
  destruct studyDates as [ | d rest]; [contradiction | ].
  unfold calculateStreak.
  destruct (longest_loop 0 1 _) as [l t]. reflexivity.
Qed.

Lemma sorted_nonempty (l : list Z) :
  l <> [] -> exists m rest, sort_latest_first l = m :: rest.
Proof.
  intros Hne. destruct (sort_latest_first l) as [ | m rest] eqn:E.
  - pose proof (sort_latest_first_perm l) as Hp. rewrite E in Hp.
    apply Permutation_sym, Permutation_nil in Hp. contradiction.
  - eauto.
Qed.

Lemma days_studied_nonempty (studyDates : list Date) :
  studyDates <> [] -> days_studied offset studyDates <> [].
Proof. destruct studyDates; [contradiction | discriminate]. Qed.

(** The head of the sorted days is the latest day of study. *)
Lemma latest_day (l : list Z) (m : Z) (rest : list Z) :
  sort_latest_first l = m :: rest ->
  In m l /\ forall d, In d l -> d <= m.
Proof.
  intros E. pose proof (sort_latest_first_perm l) as Hp.
  pose proof (sort_latest_first_sorted l) as Hs. rewrite E in Hp, Hs.
  split.
  - eapply Permutation_in; [apply Permutation_sym; exact Hp | left; reflexivity].
  - intros d Hd. apply (Permutation_in _ Hp) in Hd.
    inversion Hs as [ | ? ? _ Hm]; subst. rewrite Forall_forall in Hm.
    destruct Hd as [-> | Hd]; [lia | ]. specialize (Hm _ Hd). lia.
Qed.

Lemma run_of_days_perm (l l' : list Z) (a k : Z) :
  Permutation l l' -> run_of_days l a k -> run_of_days l' a k.
Proof.
  intros Hp Hrun j Hj. eapply Permutation_in; [exact Hp | apply Hrun; exact Hj].
Qed.

(** X12: [lastStudyDate] is the start of the latest day of study, and
    the current streak is positive exactly when that day is today or
    yesterday; a date after today makes it 0. *)
Theorem current_streak_positive :
  forall now studyDates,
    studyDates <> [] ->
    let r := calculateStreak offset now studyDates in
    let days := days_studied offset studyDates in
    let last := day_of offset (lastStudyDate r) in
    let today := day_of offset now in
    (exists d, In d studyDates /\ lastStudyDate r = startOfDay offset d) /\
    lastStudyDate r = from_day offset last /\
    In last days /\ (forall d, In d days -> d <= last) /\
    0 <= currentStreak r /\
    (0 < currentStreak r <-> last = today \/ last = today - 1).
Proof.
  intros now studyDates Hne. cbv zeta.
  rewrite (calculateStreak_nonempty now studyDates Hne). cbv zeta.
  cbn [currentStreak lastStudyDate].
  destruct (sorted_nonempty _ (days_studied_nonempty _ Hne)) as [m [rest E]].
  rewrite E. cbn [map hd current_loop]. cbv zeta.
  rewrite day_of_from_day, differenceInDays_from_day.
  destruct (latest_day _ _ _ E) as [Hin Hmax].
  split.
  { unfold days_studied in Hin. apply in_map_iff in Hin.
    destruct Hin as [d [Hd Hin]]. exists d. split; [exact Hin | ].
    unfold startOfDay. rewrite Hd. reflexivity. }
  split; [reflexivity | ].
  split; [exact Hin | ]. split; [exact Hmax | ].
  pose proof (current_loop_bounds 1 (from_day offset m)
                (map (from_day offset) rest)) as Hb.
  destruct (Z.eqb_spec (day_of offset now - m) 0) as [E0 | E0];
    destruct (Z.eqb_spec (day_of offset now - m) 1) as [E1 | E1];
    cbn [orb]; simpl (0 + 1) in *; split; try lia; split; intros; lia.
Qed.

(** X13: when no day occurs twice among the dates, the current streak is
    the number of days in a row, up to the latest day of study, on which
    the learner studied. *)
Theorem current_streak_counts_days :
  forall now studyDates,
    studyDates <> [] ->
    NoDup (days_studied offset studyDates) ->
    let r := calculateStreak offset now studyDates in
    let days := days_studied offset studyDates in
    let last := day_of offset (lastStudyDate r) in
    let today := day_of offset now in
    (last = today \/ last = today - 1) ->
    run_of_days days (last - currentStreak r + 1) (currentStreak r) /\
    ~ In (last - currentStreak r) days.
Proof.
  intros now studyDates Hne Hnd. cbv zeta.
  rewrite (calculateStreak_nonempty now studyDates Hne). cbv zeta.
  cbn [currentStreak lastStudyDate].
  destruct (sorted_nonempty _ (days_studied_nonempty _ Hne)) as [m [rest E]].
  pose proof (current_loop_days _ (sort_latest_first_strict _ Hnd) 0
                (day_of offset now)) as Hc.
  pose proof (sort_latest_first_perm (days_studied offset studyDates)) as Hp.
  rewrite E in *. cbv zeta in Hc. cbn [map hd].
  rewrite day_of_from_day. rewrite Z.sub_0_r in Hc.
  intros Hlast.
  assert (Ht : (day_of offset now - m =? 0) || (day_of offset now - m =? 1) = true).
  { apply orb_true_iff. destruct Hlast as [-> | ->];
      [left | right]; apply Z.eqb_eq; lia. }
  rewrite Ht in Hc. destruct Hc as [_ [Hrun Hnot]]. split.
  - eapply run_of_days_perm; [apply Permutation_sym; exact Hp | exact Hrun].
  - intros Hin. apply Hnot. eapply Permutation_in; [exact Hp | exact Hin].
Qed.

(** X14: the longest streak is the length of a run of days of study, and,
    when no day occurs twice among the dates, of a longest one. *)
Theorem longest_streak_is_longest_run :
  forall now studyDates,
    studyDates <> [] ->
    let r := calculateStreak offset now studyDates in
    let days := days_studied offset studyDates in
    1 <= longestStreak r /\
    (exists a, run_of_days days a (longestStreak r)) /\
    (NoDup days ->
     forall a k, run_of_days days a k -> k <= longestStreak r).
Proof.
  intros now studyDates Hne. cbv zeta.
  rewrite (calculateStreak_nonempty now studyDates Hne). cbv zeta.
  cbn [longestStreak].
  destruct (sorted_nonempty _ (days_studied_nonempty _ Hne)) as [m [rest E]].
  pose proof (sort_latest_first_perm (days_studied offset studyDates)) as Hp.
  rewrite E in *.
  split; [ | split].
  - pose proof (longest_loop_grows (map (from_day offset) (m :: rest)) 0 1
                  ltac:(lia)). lia.
  - apply longest_loop_sound.
    + intros z Hz. eapply Permutation_in; [apply Permutation_sym; exact Hp | exact Hz].
    + lia.
    + intros j Hj. replace (m + j) with m by lia.
      eapply Permutation_in; [apply Permutation_sym; exact Hp | left; reflexivity].
    + left. reflexivity.
  - intros Hnd a k Hrun.
    pose proof (sort_latest_first_strict _ Hnd) as Hs. rewrite E in Hs.
    apply longest_loop_maximal with (a := a); [exact Hs | lia | lia | ].
    intros j Hj. specialize (Hrun j Hj).
    apply (Permutation_in _ Hp) in Hrun.
    destruct Hrun as [H | H]; [right; lia | left; exact H].
Qed.

(** X15: the streaks are bounded by the number of dates, and, when no day
    occurs twice among them, the current streak by the longest one. *)
Theorem streaks_are_bounded :
  forall now studyDates,
    let r := calculateStreak offset now studyDates in
    0 <= currentStreak r <= Z.of_nat (List.length studyDates) /\
    0 <= longestStreak r <= Z.of_nat (List.length studyDates) /\
    (NoDup (days_studied offset studyDates) ->
     currentStreak r <= longestStreak r).
Proof.
  intros now studyDates. cbv zeta.
  destruct (list_eq_dec Z.eq_dec studyDates []) as [-> | Hne].
  { simpl. lia. }
  pose proof (sort_latest_first_perm (days_studied offset studyDates)) as Hp.
  assert (Hlen : List.length
            (map (from_day offset)
               (sort_latest_first (days_studied offset studyDates))) =
          List.length studyDates).
  { rewrite length_map, <- (Permutation_length Hp).
    unfold days_studied. apply length_map. }
  rewrite (calculateStreak_nonempty now studyDates Hne). cbv zeta.
  cbn [currentStreak longestStreak].
  assert (Hpos : 0 < Z.of_nat (List.length studyDates)).
  { destruct studyDates; [contradiction | simpl; lia]. }
  split; [ | split].
  - pose proof (current_loop_bounds 0 (from_day offset (day_of offset now))
        (map (from_day offset)
           (sort_latest_first (days_studied offset studyDates)))) as Hb.
    rewrite Hlen in Hb. lia.
  - pose proof (longest_loop_grows
        (map (from_day offset)
           (sort_latest_first (days_studied offset studyDates))) 0 1
        ltac:(lia)) as Hg.
    destruct (longest_loop_bounds
        (map (from_day offset)
           (sort_latest_first (days_studied offset studyDates))) 0 1
        ltac:(lia)) as [Hb | Hb].
    + cbv zeta in Hb. rewrite Hlen in Hb. lia.
    + rewrite Hb. simpl. lia.
  - intros Hnd.
    destruct (sorted_nonempty _ (days_studied_nonempty _ Hne)) as [m [rest E]].
    pose proof (current_loop_days _ (sort_latest_first_strict _ Hnd) 0
                  (day_of offset now)) as Hc.
    pose proof (sort_latest_first_strict _ Hnd) as Hs.
    rewrite E in *. cbv zeta in Hc. rewrite Z.sub_0_r in Hc.
    pose proof (longest_loop_grows (map (from_day offset) (m :: rest)) 0 1
                  ltac:(lia)) as Hg.
    destruct ((day_of offset now - m =? 0) || (day_of offset now - m =? 1)).
    + destruct Hc as [_ [Hrun _]].
      apply longest_loop_maximal
        with (a := m - current_loop 0 (from_day offset (day_of offset now))
                         (map (from_day offset) (m :: rest)) + 1);
        [exact Hs | lia | lia | ].
      intros j Hj. destruct (Hrun j Hj) as [H | H]; [right; lia | left; exact H].
    + rewrite Hc. lia.
Qed.

(** X16: when all the dates are of today, each of them counts as a day
    of the current streak, which then exceeds the longest streak, 1. *)
Theorem dates_of_one_day :
  forall now studyDates,
    studyDates <> [] ->
    (forall d, In d studyDates -> day_of offset d = day_of offset now) ->
    let r := calculateStreak offset now studyDates in
    currentStreak r = Z.of_nat (List.length studyDates) /\
    longestStreak r = 1.
Proof.
  intros now studyDates Hne Hall. cbv zeta.
  rewrite (calculateStreak_nonempty now studyDates Hne). cbv zeta.
  cbn [currentStreak longestStreak].
  pose proof (sort_latest_first_perm (days_studied offset studyDates)) as Hp.
  assert (Hlen : List.length (sort_latest_first (days_studied offset studyDates)) =
                 List.length studyDates).
  { transitivity (List.length (days_studied offset studyDates));
      [symmetry; apply (Permutation_length Hp) | apply length_map]. }
  assert (Hsame : Forall (fun k => k = day_of offset now)
                    (sort_latest_first (days_studied offset studyDates))).
  { eapply Permutation_Forall; [exact Hp | ].
    unfold days_studied. apply Forall_forall. intros k Hk.
    apply in_map_iff in Hk. destruct Hk as [d [<- Hd]]. apply Hall. exact Hd. }
  destruct (sorted_nonempty _ (days_studied_nonempty _ Hne)) as [m [rest E]].
  rewrite <- Hlen. clear Hlen Hp.
  set (t := day_of offset now) in *.
  generalize dependent (sort_latest_first (days_studied offset studyDates)).
  intros ds Hsame E. subst ds. split.
  - assert (Hgen : forall l c, Forall (fun k => k = t) l ->
              current_loop c (from_day offset t) (map (from_day offset) l) =
              c + Z.of_nat (List.length l)).
    { induction l as [ | k l IH]; intros c Hl; [simpl; lia | ].
      inversion Hl as [ | ? ? Hk Hl']; subst.
      cbn [map current_loop List.length]. cbv zeta.
      rewrite differenceInDays_from_day, Z.sub_diag. cbn [Z.eqb orb].
      rewrite IH by exact Hl'. lia. }
    rewrite Hgen by exact Hsame. reflexivity.
  - assert (Hgen : forall l x lg, Forall (fun k => k = t) (x :: l) ->
              longest_loop lg 1 (map (from_day offset) (x :: l)) = (lg, 1)).
    { induction l as [ | k l IH]; intros x lg Hl; [reflexivity | ].
      rewrite longest_loop_step.
      inversion Hl as [ | ? ? Hx Hl']; subst.
      inversion Hl' as [ | ? ? Hk _]; subst.
      rewrite Z.sub_diag. cbn [Z.eqb]. apply IH. exact Hl'. }
    rewrite Hgen by exact Hsame. reflexivity.
Qed.

(** X17: the order of the dates does not matter. *)
Theorem calculateStreak_any_order :
  forall now studyDates studyDates',
    Permutation studyDates studyDates' ->
    calculateStreak offset now studyDates =
    calculateStreak offset now studyDates'.
Proof.
  intros now l l' Hp.
  destruct (list_eq_dec Z.eq_dec l []) as [-> | Hne].
  { apply Permutation_nil in Hp. subst. reflexivity. }
  assert (Hne' : l' <> []).
  { intros ->. apply Permutation_sym, Permutation_nil in Hp. contradiction. }
  rewrite (calculateStreak_nonempty now l Hne),
          (calculateStreak_nonempty now l' Hne'). cbv zeta.
  assert (E : sort_latest_first (days_studied offset l) =
              sort_latest_first (days_studied offset l')).
  { apply descending_unique; try apply sort_latest_first_sorted.
    eapply perm_trans; [apply Permutation_sym, sort_latest_first_perm | ].
    eapply perm_trans; [ | apply sort_latest_first_perm].
    unfold days_studied. apply Permutation_map. exact Hp. }
  rewrite E. reflexivity.
Qed.

End StreaksFromDates.

Lemma three_days_distinct :
  NoDup (StreakData.days_studied Examples.eight_hours Examples.three_days).
Proof.
  vm_compute. repeat constructor; simpl; intuition discriminate.
Defined.

Lemma streak_positive_at_three_days :
  Examples.three_days <> [] /\
  StreakData.lastStudyDate
    (StreakData.calculateStreak Examples.eight_hours
       Examples.noon_of_day_10 Examples.three_days) =
  StreakData.from_day Examples.eight_hours 10 /\
  0 < StreakData.currentStreak
        (StreakData.calculateStreak Examples.eight_hours
           Examples.noon_of_day_10 Examples.three_days).
Proof.
  assert (Hne : Examples.three_days <> []) by discriminate.
  split; [exact Hne | ].
  pose proof (current_streak_positive Examples.eight_hours
                Examples.noon_of_day_10 Examples.three_days Hne) as H.
  cbv zeta in H. destruct H as [_ [Hstart [_ [_ [_ Hpos]]]]].
  split; [exact Hstart | ].
  apply Hpos. left. reflexivity.
Defined.

Lemma two_days_in_a_row_at_three_days :
  Examples.three_days <> [] /\
  NoDup (StreakData.days_studied Examples.eight_hours Examples.three_days) /\
  StreakData.run_of_days
    (StreakData.days_studied Examples.eight_hours Examples.three_days) 9 2 /\
  ~ In 8 (StreakData.days_studied Examples.eight_hours Examples.three_days).
Proof.
  assert (Hne : Examples.three_days <> []) by discriminate.
  split; [exact Hne | ]. split; [exact three_days_distinct | ].
  apply (current_streak_counts_days Examples.eight_hours
           Examples.noon_of_day_10 Examples.three_days Hne
           three_days_distinct).
  left. reflexivity.
Defined.

Lemma longest_run_at_three_days :
  Examples.three_days <> [] /\
  StreakData.longestStreak
    (StreakData.calculateStreak Examples.eight_hours
       Examples.noon_of_day_10 Examples.three_days) = 2 /\
  forall a k,
    StreakData.run_of_days
      (StreakData.days_studied Examples.eight_hours Examples.three_days) a k ->
    k <= 2.
Proof.
  assert (Hne : Examples.three_days <> []) by discriminate.
  split; [exact Hne | ]. split; [reflexivity | ].
  apply (longest_streak_is_longest_run Examples.eight_hours
           Examples.noon_of_day_10 Examples.three_days Hne).
  exact three_days_distinct.
Defined.

Lemma twice_today_counts_twice :
  Examples.twice_today <> [] /\
  StreakData.currentStreak
    (StreakData.calculateStreak Examples.eight_hours
       Examples.noon_of_day_10 Examples.twice_today) = 2 /\
  StreakData.longestStreak
    (StreakData.calculateStreak Examples.eight_hours
       Examples.noon_of_day_10 Examples.twice_today) = 1.
Proof.
  assert (Hne : Examples.twice_today <> []) by discriminate.
  split; [exact Hne | ].
  apply (dates_of_one_day Examples.eight_hours Examples.noon_of_day_10
           Examples.twice_today Hne).
  intros d [<- | [<- | []]]; reflexivity.
Defined.

Lemma three_days_in_another_order :
  Permutation Examples.three_days (rev Examples.three_days) /\
  StreakData.calculateStreak Examples.eight_hours Examples.noon_of_day_10
    Examples.three_days =
  StreakData.calculateStreak Examples.eight_hours Examples.noon_of_day_10
    (rev Examples.three_days).
Proof.
  assert (Hp : Permutation Examples.three_days (rev Examples.three_days))
    by apply Permutation_rev.
  split; [exact Hp | ].
  apply (calculateStreak_any_order Examples.eight_hours
           Examples.noon_of_day_10 _ _ Hp).
Defined.


(** * The stored streak and the streak of the dates *)

Section TwoStreaks.
Import StreakData.

Lemma StronglySorted_snoc (A : Type) (R : A -> A -> Prop) (l : list A) (x : A) :
  StronglySorted R l -> Forall (fun y => R y x) l ->
  StronglySorted R (l ++ [x]).
Proof.
  induction 1 as [ | y t Ht IH Hy]; intros Hx; simpl.
  - constructor; constructor.
  - inversion Hx as [ | ? ? Hyx Hx']; subst.
    constructor; [apply IH; exact Hx' | ].
    apply Forall_app. split; [exact Hy | constructor; [exact Hyx | constructor]].
Qed.

Lemma StronglySorted_snoc_inv (A : Type) (R : A -> A -> Prop) (l : list A)
    (x : A) :
  StronglySorted R (l ++ [x]) ->
  StronglySorted R l /\ Forall (fun y => R y x) l.
Proof.
  induction l as [ | y t IH]; simpl; intros H.
  - split; constructor.
  - inversion H as [ | ? ? Ht Hy]; subst.
    destruct (IH Ht) as [Hs Hx]. apply Forall_app in Hy.
    destruct Hy as [Hy Hyx]. inversion Hyx; subst.
    split; constructor; assumption.
Qed.

Lemma ascending_rev (l : list Z) :
  StronglySorted Z.lt l -> StronglySorted Z.gt (rev l).
Proof.
  induction 1 as [ | x t Ht IH Hx]; simpl; [constructor | ].
  apply StronglySorted_snoc; [exact IH | ].
  apply Forall_rev. eapply Forall_impl; [ | exact Hx]. simpl. intros; lia.
Qed.

Lemma sort_ascending (l : list Z) :
  StronglySorted Z.lt l -> sort_latest_first l = rev l.
Proof.
  intros Hs. apply descending_unique.
  - apply sort_latest_first_sorted.
  - pose proof (ascending_rev l Hs) as Hr.
    clear Hs. induction Hr as [ | x t Ht IH Hx]; [constructor | ].
    constructor; [exact IH | ].
    eapply Forall_impl; [ | exact Hx]. simpl. intros; lia.
  - eapply perm_trans; [apply Permutation_sym, sort_latest_first_perm | ].
    apply Permutation_rev.
Qed.

(** The UTC days of the calls. *)
Lemma study_at_spec (zone : Streak.Zone) (offset : Z)
    (profile : Streak.Profile) :
  Streak.steady zone offset ->
  Streak.last_study_date profile = None ->
  forall calls,
    Forall (fun call => Streak.iso_date (snd call) = Streak.iso_date (fst call))
      calls ->
    StronglySorted Z.lt (map (fun call => Streak.iso_date (fst call)) calls) ->
    calls <> [] ->
    let days := map (fun call => Streak.iso_date (fst call)) calls in
    let m := List.last days 0 in
    let p := study_at zone profile calls in
    let c := Streak.streak_count p in
    Streak.last_study_date p = Some m /\
    (forall d, In d days -> d <= m) /\
    1 <= c /\ run_of_days days (m - c + 1) c /\ ~ In (m - c) days.
Proof.
  intros Hz Hnone calls.
  induction calls as [ | x l IH] using rev_ind; intros Hok Hs Hne;
    [contradiction | ].
  cbv zeta. unfold study_at. rewrite fold_left_app, map_app. cbn [fold_left map].
  rewrite last_last.
  fold (study_at zone profile l).
  apply Forall_app in Hok. destruct Hok as [Hokl Hokx].
  inversion Hokx as [ | ? ? Hx _]; subst.
  rewrite map_app in Hs. cbn [map] in Hs.
  apply StronglySorted_snoc_inv in Hs. destruct Hs as [Hsl Hlt].
  rewrite Forall_forall in Hlt.
  set (dx := Streak.iso_date (fst x)) in *.
  set (days := map (fun call => Streak.iso_date (fst call)) l) in *.
  destruct (steady_zone_streak_update zone offset (study_at zone profile l)
              (fst x) (snd x) Hz Hx) as [Hnext Hreset].
  fold dx in Hnext, Hreset.
  assert (Hmax : forall d, In d (days ++ [dx]) -> d <= dx).
  { intros d Hd. apply in_app_iff in Hd.
    destruct Hd as [Hd | [<- | []]]; [specialize (Hlt d Hd) | ]; lia. }
  destruct l as [ | y l'].
  - (* the first study *)
    simpl study_at in *. rewrite Hreset by (rewrite Hnone; discriminate).
    simpl. split; [reflexivity | ]. split; [intros d [<- | []]; lia | ].
    split; [lia | ]. split.
    + intros j Hj. left. lia.
    + intros [H | []]. lia.
  - specialize (IH Hokl Hsl ltac:(discriminate)). cbv zeta in IH.
    fold days in IH.
    set (p := study_at zone profile (y :: l')) in *.
    set (m1 := List.last days 0) in *.
    destruct IH as [Hlast [Hm1 [Hc [Hrun Hnot]]]].
    assert (Hin1 : In m1 days).
    { unfold m1. destruct (exists_last (l := days)) as [l0 [z E]];
        [unfold days; discriminate | ].
      rewrite E, last_last. apply in_app_iff. right. left. reflexivity. }
    pose proof (Hlt m1 Hin1) as Hm1x.
    destruct (Z.eq_dec m1 (dx - 1)) as [E | E].
    + rewrite Hnext by (rewrite Hlast; f_equal; exact E).
      cbn [Streak.last_study_date Streak.streak_count Streak.write_streak].
      split; [reflexivity | ]. split; [exact Hmax | ]. split; [lia | ]. split.
      * intros j Hj. apply in_app_iff.
        destruct (Z.eq_dec j (Streak.streak_count p)) as [-> | Hne'].
        -- right. left. lia.
        -- left.
           replace (dx - (Streak.streak_count p + 1) + 1 + j)
             with (m1 - Streak.streak_count p + 1 + j) by lia.
           apply Hrun. lia.
      * intros H. apply in_app_iff in H. destruct H as [H | [H | []]]; [ | lia].
        apply Hnot.
        replace (m1 - Streak.streak_count p)
          with (dx - (Streak.streak_count p + 1)) by lia.
        exact H.
    + rewrite Hreset
        by (rewrite Hlast; intros H; inversion H; lia).
      cbn [Streak.last_study_date Streak.streak_count Streak.write_streak].
      split; [reflexivity | ]. split; [exact Hmax | ]. split; [lia | ]. split.
      * intros j Hj. apply in_app_iff. right. left. lia.
      * intros H. apply in_app_iff in H. destruct H as [H | [H | []]]; [ | lia].
        specialize (Hm1 _ H). lia.
Qed.

Lemma streak_unique (days : list Z) (m c c' : Z) :
  1 <= c -> run_of_days days (m - c + 1) c -> ~ In (m - c) days ->
  1 <= c' -> run_of_days days (m - c' + 1) c' -> ~ In (m - c') days ->
  c = c'.
Proof.
  intros Hc Hrun Hnot Hc' Hrun' Hnot'.
  destruct (Z.lt_trichotomy c c') as [Hlt | [Heq | Hgt]]; [ | exact Heq | ].
  - exfalso. apply Hnot.
    replace (m - c) with (m - c' + 1 + (c' - c - 1)) by lia.
    apply Hrun'. lia.
  - exfalso. apply Hnot'.
    replace (m - c') with (m - c + 1 + (c - c' - 1)) by lia.
    apply Hrun. lia.
Qed.

(** X24: on a host whose offset from UTC does not change, for calls of
    [updateUserStreak] on ascending UTC days, each at an instant whose
    local date is its UTC date, the streak count kept in the profile is
    the current streak that [calculateStreak] finds in the instants of
    the calls, up to the day after the last one.  Where local and UTC
    date differ the two differ: eight hours ahead of UTC, studies at
    20:00 UTC of day 9 and at 02:00 UTC of day 11 leave a stored
    streak of 1 and a current streak of 2. *)
Theorem stored_streak_is_current_streak :
  (forall zone offset now calls profile,
     Streak.steady zone offset ->
     calls <> [] ->
     Streak.last_study_date profile = None ->
     Forall (fun call =>
               Streak.iso_date (snd call) = Streak.iso_date (fst call) /\
               day_of offset (fst call) = Streak.iso_date (fst call)) calls ->
     StronglySorted Z.lt
       (map (fun call => Streak.iso_date (fst call)) calls) ->
     let last :=
       List.last (map (fun call => Streak.iso_date (fst call)) calls) 0 in
     day_of offset now = last \/ day_of offset now = last + 1 ->
     Streak.streak_count (study_at zone profile calls) =
     currentStreak (calculateStreak offset now (map fst calls))) /\
  (Streak.streak_count
     (study_at Examples.east_8 Examples.new_learner Examples.across_midnight)
   = 1 /\
   currentStreak
     (calculateStreak Examples.eight_hours 957600000
        (map fst Examples.across_midnight)) = 2).
Proof.
  split; [ | split; reflexivity].
  intros zone offset now calls profile Hz Hne Hnone Hok Hasc. cbv zeta.
  intros Hnow.
  assert (Hne' : map fst calls <> []).
  { destruct calls; [contradiction | discriminate]. }
  assert (Hdays : days_studied offset (map fst calls) =
                  map (fun call => Streak.iso_date (fst call)) calls).
  { unfold days_studied. rewrite map_map. apply map_ext_in.
    intros c Hc. rewrite Forall_forall in Hok. apply (Hok c Hc). }
  rewrite (calculateStreak_nonempty offset now _ Hne'). cbv zeta.
  cbn [currentStreak]. rewrite Hdays.
  set (days := map (fun call => Streak.iso_date (fst call)) calls) in *.
  rewrite (sort_ascending _ Hasc).
  pose proof (ascending_rev _ Hasc) as Hdesc.
  assert (Hok1 : Forall (fun call => Streak.iso_date (snd call) =
                                     Streak.iso_date (fst call)) calls).
  { eapply Forall_impl; [ | exact Hok]. simpl. tauto. }
  pose proof (study_at_spec zone offset profile Hz Hnone calls Hok1 Hasc Hne)
    as Hp.
  pose proof (current_loop_days offset _ Hdesc 0 (day_of offset now)) as Hc.
  assert (Hlast : @rev Z days = @List.last Z days 0 :: @tl Z (@rev Z days)).
  { assert (Hd : days <> [])
      by (unfold days; destruct calls; [contradiction | discriminate]).
    destruct (exists_last Hd) as [l [x E]]. rewrite E.
    rewrite last_last, rev_app_distr. reflexivity. }
  rewrite Hlast in Hc. cbv beta iota zeta in Hp, Hc. rewrite <- Hlast in Hc.
  rewrite Z.sub_0_r in Hc.
  match type of Hc with
  | context [if ?b then _ else _] => assert (Ht : b = true)
  end.
  { apply orb_true_iff. destruct Hnow as [E | E]; [left | right];
      apply Z.eqb_eq; rewrite E; [apply Z.sub_diag | apply Z.add_simpl_l]. }
  rewrite Ht in Hc.
  destruct Hp as [_ [_ [H1 [H2 H3]]]]. destruct Hc as [H4 [H5 H6]].
  assert (Hperm : forall a k, run_of_days (rev days) a k -> run_of_days days a k).
  { intros a k Hr j Hj. apply in_rev. apply Hr. exact Hj. }
  eapply streak_unique; try eassumption.
  - apply Hperm. exact H5.
  - intros H. apply H6. apply in_rev in H. exact H.
Qed.

End TwoStreaks.

Lemma two_streaks_at_three_noons :
  Streak.steady Examples.east_8 Examples.eight_hours /\
  Examples.three_noons <> [] /\
  Streak.streak_count
    (study_at Examples.east_8 Examples.new_learner Examples.three_noons) =
  StreakData.currentStreak
    (StreakData.calculateStreak Examples.eight_hours 907200000
       (map fst Examples.three_noons)).
Proof.
  assert (H0 : Streak.steady Examples.east_8 Examples.eight_hours)
    by (intros t; split; reflexivity).
  assert (H1 : Examples.three_noons <> []) by discriminate.
  split; [exact H0 | ]. split; [exact H1 | ].
  apply (proj1 stored_streak_is_current_streak Examples.east_8
           Examples.eight_hours 907200000 Examples.three_noons
           Examples.new_learner H0 H1 eq_refl).
  - repeat constructor.
  - vm_compute. repeat constructor.
  - left. reflexivity.
Defined.

(** * Vocabulary levels *)

Section VocabularyLevels.
Import JS Builtins Vocabulary.

Lemma counts_below_8192 :
  all_below (Z.to_nat 8192) (fun k => level_agrees k && progress_agrees k) = true.
Proof. vm_compute. reflexivity. Qed.

Lemma sub_8000_positive (m : positive) (e : Z) :
  Z.pos (digits2_pos m) = 53 -> -39 <= e ->
  sub (S754_finite false m e) lit_8000 = S754_infinity false \/
  exists m' e', sub (S754_finite false m e) lit_8000 = S754_finite false m' e'.
Proof.
  intros Hd He. unfold sub, lit_8000, SFsub. cbv zeta.
  rewrite Z.min_r by lia.
  pose proof (shl_align_spec m e (-40)) as Hs.
  destruct (shl_align m e (-40)) as [mz ez].
  destruct Hs as [Hez [Hmz _]]. rewrite Z.min_r in Hez by lia. subst ez.
  change (fst (shl_align 8796093022208000 (-40) (-40))) with 8796093022208000%positive.
  cbn [fst cond_Zopp].
  pose proof (digits2_pos_bounds m) as Hb. rewrite Hd in Hb.
  assert (Hp : 2 ^ 1 <= 2 ^ (e - -40)) by (apply Z.pow_le_mono_r; lia).
  assert (Hbig : 2 ^ 53 <= Z.pos mz).
  { rewrite Hmz. change (2 ^ 53) with (2 ^ 52 * 2 ^ 1).
    change (53 - 1) with 52 in Hb. nia. }
  change (2 ^ 53) with 9007199254740992 in Hbig.
  destruct (Z.pos mz - 8796093022208000) as [ | p | p] eqn:E; try lia.
  unfold binary_normalize.
  pose proof (binary_round_spec false p (-40)) as Hr. unfold magnitude in Hr.
  destruct (binary_round prec emax false p (-40)) as [s | s | | s m' e'].
  - lia.
  - destruct Hr as [-> _]. left. reflexivity.
  - contradiction.
  - destruct Hr as [-> _]. right. eauto.
Qed.

Lemma counts_from_8192 (n : Z) :
  8192 <= n ->
  estimateVocabularyLevel (of_Z n) = C2 /\
  progress (getNextLevelProgress (of_Z n)) = lit_100 /\
  forall level, le (minWords (CEFR_THRESHOLDS level)) (of_Z n) = true.
Proof.
  intros Hn.
  assert (Hlt : forall mc ec, ec < -39 ->
            lt (of_Z n) (S754_finite false mc ec) = false /\
            le (S754_finite false mc ec) (of_Z n) = true).
  { intros mc ec Hec. apply (of_Z_large_above 13 n); simpl; lia. }
  assert (Hlevel : estimateVocabularyLevel (of_Z n) = C2).
  { unfold estimateVocabularyLevel, lit_500, lit_1000, lit_2000, lit_4000, lit_8000.
    rewrite (proj1 (Hlt _ (-44) ltac:(lia))), (proj1 (Hlt _ (-43) ltac:(lia))),
            (proj1 (Hlt _ (-42) ltac:(lia))), (proj1 (Hlt _ (-41) ltac:(lia))),
            (proj1 (Hlt _ (-40) ltac:(lia))). reflexivity. }
  split; [exact Hlevel | ]. split.
  - unfold getNextLevelProgress. rewrite Hlevel. cbn [progress].
    change (minWords (CEFR_THRESHOLDS (nth (indexOf levels C2 + 1) levels C2)))
      with lit_8000.
    change (minWords (CEFR_THRESHOLDS C2)) with lit_8000.
    change (sub lit_8000 lit_8000) with (S754_zero false).
    destruct (of_Z_large 13 n ltac:(lia) ltac:(simpl; lia))
      as [-> | [m [e [-> [Hd He]]]]]; [reflexivity | ].
    destruct (sub_8000_positive m e Hd ltac:(lia)) as [-> | [m' [e' ->]]];
      reflexivity.
  - intros level. destruct level; try (apply Hlt; lia).
    cbn [CEFR_THRESHOLDS minWords].
    destruct (of_Z_large 13 n ltac:(lia) ltac:(simpl; lia))
      as [-> | [m [e [-> _]]]]; reflexivity.
Qed.

Lemma counts_negative (n : Z) (level : Level) :
  n < 0 -> le (minWords (CEFR_THRESHOLDS level)) (of_Z n) = false.
Proof.
  intros Hn.
  destruct (of_Z_negative n Hn) as [-> | [m [e ->]]]; destruct level; reflexivity.
Qed.

(** X18: the level of a count is the highest one whose [minWords] the
    count reaches, and the level of a negative count is A1. *)
Theorem level_follows_the_thresholds :
  forall (n : Z) (level : Level),
    (le (minWords (CEFR_THRESHOLDS level)) (of_Z n) = true <->
     0 <= n /\
     (indexOf levels level <=
      indexOf levels (estimateVocabularyLevel (of_Z n)))%nat) /\
    (n < 0 -> estimateVocabularyLevel (of_Z n) = A1).
Proof.
  intros n level.
  destruct (Z_lt_le_dec n 0) as [Hneg | Hnn].
  { rewrite (counts_negative n level Hneg). split.
    - split; [discriminate | lia].
    - intros _. destruct (of_Z_negative n Hneg) as [-> | [m [e ->]]];
        reflexivity. }
  split; [ | lia].
  destruct (Z_lt_le_dec n 8192) as [Hsmall | Hbig].
  - pose proof (all_below_spec _ _ counts_below_8192 n ltac:(rewrite Z2Nat.id; lia)) as Hk.
    cbv beta in Hk. apply andb_true_iff in Hk. destruct Hk as [Hk _].
    unfold level_agrees in Hk. rewrite forallb_forall in Hk.
    assert (Hin : In level levels) by (destruct level; simpl; tauto).
    specialize (Hk level Hin). apply eqb_prop in Hk. rewrite Hk.
    rewrite Nat.leb_le. tauto.
  - destruct (counts_from_8192 n Hbig) as [Hlevel [_ Hle]].
    rewrite Hle, Hlevel. split; [intros _ | reflexivity].
    split; [lia | ]. destruct level; simpl; lia.
Qed.

(** X19: the progress towards the next level of a count below 8000 lies
    from 0 up to, excluding, 100; above 8000 it is 100; at 8000 it is
    not a number. *)
Theorem progress_of_a_count :
  forall n : Z,
    0 <= n ->
    let r := getNextLevelProgress (of_Z n) in
    (n < 8000 ->
     le lit_0 (progress r) = true /\ lt (progress r) lit_100 = true /\
     indexOf levels (nextLevel r) = S (indexOf levels (currentLevel r))) /\
    (n = 8000 -> progress r = NaN) /\
    (8000 < n -> progress r = lit_100).
Proof.
  intros n Hnn. cbv zeta.
  destruct (Z_lt_le_dec n 8192) as [Hsmall | Hbig].
  - pose proof (all_below_spec _ _ counts_below_8192 n ltac:(rewrite Z2Nat.id; lia)) as Hk.
    cbv beta in Hk. apply andb_true_iff in Hk. destruct Hk as [_ Hk].
    unfold progress_agrees in Hk. cbv zeta in Hk.
    split; [ | split]; intros Hn.
    + apply Z.ltb_lt in Hn. rewrite Hn in Hk.
      apply andb_true_iff in Hk. destruct Hk as [Hk H3].
      apply andb_true_iff in Hk. destruct Hk as [H1 H2].
      apply Nat.eqb_eq in H3. auto.
    + subst n. reflexivity.
    + assert (E1 : (n <? 8000) = false) by (apply Z.ltb_ge; lia).
      assert (E2 : (n =? 8000) = false) by (apply Z.eqb_neq; lia).
      rewrite E1, E2 in Hk. apply SFeqb_finite_eq in Hk. exact Hk.
  - split; [lia | ]. split; [lia | ]. intros _.
    apply (counts_from_8192 n Hbig).
Qed.

End VocabularyLevels.

Lemma no_progress_at_8000 :
  0 <= 8000 /\
  Vocabulary.progress (Vocabulary.getNextLevelProgress (JS.of_Z 8000)) = JS.NaN.
Proof.
  assert (H : 0 <= 8000) by lia.
  split; [exact H | ].
  exact (proj1 (proj2 (progress_of_a_count 8000 H)) eq_refl).
Defined.


(** * Reviews made offline *)

Section OfflineReviews.
Import JS OfflineQueue.
Local Open Scope string_scope.

Lemma append_inv_head (s x y : string) : s ++ x = s ++ y -> x = y.
Proof.
  induction s as [ | a s IH]; simpl; intros H; [exact H | ].
  apply IH. congruence.
Qed.

Lemma decimal_inj (a b : Z) :
  DecimalString.NilZero.string_of_int (Z.to_int a) =
  DecimalString.NilZero.string_of_int (Z.to_int b) -> a = b.
Proof.
  intros H.
  assert (Hd : forall z, DecimalString.NilZero.int_of_string
                           (DecimalString.NilZero.string_of_int (Z.to_int z)) =
                         Some (Z.to_int z)).
  { intros z. apply DecimalString.NilZero.isi.
    - intros E. pose proof (f_equal Z.of_int E) as E'.
      rewrite DecimalZ.of_to in E'. simpl in E'. subst z. discriminate E.
    - intros E. pose proof (f_equal Z.of_int E) as E'.
      rewrite DecimalZ.of_to in E'. simpl in E'. subst z. discriminate E. }
  apply (f_equal DecimalString.NilZero.int_of_string) in H.
  rewrite !Hd in H. apply DecimalZ.to_int_inj. congruence.
Qed.

Lemma key_of_inj (c : string) (a b : Z) : key_of c a = key_of c b -> a = b.
Proof.
  unfold key_of. intros H. apply append_inv_head in H.
  apply (append_inv_head "-") in H. apply decimal_inj. exact H.
Qed.

Lemma In_delete (k : string) (db : Store) (e : string * PendingReview) :
  In e (delete k db) <-> In e db /\ fst e <> k.
Proof.
  unfold delete. rewrite filter_In.
  destruct (String.eqb_spec (fst e) k); simpl; intuition congruence.
Qed.

Lemma In_insert (e x : string * PendingReview) (db : Store) :
  In x (insert e db) <-> x = e \/ In x db.
Proof.
  induction db as [ | y rest IH]; simpl.
  - intuition.
  - destruct (String.compare (fst e) (fst y)); simpl; rewrite ?IH; intuition.
Qed.

Lemma In_put (v : PendingReview) (k : string) (db : Store)
    (x : string * PendingReview) :
  In x (put v k db) <-> x = (k, v) \/ In x db /\ fst x <> k.
Proof. unfold put. rewrite In_insert, In_delete. tauto. Qed.

Variable Backend : Type.
Variable submitCardReview : string -> number -> Backend -> Backend * bool.

Lemma sync_loop_only_deletes (reviews : list PendingReview) :
  forall b db e,
    In e (snd (sync_loop Backend submitCardReview reviews b db)) -> In e db.
Proof.
  induction reviews as [ | r rest IH]; intros b db e; simpl; [tauto | ].
  destruct (submitCardReview (cardId r) (quality r) b) as [b' [ | ]];
    intros H; apply IH in H; [ | exact H].
  apply In_delete in H. tauto.
Qed.

Lemma sync_loop_keeps (reviews : list PendingReview) :
  forall b db e,
    In e db ->
    (forall r, In r reviews -> key_of (cardId r) (timestamp r) <> fst e) ->
    In e (snd (sync_loop Backend submitCardReview reviews b db)).
Proof.
  induction reviews as [ | r rest IH]; intros b db e He Hk; simpl; [exact He | ].
  destruct (submitCardReview (cardId r) (quality r) b) as [b' [ | ]].
  - apply IH; [ | intros r' Hr'; apply Hk; right; exact Hr'].
    apply In_delete. split; [exact He | ].
    intros E. apply (Hk r (or_introl eq_refl)). symmetry. exact E.
  - apply IH; [exact He | intros r' Hr'; apply Hk; right; exact Hr'].
Qed.

Lemma sync_loop_all_resolved (reviews : list PendingReview) :
  (forall c q b, snd (submitCardReview c q b) = true) ->
  forall b db e,
    In e (snd (sync_loop Backend submitCardReview reviews b db)) ->
    In e db /\
    forall r, In r reviews -> key_of (cardId r) (timestamp r) <> fst e.
Proof.
  intros Hall.
  induction reviews as [ | r rest IH]; intros b db e; simpl.
  - intros H. split; [exact H | intros r []].
  - pose proof (Hall (cardId r) (quality r) b) as Hr.
    destruct (submitCardReview (cardId r) (quality r) b) as [b' ok].
    simpl in Hr. subst ok. intros H. apply IH in H. destruct H as [H Hrest].
    apply In_delete in H. destruct H as [H Hne]. split; [exact H | ].
    intros r' [<- | Hr']; [congruence | apply Hrest; exact Hr'].
Qed.

Lemma sync_loop_all_rejected (reviews : list PendingReview) :
  (forall c q b, snd (submitCardReview c q b) = false) ->
  forall b db, snd (sync_loop Backend submitCardReview reviews b db) = db.
Proof.
  intros Hall. induction reviews as [ | r rest IH]; intros b db; simpl;
    [reflexivity | ].
  pose proof (Hall (cardId r) (quality r) b) as Hr.
  destruct (submitCardReview (cardId r) (quality r) b) as [b' ok].
  simpl in Hr. subst ok. apply IH.
Qed.

(** X22: a synchronisation only deletes entries; it empties a store
    whose reviews are filed under their own keys when every submission
    resolves, and leaves the store as it is when every one rejects. *)
Theorem syncPendingReviews_deletes_what_it_submitted :
  forall (b : Backend) (db : Store),
    let db' := snd (syncPendingReviews Backend submitCardReview b db) in
    (forall e, In e db' -> In e db) /\
    (own_keys db ->
     (forall c q b', snd (submitCardReview c q b') = true) -> db' = []) /\
    ((forall c q b', snd (submitCardReview c q b') = false) -> db' = db).
Proof.
  intros b db. cbv zeta. unfold syncPendingReviews.
  split; [ | split].
  - intros e. apply sync_loop_only_deletes.
  - intros Hown Hall.
    destruct (snd (sync_loop Backend submitCardReview (getAll db) b db))
      as [ | [k v] rest] eqn:E; [reflexivity | exfalso].
    assert (Hin : In (k, v)
                    (snd (sync_loop Backend submitCardReview (getAll db) b db)))
      by (rewrite E; left; reflexivity).
    apply (sync_loop_all_resolved _ Hall) in Hin. destruct Hin as [Hin Hne].
    apply (Hne v).
    + unfold getAll. apply in_map_iff. exists (k, v). auto.
    + symmetry. apply Hown. exact Hin.
  - intros Hall. apply sync_loop_all_rejected. exact Hall.
Qed.

End OfflineReviews.

Section AcrossATick.
Import JS OfflineQueue.
Local Open Scope string_scope.

(** Whether a stored review has the card and the time stamp that make
    up the key. *)
Lemma addressed_or_not (key : string) (db : Store) :
  (exists k other,
     In (k, other) db /\ key_of (cardId other) (timestamp other) = key) \/
  (forall k other,
     In (k, other) db -> key_of (cardId other) (timestamp other) <> key).
Proof.
  induction db as [ | [k0 r0] rest IH].
  - right. intros k other [].
  - destruct (String.eqb_spec (key_of (cardId r0) (timestamp r0)) key)
      as [E | E].
    + left. exists k0, r0. split; [left; reflexivity | exact E].
    + destruct IH as [[k [other [Hin Hk]]] | IH].
      * left. exists k, other. split; [right; exact Hin | exact Hk].
      * right. intros k other [H | H]; [inversion H; subst; exact E | ].
        apply (IH k other H).
Qed.

(** X23: a review queued while the clock ticks between the two readings
    is filed under a key that is not the one made of its own card and
    time stamp, which is the key that a synchronisation deletes after
    submitting it.  It stays in the store, and is submitted again,
    through every synchronisation at the start of which no other stored
    review has the card and the time stamp that make up its key; in a
    store of reviews filed under their own keys there is none. *)
Theorem queued_across_a_tick_misses_its_key :
  forall (db : Store) (c : string) (q : number) (t_value t_key : Z),
    t_value <> t_key ->
    let review := {| cardId := c; quality := q; timestamp := t_value |} in
    let entry := (key_of c t_key, review) in
    In entry (queueReview c q t_value t_key db) /\
    key_of (cardId review) (timestamp review) <> fst entry /\
    (forall (Backend : Type)
            (submitCardReview : string -> number -> Backend -> Backend * bool)
            (b : Backend) (db' : Store),
       In entry db' ->
       In review (getAll db') /\
       (In entry (snd (syncPendingReviews Backend submitCardReview b db')) \/
        exists key other,
          In (key, other) db' /\ other <> review /\
          key_of (cardId other) (timestamp other) = fst entry)) /\
    (own_keys db -> stuck (queueReview c q t_value t_key db) entry) /\
    (forall (Backend : Type)
            (submitCardReview : string -> number -> Backend -> Backend * bool)
            (b : Backend) (db' : Store),
       stuck db' entry ->
       stuck (snd (syncPendingReviews Backend submitCardReview b db')) entry).
Proof.
  intros db c q t1 t2 Hne. cbv zeta.
  assert (Hown_key : key_of c t1 <> key_of c t2).
  { intros H. apply key_of_inj in H. contradiction. }
  split; [ | split; [ | split; [ | split]]].
  - unfold queueReview. apply In_put. left. reflexivity.
  - exact Hown_key.
  - intros Backend submit b db' Hin. split.
    + unfold getAll. apply in_map_iff. eexists. split; [ | exact Hin].
      reflexivity.
    + destruct (addressed_or_not (key_of c t2) db')
        as [[k [other [Ho Hk]]] | Hnone].
      * right. exists k, other. split; [exact Ho | ]. split; [ | exact Hk].
        intros ->. apply Hown_key. exact Hk.
      * left. unfold syncPendingReviews. apply sync_loop_keeps; [exact Hin | ].
        intros r Hr. unfold getAll in Hr. apply in_map_iff in Hr.
        destruct Hr as [[k r'] [E Hr]]. simpl in E. subst r'.
        apply (Hnone k r Hr).
  - intros Hown. unfold stuck, queueReview. split.
    + apply In_put. left. reflexivity.
    + intros k r Hin. apply In_put in Hin. cbn [fst].
      destruct Hin as [E | [Hin Hk]].
      * inversion E. subst. exact Hown_key.
      * cbn [fst] in Hk. rewrite <- (Hown k r Hin). exact Hk.
  - intros Backend submit b db' [Hin Hk].
    unfold stuck, syncPendingReviews. split.
    + apply sync_loop_keeps; [exact Hin | ].
      intros r Hr. unfold getAll in Hr. apply in_map_iff in Hr.
      destruct Hr as [[k r'] [E Hr]]. simpl in E. subst r'.
      apply (Hk k r Hr).
    + intros k r Hr. apply sync_loop_only_deletes in Hr. apply (Hk k r Hr).
Qed.

(** Two reviews of one card, each queued across a tick, the second with
    the reading under which the first is filed: a synchronisation in
    which every submission resolves deletes the first. *)
Remark queued_twice_across_ticks :
  snd (syncPendingReviews unit (fun _ _ b => (b, true)) tt
         (queueReview "c" SM2.QUALITY_GOOD 1001 1002
            (queueReview "c" SM2.QUALITY_GOOD 1000 1001 []))) =
  [ (key_of "c" 1002,
     {| cardId := "c"; quality := SM2.QUALITY_GOOD; timestamp := 1001 |}) ].
Proof. vm_compute. reflexivity. Qed.

End AcrossATick.

Lemma stuck_after_a_tick :
  1000 <> 1001 /\
  OfflineQueue.own_keys [] /\
  OfflineQueue.stuck
    (OfflineQueue.queueReview "a" SM2.QUALITY_GOOD 1000 1001 [])
    (OfflineQueue.key_of "a" 1001,
     {| OfflineQueue.cardId := "a"; OfflineQueue.quality := SM2.QUALITY_GOOD;
        OfflineQueue.timestamp := 1000 |}).
Proof.
  assert (H1 : OfflineQueue.own_keys []) by (intros k r []).
  assert (H2 : 1000 <> 1001) by discriminate.
  split; [exact H2 | ]. split; [exact H1 | ].
  exact (proj1 (proj2 (proj2 (proj2
           (queued_across_a_tick_misses_its_key [] "a"%string
              SM2.QUALITY_GOOD 1000 1001 H2)))) H1).
Defined.
